(** * mixin-migrate: a shallow embedding of the migration runner

    The development follows [main.go] and [keystore.go].  Pure helpers
    ([sumUtxos], the slicing of the spend loop, the in-place filter of the
    legacy balances) are plain functions; the phases of the runner are
    written in a small state-and-error monad over a [World] that holds the
    state of everything outside the process, the file system, the shared
    keystore record and the trace of the calls made so far.  Everything the
    program imports (the ledger client, the JSON codec, the operating
    system, the entropy source) is a field of the environment record
    [Env]; the loops that Go leaves unbounded take fuel.

    The first part holds the definitions: the data, the monad, the program,
    the readings of a trace that the statements use, and a concrete
    environment to run the program in.  The second part holds the
    properties, stated for every environment, and their instances in the
    concrete one. *)

From Stdlib Require Import ZArith QArith Qpower Lia Ascii String DecimalString.
From stdpp Require Import gmap strings list fin_maps.

Open Scope Z_scope.

(** ** Results of Go calls *)

(** A Go call returning [(T, error)]: the error is kept as its message. *)
Inductive result (A : Type) : Type :=
| Ok (a : A)
| Err (e : string).
Arguments Ok {A} a.
Arguments Err {A} e.

Definition isOk {A} (r : result A) : bool :=
  match r with Ok _ => true | Err _ => false end.

(** ** Decimal amounts

    [decimal.Decimal] of shopspring/decimal is an arbitrary-precision
    coefficient with a base-ten exponent; the zero value of the struct is
    the number zero. *)
Module decimal.

Record Decimal : Type := mkDecimal { value : Z; exp : Z }.

Definition Zero : Decimal := mkDecimal 0 0.

(** [d.rescale(exp)]: the coefficient is multiplied by a power of ten when
    the exponent goes down, and divided (truncating) when it goes up. *)
Definition rescale (d : Decimal) (e : Z) : Decimal :=
  if exp d =? e then d
  else
    let diff := Z.abs (e - exp d) in
    let expScale := 10 ^ diff in
    if exp d <? e then mkDecimal (Z.quot (value d) expScale) e
    else mkDecimal (value d * expScale) e.

Definition RescalePair (d1 d2 : Decimal) : Decimal * Decimal :=
  if exp d1 =? exp d2 then (d1, d2)
  else
    let baseScale := Z.min (exp d1) (exp d2) in
    if negb (baseScale =? exp d1) then (rescale d1 baseScale, d2)
    else (d1, rescale d2 baseScale).

Definition Add (d d2 : Decimal) : Decimal :=
  let '(rd, rd2) := RescalePair d d2 in
  mkDecimal (value rd + value rd2) (exp rd).

Definition Sign (d : Decimal) : Z := Z.sgn (value d).
Definition IsZero (d : Decimal) : bool := Sign d =? 0.

(** The rational number a decimal stands for. *)
Definition toQ (d : Decimal) : Q := (inject_Z (value d) * Qpower 10 (exp d))%Q.

End decimal.

Abbreviation Decimal := decimal.Decimal.

(** ** Hexadecimal text and keys

    [mixinnet.Key] is an array of 32 bytes; [Key.String] is its lower-case
    hexadecimal text.  [KeyFromString] decodes a hexadecimal text: 32
    bytes are the key itself, 64 bytes are a private key in its long form,
    from whose seed the key is derived, and any other size is an error. *)
Module hex.

Definition hextable (n : N) : ascii :=
  match n with
  | 0 => "0" | 1 => "1" | 2 => "2" | 3 => "3" | 4 => "4" | 5 => "5"
  | 6 => "6" | 7 => "7" | 8 => "8" | 9 => "9" | 10 => "a" | 11 => "b"
  | 12 => "c" | 13 => "d" | 14 => "e" | _ => "f"
  end%N%char.

(** The reverse table: the value of a hexadecimal digit of either case. *)
Definition fromHexChar (c : ascii) : option N :=
  let n := N_of_ascii c in
  if ((48 <=? n) && (n <=? 57))%N then Some (n - 48)%N
  else if ((97 <=? n) && (n <=? 102))%N then Some (n - 97 + 10)%N
  else if ((65 <=? n) && (n <=? 70))%N then Some (n - 65 + 10)%N
  else None.

Fixpoint EncodeToString (src : list ascii) : string :=
  match src with
  | [] => EmptyString
  | b :: rest =>
      let n := N_of_ascii b in
      String (hextable (N.shiftr n 4))
        (String (hextable (N.land n 15)) (EncodeToString rest))
  end.

Definition ErrLength : string := "encoding/hex: odd length hex string".

(** [fmt]'s verb [%#U] on a byte taken as a rune: [U+] and four upper-case
    hexadecimal digits, followed, when [strconv.IsPrint] holds of the rune,
    by the rune between single quotes, written in UTF-8. *)
Definition udigits (n : N) : ascii :=
  match n with
  | 0 => "0" | 1 => "1" | 2 => "2" | 3 => "3" | 4 => "4" | 5 => "5"
  | 6 => "6" | 7 => "7" | 8 => "8" | 9 => "9" | 10 => "A" | 11 => "B"
  | 12 => "C" | 13 => "D" | 14 => "E" | _ => "F"
  end%N%char.

Definition IsPrint (r : N) : bool :=
  ((32 <=? r) && (r <=? 126) || (161 <=? r) && (r <=? 255) && negb (r =? 173))%N.

Definition EncodeRune (r : N) : string :=
  if (r <? 128)%N then String (ascii_of_N r) EmptyString
  else String (ascii_of_N (N.lor 192 (N.shiftr r 6)))
         (String (ascii_of_N (N.lor 128 (N.land r 63))) EmptyString).

Definition fmtUnicode (c : ascii) : string :=
  let r := N_of_ascii c in
  "U+00" +:+ String (udigits (N.shiftr r 4)) (String (udigits (N.land r 15)) EmptyString)
  +:+ (if IsPrint r then " '" +:+ EncodeRune r +:+ "'" else EmptyString).

Definition InvalidByteError (c : ascii) : string :=
  "encoding/hex: invalid byte: " +:+ fmtUnicode c.

Fixpoint DecodeString (s : string) : result (list ascii) :=
  match s with
  | EmptyString => Ok []
  | String p EmptyString =>
      match fromHexChar p with
      | None => Err (InvalidByteError p)
      | Some _ => Err ErrLength
      end
  | String p (String q rest) =>
      match fromHexChar p, fromHexChar q with
      | None, _ => Err (InvalidByteError p)
      | Some _, None => Err (InvalidByteError q)
      | Some a, Some b =>
          match DecodeString rest with
          | Ok bs => Ok (ascii_of_N (N.lor (N.shiftl a 4) b) :: bs)
          | Err e => Err e
          end
      end
  end.

End hex.

Module mixinnet.

Record Key : Type := mkKey { bytes : list ascii; size : length bytes = 32%nat }.

Definition KeyString (k : Key) : string := hex.EncodeToString (bytes k).

(** [fromSeed] stands for what the SDK derives from the seed of a 64-byte
    private key (the first 32 bytes): its SHA-512 digest, clamped and
    reduced to a scalar.  That derivation lies in [crypto/sha512] and
    [edwards25519]; it cannot fail on 64 bytes. *)
Definition KeyFromString (fromSeed : list ascii -> Key) (s : string) : result Key :=
  match hex.DecodeString s with
  | Err e => Err e
  | Ok b =>
      match decide (length b = 32%nat) with
      | left H => Ok (mkKey b H)
      | right _ =>
          if (length b =? 64)%nat then Ok (fromSeed (take 32 b))
          else Err ("invalid key size "
                      +:+ NilEmpty.string_of_uint (Nat.to_uint (length b)))
      end
  end.

End mixinnet.

(** ** Data of the ledger client (mixin-sdk-go), with the fields the
    program reads or writes *)

Module Asset.
Record t : Type := mk { AssetID : string; Symbol : string; Balance : Decimal }.
End Asset.

Module TransferInput.
Record t : Type := mk {
  AssetID : string; OpponentID : string; Amount : Decimal;
  TraceID : string; Memo : string }.
End TransferInput.

Module Snapshot.
Record t : Type := mk { SnapshotID : string }.
End Snapshot.

Module SafeUtxo.
(** [Sequence] is a [uint64]. *)
Record t : Type := mk {
  OutputID : string; AssetID : string; Amount : Decimal; Sequence : Z }.
End SafeUtxo.

Module SafeListUtxoOption.
(** [Offset] is a [uint64], [Limit] an [int]. *)
Record t : Type := mk { Offset : Z; Limit : Z; Order : string; State : string }.
End SafeListUtxoOption.

Module SafeAsset.
Record t : Type := mk { Symbol : string }.
End SafeAsset.

Module MixAddress.
Record t : Type := mk { Members : list string; Threshold : Z }.
End MixAddress.

Module TransactionOutput.
Record t : Type := mk { Address : MixAddress.t; Amount : Decimal }.
End TransactionOutput.

Module TransactionBuilder.
Record t : Type := mk { Inputs : list SafeUtxo.t; Memo : string; Hint : string }.
End TransactionBuilder.

Module SafeTransactionRequestInput.
Record t : Type := mk { RequestID : string; RawTransaction : string }.
End SafeTransactionRequestInput.

Module SafeTransactionRequest.
Record t : Type := mk { RequestID : string; Views : list string }.
End SafeTransactionRequest.

Module User.
Record t : Type := mk { UserID : string; IdentityNumber : string; FullName : string }.
End User.

Module Client.
Record t : Type := mk { ClientID : string }.
End Client.

Module mixin.

(** The keystore of the SDK, embedded in the program's own.  The program
    reads none of its fields itself: it hands the struct to
    [NewFromKeystore] and to the JSON codec. *)
Record Keystore : Type := mkKeystore {
  ClientID : string; SessionID : string; PrivateKey : string;
  PinToken : string; Scope : string }.

Definition SafeUtxoStateUnspent : string := "unspent".

(** [RequireNewMixAddress(members, threshold)], kept as the data it is
    built from. *)
Definition RequireNewMixAddress (members : list string) (threshold : Z) : MixAddress.t :=
  MixAddress.mk members threshold.

End mixin.

(** Arithmetic on [uint64] wraps around. *)
Definition uint64 (z : Z) : Z := z mod 2 ^ 64.

(** [l[lo:hi]] for [0 <= lo <= hi <= len(l)]. *)
Definition slice {A} (l : list A) (lo hi : Z) : list A :=
  take (Z.to_nat (hi - lo)) (drop (Z.to_nat lo) l).

Definition len {A} (l : list A) : Z := Z.of_nat (length l).

(** [ceil(n / d)] for [0 <= n] and [0 < d]. *)
Definition ceilDiv (n d : Z) : Z := (n + d - 1) / d.


(** ** keystore.go *)

Module Keystore.
Record t : Type := mk { base : mixin.Keystore; Pin : string; SpendKey : string }.

Definition setPin (k : t) (pin : string) : t := mk (base k) pin (SpendKey k).
Definition setSpendKey (k : t) (spendKey : string) : t := mk (base k) (Pin k) spendKey.

(** The zero value of the struct, which [loadKeystore] decodes into. *)
Definition zero : t := mk (mixin.mkKeystore "" "" "" "" "") "" "".
End Keystore.

(** ** The operating system's files *)

Inductive OpenFlag : Type := O_RDONLY | O_WRONLY.

Record File : Type := mkFile { perm : N; content : string }.

(** Writing [data] at offset zero of a file opened without [O_TRUNC]: the
    bytes beyond the written ones stay. *)
Definition writeAt0 (data old : string) : string :=
  data +:+ String.substring (String.length data) (String.length old - String.length data) old.

(** ** What happens outside the process *)

Inductive Event : Type :=
| EvOpenFile (path : string) (flag : OpenFlag)
| EvWriteFile (path : string) (data : string)
| EvHttpGet (uri : string)
| EvPrompt
| EvReadAssets
| EvRandomTraceID
| EvTransfer (input : TransferInput.t) (pin : string)
| EvGenerateKey (k : mixinnet.Key)
| EvModifyPin (pin newPin : string)
| EvSafeMigrate (spendKey pin : string)
| EvSafeListUtxos (opt : SafeListUtxoOption.t)
| EvSafeReadAsset (assetId : string)
| EvNewBuilder (utxos : list SafeUtxo.t)
| EvMakeTransaction (b : TransactionBuilder.t) (outputs : list TransactionOutput.t)
| EvSafeCreateTransactionRequest (input : SafeTransactionRequestInput.t)
| EvSafeSubmitTransactionRequest (input : SafeTransactionRequestInput.t).

(** The environment: every imported operation the program calls.  [L] is
    the state of everything outside the process (ledger, network, entropy,
    terminal); an operation on it returns its Go result and the next state.
    [Tx] is the SDK's transaction object. *)
Record Env (L Tx : Type) : Type := mkEnv {
  (* os: the access check of [open], and [write] on an open descriptor,
     which takes all of the data ([None]) or returns an error after the
     first [n] bytes of it ([Some (n, e)]) *)
  permits : OpenFlag -> N -> bool;
  fileWrite : string -> string -> L -> option (nat * string) * L;
  (* encoding/json on the two structs the program decodes or encodes *)
  jsonEncodeKeystore : Keystore.t -> string;
  jsonDecodeKeystore : string -> result Keystore.t;
  jsonDecodeUser : string -> result User.t;
  (* net/http, promptui, spf13/cast, decimal *)
  httpGet : string -> L -> result string * L;
  promptRun : L -> result string * L;
  ToInt64 : string -> Z;
  decimalString : Decimal -> string;
  (* mixin-sdk-go: local operations *)
  NewFromKeystore : mixin.Keystore -> result Client.t;
  RandomTraceID : L -> string * L;
  GenerateKey : L -> mixinnet.Key * L;
  Public : mixinnet.Key -> mixinnet.Key;
  keyFromSeed : list ascii -> mixinnet.Key;
  newHint : list SafeUtxo.t -> L -> string * L;
  Dump : Tx -> result string;
  SafeSignTransaction : Tx -> mixinnet.Key -> list string -> Z -> result Tx;
  (* mixin-sdk-go: calls to the ledger *)
  ReadAssets : L -> result (list Asset.t) * L;
  Transfer : TransferInput.t -> string -> L -> result Snapshot.t * L;
  ModifyPin : string -> string -> L -> result unit * L;
  SafeMigrate : string -> string -> L -> result unit * L;
  SafeListUtxos : SafeListUtxoOption.t -> L -> result (list SafeUtxo.t) * L;
  SafeReadAsset : string -> L -> result SafeAsset.t * L;
  MakeTransaction : TransactionBuilder.t -> list TransactionOutput.t -> L -> result Tx * L;
  SafeCreateTransactionRequest :
    SafeTransactionRequestInput.t -> L -> result SafeTransactionRequest.t * L;
  SafeSubmitTransactionRequest :
    SafeTransactionRequestInput.t -> L -> result SafeTransactionRequest.t * L;
  (* the order in which [range] walks a map, which Go leaves unspecified *)
  rangeOrder : gmap string (list SafeUtxo.t) -> list (string * list SafeUtxo.t)
}.

Arguments permits {L Tx} _ _ _.
Arguments fileWrite {L Tx} _ _ _ _.
Arguments jsonEncodeKeystore {L Tx} _ _.
Arguments jsonDecodeKeystore {L Tx} _ _.
Arguments jsonDecodeUser {L Tx} _ _.
Arguments httpGet {L Tx} _ _ _.
Arguments promptRun {L Tx} _ _.
Arguments ToInt64 {L Tx} _ _.
Arguments decimalString {L Tx} _ _.
Arguments NewFromKeystore {L Tx} _ _.
Arguments RandomTraceID {L Tx} _ _.
Arguments GenerateKey {L Tx} _ _.
Arguments Public {L Tx} _ _.
Arguments keyFromSeed {L Tx} _ _.
Arguments newHint {L Tx} _ _ _.
Arguments Dump {L Tx} _ _.
Arguments SafeSignTransaction {L Tx} _ _ _ _ _.
Arguments ReadAssets {L Tx} _ _.
Arguments Transfer {L Tx} _ _ _ _.
Arguments ModifyPin {L Tx} _ _ _ _.
Arguments SafeMigrate {L Tx} _ _ _ _.
Arguments SafeListUtxos {L Tx} _ _ _.
Arguments SafeReadAsset {L Tx} _ _ _.
Arguments MakeTransaction {L Tx} _ _ _ _.
Arguments SafeCreateTransactionRequest {L Tx} _ _ _.
Arguments SafeSubmitTransactionRequest {L Tx} _ _ _.
Arguments rangeOrder {L Tx} _ _.

(** ** The state a run threads through, and its monad *)

(** [outside]: the state of the world beyond the process; [files]: the file
    system; [key]: the one keystore record the runner's [key] pointer
    refers to, shared by all phases; [trace]: the external calls made so
    far, oldest first. *)
Record World (L : Type) : Type := mkWorld {
  outside : L;
  files : gmap string File;
  key : Keystore.t;
  trace : list Event }.
Arguments mkWorld {L} _ _ _ _.
Arguments outside {L} _.
Arguments files {L} _.
Arguments key {L} _.
Arguments trace {L} _.

(** How a piece of the program ends: it returns a value, it returns (or
    logs, in [main]) an error, or it is still looping when the fuel given to
    its loops runs out. *)
Inductive outcome (A : Type) : Type :=
| Done (a : A)
| Fail (e : string)
| Spin.
Arguments Done {A} a.
Arguments Fail {A} e.
Arguments Spin {A}.

Definition M (L A : Type) : Type := World L -> outcome A * World L.

Definition ret {L A} (a : A) : M L A := fun w => (Done a, w).

Definition bind {L A B} (m : M L A) (k : A -> M L B) : M L B :=
  fun w =>
    match m w with
    | (Done a, w') => k a w'
    | (Fail e, w') => (Fail e, w')
    | (Spin, w') => (Spin, w')
    end.

Declare Scope go_scope.
Delimit Scope go_scope with go.
Notation "x <- m ;; k" := (bind m (fun x => k))
  (at level 90, m at level 89, right associativity) : go_scope.
Notation "m ;;; k" := (bind m (fun _ => k))
  (at level 90, right associativity) : go_scope.

Definition fail {L A} (e : string) : M L A := fun w => (Fail e, w).
Definition spin {L A} : M L A := fun w => (Spin, w).

(** [if err != nil { return fmt.Errorf(ctx + "%w", err) }] *)
Definition wrap {L A} (ctx : string) (m : M L A) : M L A :=
  fun w =>
    match m w with
    | (Fail e, w') => (Fail (ctx +:+ e), w')
    | r => r
    end.

(** A Go result that needs nothing from outside. *)
Definition lift {L A} (r : result A) : M L A :=
  fun w => (match r with Ok a => Done a | Err e => Fail e end, w).

(** A call that may fail: it is recorded, and the world outside moves on. *)
Definition call {L A} (ev : Event) (op : L -> result A * L) : M L A :=
  fun w =>
    let '(r, l') := op (outside w) in
    (match r with Ok a => Done a | Err e => Fail e end,
     mkWorld l' (files w) (key w) (trace w ++ [ev])).

(** A call that cannot fail; the event may mention what it returned. *)
Definition draw {L A} (ev : A -> Event) (op : L -> A * L) : M L A :=
  fun w =>
    let '(a, l') := op (outside w) in
    (Done a, mkWorld l' (files w) (key w) (trace w ++ [ev a])).

Definition getKey {L} : M L Keystore.t := fun w => (Done (key w), w).
Definition putKey {L} (k : Keystore.t) : M L unit :=
  fun w => (Done tt, mkWorld (outside w) (files w) k (trace w)).

(** [os.Open] / [os.OpenFile] without [O_CREATE]: the file must exist and
    the system must permit the access. *)
Definition openFile {L Tx} (env : Env L Tx) (path : string) (flag : OpenFlag) : M L File :=
  fun w =>
    let w' := mkWorld (outside w) (files w) (key w) (trace w ++ [EvOpenFile path flag]) in
    match files w !! path with
    | None => (Fail ("open " +:+ path +:+ ": no such file or directory"), w')
    | Some f =>
        if permits env flag (perm f) then (Done f, w')
        else (Fail ("open " +:+ path +:+ ": permission denied"), w')
    end.

(** Writing [data] through a descriptor opened on [path], at offset zero.
    The write may fail: the bytes taken before the error are in the file,
    and the error is returned. *)
Definition writeFile {L Tx} (env : Env L Tx) (path : string) (data : string) : M L unit :=
  fun w =>
    let '(r, l') := fileWrite env path data (outside w) in
    let written := match r with None => data | Some (n, _) => String.substring 0 n data end in
    let fs :=
      match files w !! path with
      | Some f => <[path := mkFile (perm f) (writeAt0 written (content f))]> (files w)
      | None => files w
      end in
    (match r with None => Done tt | Some (_, e) => Fail e end,
     mkWorld l' fs (key w) (trace w ++ [EvWriteFile path data])).

(** ** main.go *)

Record runner : Type := mkRunner {
  client : Client.t;
  output : string;
  receiver : string }.

(** [sumUtxos]: the loop starts from the zero value of [decimal.Decimal]. *)
Definition sumUtxos (utxos : list SafeUtxo.t) : Decimal :=
  fold_left (fun sum utxo => decimal.Add sum (SafeUtxo.Amount utxo)) utxos decimal.Zero.

(** The first loop of [migrateLegacyAssets] moves the assets with a non-zero
    balance to the front of the slice it ranges over: [i] is the position
    the range is at, [idx] the next position to write; at most [n] more
    positions are visited. *)
Fixpoint compactLoop (n i : nat) (assets : list Asset.t) (idx : nat) : list Asset.t * nat :=
  match n with
  | O => (assets, idx)
  | S n' =>
      match assets !! i with
      | None => (assets, idx)
      | Some asset =>
          if decimal.IsZero (Asset.Balance asset)
          then compactLoop n' (S i) assets idx
          else compactLoop n' (S i) (<[idx := asset]> assets) (S idx)
      end
  end.

(** ... followed by [assets = assets[:idx]]. *)
Definition compact (assets : list Asset.t) : list Asset.t :=
  let '(assets', idx) := compactLoop (length assets) 0 assets 0 in
  take idx assets'.

Definition memo : string := "migrate by mixin-migrate".

(** The page loop of [migrateSafeAssets] over one page. *)
Definition collectPage (utxos : list SafeUtxo.t)
    (st : SafeListUtxoOption.t * gmap string (list SafeUtxo.t))
    : SafeListUtxoOption.t * gmap string (list SafeUtxo.t) :=
  fold_left
    (fun '(opt, assets) utxo =>
       (SafeListUtxoOption.mk (uint64 (SafeUtxo.Sequence utxo + 1))
          (SafeListUtxoOption.Limit opt) (SafeListUtxoOption.Order opt)
          (SafeListUtxoOption.State opt),
        <[SafeUtxo.AssetID utxo :=
            default [] (assets !! SafeUtxo.AssetID utxo) ++ [utxo]]> assets))
    utxos st.

Definition initialOption : SafeListUtxoOption.t :=
  SafeListUtxoOption.mk 0 500 "ASC" mixin.SafeUtxoStateUnspent.

(** [strings.EqualFold(result, "y")] *)
Definition EqualFold_y (s : string) : bool := String.eqb s "y" || String.eqb s "Y".

Section Runner.

Context {L Tx : Type} (env : Env L Tx).
Local Open Scope go_scope.

Definition saveKeystore (r : runner) : M L unit :=
  _ <- wrap "open keystore failed: " (openFile env (output r) O_WRONLY) ;;
  k <- getKey ;;
  wrap "save keystore failed: " (writeFile env (output r) (jsonEncodeKeystore env k)).

Definition loadKeystore (path : string) : M L Keystore.t :=
  f <- openFile env path O_RDONLY ;;
  lift (jsonDecodeKeystore env (content f)).

(** The second loop of [migrateLegacyAssets]. *)
Fixpoint transferLoop (r : runner) (assets : list Asset.t) : M L unit :=
  match assets with
  | [] => ret tt
  | asset :: rest =>
      traceID <- draw (fun _ => EvRandomTraceID) (RandomTraceID env) ;;
      let t := TransferInput.mk (Asset.AssetID asset) (receiver r)
                 (Asset.Balance asset) traceID memo in
      k <- getKey ;;
      _ <- wrap ("transfer " +:+ decimalString env (Asset.Balance asset) +:+ " "
                   +:+ Asset.Symbol asset +:+ " failed: ")
             (call (EvTransfer t (Keystore.Pin k)) (Transfer env t (Keystore.Pin k))) ;;
      transferLoop r rest
  end.

Definition migrateLegacyAssets (r : runner) : M L unit :=
  assets <- wrap "list legacy assets failed: " (call EvReadAssets (ReadAssets env)) ;;
  let assets := compact assets in
  if len assets =? 0 then ret tt
  else transferLoop r assets.

Definition updateTipPin (r : runner) : M L unit :=
  k <- getKey ;;
  if isOk (mixinnet.KeyFromString (keyFromSeed env) (Keystore.Pin k)) then ret tt
  else
    key <- draw EvGenerateKey (GenerateKey env) ;;
    let newPin := mixinnet.KeyString (Public env key) in
    k <- getKey ;;
    _ <- wrap "modify pin failed: "
           (call (EvModifyPin (Keystore.Pin k) newPin)
              (ModifyPin env (Keystore.Pin k) newPin)) ;;
    k <- getKey ;;
    putKey (Keystore.setPin k (mixinnet.KeyString key)) ;;;
    saveKeystore r.

Definition migrateToSafe (r : runner) : M L unit :=
  k <- getKey ;;
  if isOk (mixinnet.KeyFromString (keyFromSeed env) (Keystore.SpendKey k)) then ret tt
  else
    key <- draw EvGenerateKey (GenerateKey env) ;;
    let newSpendKey := mixinnet.KeyString key in
    k <- getKey ;;
    _ <- wrap "migrate safe failed: "
           (call (EvSafeMigrate newSpendKey (Keystore.Pin k))
              (SafeMigrate env newSpendKey (Keystore.Pin k))) ;;
    k <- getKey ;;
    putKey (Keystore.setSpendKey k newSpendKey) ;;;
    saveKeystore r.

(** The pagination loop of [migrateSafeAssets]: one unit of fuel per
    request. *)
Fixpoint listLoop (fuel : nat) (opt : SafeListUtxoOption.t)
    (assets : gmap string (list SafeUtxo.t)) : M L (gmap string (list SafeUtxo.t)) :=
  match fuel with
  | O => spin
  | S fuel' =>
      utxos <- wrap "list safe utxos failed: "
                 (call (EvSafeListUtxos opt) (SafeListUtxos env opt)) ;;
      if len utxos =? 0 then ret assets
      else
        let '(opt', assets') := collectPage utxos (opt, assets) in
        listLoop fuel' opt' assets'
  end.

(** [mixin.NewSafeTransactionBuilder(utxos)]: a builder over [utxos], with
    no memo yet and a request hint of the SDK's choosing. *)
Definition NewSafeTransactionBuilder (utxos : list SafeUtxo.t) : M L TransactionBuilder.t :=
  hint <- draw (fun _ => EvNewBuilder utxos) (newHint env utxos) ;;
  ret (TransactionBuilder.mk utxos EmptyString hint).

(** The body of the spend loop: one group is built, signed and submitted. *)
Definition settle (r : runner) (spendKey : mixinnet.Key) (spends : list SafeUtxo.t) : M L unit :=
  b <- NewSafeTransactionBuilder spends ;;
  let b := TransactionBuilder.mk (TransactionBuilder.Inputs b) memo
             (TransactionBuilder.Hint b) in
  let output := TransactionOutput.mk
                  (mixin.RequireNewMixAddress [receiver r] 1) (sumUtxos spends) in
  tx <- wrap "make safe transaction failed: "
          (call (EvMakeTransaction b [output]) (MakeTransaction env b [output])) ;;
  raw <- wrap "dump transaction failed: " (lift (Dump env tx)) ;;
  let input := SafeTransactionRequestInput.mk (TransactionBuilder.Hint b) raw in
  req <- wrap "create transaction request failed: "
           (call (EvSafeCreateTransactionRequest input)
              (SafeCreateTransactionRequest env input)) ;;
  tx <- wrap "sign transaction failed: "
          (lift (SafeSignTransaction env tx spendKey (SafeTransactionRequest.Views req) 0)) ;;
  signedRaw <- wrap "dump transaction failed: " (lift (Dump env tx)) ;;
  let input := SafeTransactionRequestInput.mk (SafeTransactionRequest.RequestID req) signedRaw in
  _ <- wrap "submit transaction request failed: "
         (call (EvSafeSubmitTransactionRequest input)
            (SafeSubmitTransactionRequest env input)) ;;
  ret tt.

(** [for idx := 0; idx < len(utxos); idx += *spendGroupCount]: one unit
    of fuel per test of the loop condition. *)
Fixpoint spendLoop (fuel : nat) (r : runner) (spendGroupCount : Z)
    (spendKey : mixinnet.Key) (utxos : list SafeUtxo.t) (idx : Z) : M L unit :=
  match fuel with
  | O => spin
  | S fuel' =>
      if idx <? len utxos then
        let spends := slice utxos idx (Z.min (len utxos) (idx + spendGroupCount)) in
        settle r spendKey spends ;;;
        spendLoop fuel' r spendGroupCount spendKey utxos (idx + spendGroupCount)
      else ret tt
  end.

(** [for assetId, utxos := range assets] *)
Fixpoint assetLoop (fuel : nat) (r : runner) (spendGroupCount : Z)
    (spendKey : mixinnet.Key) (entries : list (string * list SafeUtxo.t)) : M L unit :=
  match entries with
  | [] => ret tt
  | (assetId, utxos) :: rest =>
      _ <- wrap ("read safe asset " +:+ assetId +:+ " failed: ")
             (call (EvSafeReadAsset assetId) (SafeReadAsset env assetId)) ;;
      spendLoop fuel r spendGroupCount spendKey utxos 0 ;;;
      assetLoop fuel r spendGroupCount spendKey rest
  end.

Definition migrateSafeAssets (fuel : nat) (r : runner) (spendGroupCount : Z) : M L unit :=
  assets <- listLoop fuel initialOption ∅ ;;
  if Z.of_nat (size assets) =? 0 then ret tt
  else
    k <- getKey ;;
    spendKey <- wrap "invalid spend key: " (lift (mixinnet.KeyFromString (keyFromSeed env) (Keystore.SpendKey k))) ;;
    assetLoop fuel r spendGroupCount spendKey (rangeOrder env assets).

Definition fetchUserInfo (id : string) : M L User.t :=
  let uri := "https://echo.yiplee.com/users/" +:+ id in
  body <- call (EvHttpGet uri) (httpGet env uri) ;;
  lift (jsonDecodeUser env body).

Definition conformContinue : M L bool :=
  fun w =>
    match call EvPrompt (promptRun env) w with
    | (Done result, w') => (Done (EqualFold_y result), w')
    | (Fail _, w') => (Done false, w')
    | (Spin, w') => (Spin, w')
    end.

(** The four phases, as [main] runs them once the runner is built.
    [log.Fatalln(msg, err)] ends the process with the line [msg err]. *)
Definition runPhases (fuel : nat) (r : runner) (spendGroupCount : Z) : M L unit :=
  wrap "migrate legacy assets failed: " (migrateLegacyAssets r) ;;;
  wrap "update tip pin failed: " (updateTipPin r) ;;;
  wrap "migrate safe failed: " (migrateToSafe r) ;;;
  wrap "migrate safe assets failed: " (migrateSafeAssets fuel r spendGroupCount).

(** [main], given the parsed command line: the positional arguments and
    the two flags.  [Fail msg] is the process ending in [log.Fatalln]. *)
Definition main (fuel : nat) (args : list string) (keystorePath : string)
    (spendGroupCount : Z) : M L unit :=
  match args with
  | [] => fail "receiver id is required"
  | arg0 :: _ =>
      if (spendGroupCount <=? 0) || (256 <? spendGroupCount)
      then fail "invalid spend group count"
      else
        k <- wrap "load keystore failed: " (loadKeystore keystorePath) ;;
        putKey k ;;;
        client <- wrap "new client failed: " (lift (NewFromKeystore env (Keystore.base k))) ;;
        receiver <- wrap "read receiver info failed: " (fetchUserInfo arg0) ;;
        if ToInt64 env (User.IdentityNumber receiver) =? 0
        then fail "receiver is not a mixin messenger user"
        else if String.eqb (User.UserID receiver) (Client.ClientID client)
        then fail "receiver is self"
        else
          continue <- conformContinue ;;
          if negb continue then ret tt
          else runPhases fuel (mkRunner client keystorePath (User.UserID receiver))
                 spendGroupCount
  end.

End Runner.

(** ** Reading a trace *)

(** The slices the spend loop takes from one asset's outputs: the loop of
    [spendLoop] without the settlement of each slice. *)
Fixpoint spendGroups {A} (fuel : nat) (spendGroupCount : Z) (utxos : list A) (idx : Z)
    : option (list (list A)) :=
  match fuel with
  | O => None
  | S fuel' =>
      if idx <? len utxos then
        let spends := slice utxos idx (Z.min (len utxos) (idx + spendGroupCount)) in
        match spendGroups fuel' spendGroupCount utxos (idx + spendGroupCount) with
        | Some groups => Some (spends :: groups)
        | None => None
        end
      else Some []
  end.

(** The inputs and outputs of the transactions built, in order. *)
Fixpoint madeTransactions (t : list Event)
    : list (TransactionBuilder.t * list TransactionOutput.t) :=
  match t with
  | [] => []
  | EvMakeTransaction b outputs :: t' => (b, outputs) :: madeTransactions t'
  | _ :: t' => madeTransactions t'
  end.

(** The groups whose transaction was submitted for final acceptance are
    those of the builders made; the groups handed to a builder, in order. *)
Fixpoint builtGroups (t : list Event) : list (list SafeUtxo.t) :=
  match t with
  | [] => []
  | EvNewBuilder utxos :: t' => utxos :: builtGroups t'
  | _ :: t' => builtGroups t'
  end.

(** The legacy transfers requested, in order. *)
Fixpoint transfers (t : list Event) : list TransferInput.t :=
  match t with
  | [] => []
  | EvTransfer input _ :: t' => input :: transfers t'
  | _ :: t' => transfers t'
  end.

(** The pages requested, in order. *)
Fixpoint pageRequests (t : list Event) : list SafeListUtxoOption.t :=
  match t with
  | [] => []
  | EvSafeListUtxos opt :: t' => opt :: pageRequests t'
  | _ :: t' => pageRequests t'
  end.

(** The transactions submitted for final acceptance, in order. *)
Fixpoint submitted (t : list Event) : list SafeTransactionRequestInput.t :=
  match t with
  | [] => []
  | EvSafeSubmitTransactionRequest input :: t' => input :: submitted t'
  | _ :: t' => submitted t'
  end.

(** The entries the asset loop of [migrateSafeAssets] walks: none when the
    map is empty, else the map's entries in the order of [range]. *)
Definition drainEntries {L Tx} (env : Env L Tx) (assets : gmap string (list SafeUtxo.t))
    : list (string * list SafeUtxo.t) :=
  if Z.of_nat (size assets) =? 0 then [] else rangeOrder env assets.

(** Calls that change the wallet, the ledger or the keystore file; opening a
    file, looking the receiver up, prompting and listing do not. *)
Definition mutating (ev : Event) : bool :=
  match ev with
  | EvOpenFile _ O_RDONLY | EvHttpGet _ | EvPrompt | EvReadAssets
  | EvSafeListUtxos _ | EvSafeReadAsset _ => false
  | _ => true
  end.

(** The sum of the numbers a list of decimals stands for. *)
Definition sumQ (amounts : list Decimal) : Q :=
  fold_right (fun d acc => (decimal.toQ d + acc)%Q) 0%Q amounts.

(** [emits Q m]: whatever [m] does, the trace it leaves is the trace it
    found followed by events that satisfy [Q]. *)
Definition emits {L A} (Q : list Event -> Prop) (m : M L A) : Prop :=
  forall w, exists ext, trace (m w).2 = trace w ++ ext /\ Q ext.

(** What the spend loop keeps true of the events it appends: every
    transaction built has the inputs handed to its builder and, as its only
    output, the sum of these inputs paid to the receiver. *)
Definition paysInFull (r : runner) (ext : list Event) : Prop :=
  map (fun tx => TransactionBuilder.Inputs tx.1) (madeTransactions ext) = builtGroups ext
  /\ Forall
       (fun tx =>
          tx.2 = [TransactionOutput.mk (mixin.RequireNewMixAddress [receiver r] 1)
                    (sumUtxos (TransactionBuilder.Inputs tx.1))])
       (madeTransactions ext).

(** Balances that are not zero, and balances above zero. *)
Definition nonZero (asset : Asset.t) : bool := negb (decimal.IsZero (Asset.Balance asset)).

(** What a legacy transfer moves: which asset, how much, to whom, tagged how. *)
Definition moved (t : TransferInput.t) : string * Decimal * string * string :=
  (TransferInput.AssetID t, TransferInput.Amount t, TransferInput.OpponentID t,
   TransferInput.Memo t).


(** The file at [path] begins with the JSON text of the record [k]. *)
Definition persisted {L Tx} (env : Env L Tx) (path : string) (k : Keystore.t)
    (fs : gmap string File) : Prop :=
  exists f rest, fs !! path = Some f /\ content f = jsonEncodeKeystore env k +:+ rest.

(** What a rotation leaves behind once the ledger has accepted the new
    secret: the shared record holds [newKey].  A phase that returns success
    has written it to the output path as its last two calls.  A phase that
    returns an error has failed in the save: at the open, and then the
    files are as they were, or at the write, and then the file at the
    output path holds the bytes of the new text taken before the error over
    what it held, and nothing else has changed. *)
Definition writeAfterMutate {L Tx} (env : Env L Tx) (r : runner) (w : World L)
    (newKey : Keystore.t) (res : outcome unit * World L) : Prop :=
  key res.2 = newKey
  /\ match res.1 with
     | Done _ =>
         persisted env (output r) newKey (files res.2)
         /\ exists t, trace res.2
                      = t ++ [EvOpenFile (output r) O_WRONLY;
                              EvWriteFile (output r) (jsonEncodeKeystore env newKey)]
     | Fail e =>
         (files res.2 = files w /\ exists e', e = "open keystore failed: " +:+ e')
         \/ (exists f n e',
               files w !! output r = Some f
               /\ e = "save keystore failed: " +:+ e'
               /\ files res.2
                  = <[output r :=
                        mkFile (perm f)
                          (writeAt0 (String.substring 0 n (jsonEncodeKeystore env newKey))
                             (content f))]> (files w))
     | Spin => False
     end.

(** An outcome that is not an error whose message begins with [c]. *)
Definition notStarting {A} (c : ascii) (o : outcome A) : Prop :=
  match o with
  | Fail (String c' _) => c' <> c
  | _ => True
  end.

(** *** The run as the specification words it

    The four phases as a state machine run strictly in order: a phase runs
    in the world the phase before it left, and only if that phase returned
    success; the first failure ends the run there, with the phase's context
    put before the error, in the world as the failing phase left it
    (nothing rolled back, nothing tried again, no later phase run). *)
Inductive phase : Type := DrainLegacy | RotatePin | ActivateSafe | DrainSafe.

Definition phaseOrder : list phase := [DrainLegacy; RotatePin; ActivateSafe; DrainSafe].

Definition phaseContext (p : phase) : string :=
  match p with
  | DrainLegacy => "migrate legacy assets failed: "
  | RotatePin => "update tip pin failed: "
  | ActivateSafe => "migrate safe failed: "
  | DrainSafe => "migrate safe assets failed: "
  end.

Definition runPhase {L Tx} (env : Env L Tx) (fuel : nat) (r : runner)
    (spendGroupCount : Z) (p : phase) : M L unit :=
  match p with
  | DrainLegacy => migrateLegacyAssets env r
  | RotatePin => updateTipPin env r
  | ActivateSafe => migrateToSafe env r
  | DrainSafe => migrateSafeAssets env fuel r spendGroupCount
  end.

Fixpoint failFast {L Tx} (env : Env L Tx) (fuel : nat) (r : runner)
    (spendGroupCount : Z) (phases : list phase) (w : World L) : outcome unit * World L :=
  match phases with
  | [] => (Done tt, w)
  | p :: later =>
      match runPhase env fuel r spendGroupCount p w with
      | (Done _, w') => failFast env fuel r spendGroupCount later w'
      | (Fail e, w') => (Fail (phaseContext p +:+ e), w')
      | (Spin, w') => (Spin, w')
      end
  end.

(** *** The ledger's listing

    The page a ledger holding the unspent outputs [unspent], in ascending
    order of sequence, answers to a listing request: the first [Limit]
    of the outputs whose sequence is at least [Offset]. *)
Definition listPage (unspent : list SafeUtxo.t) (opt : SafeListUtxoOption.t)
    : list SafeUtxo.t :=
  take (Z.to_nat (SafeListUtxoOption.Limit opt))
    (List.filter (fun u => SafeListUtxoOption.Offset opt <=? SafeUtxo.Sequence u) unspent).

(** The sequences are at least [lo], strictly increasing, and each has a
    successor that fits a [uint64]. *)
Fixpoint ascending (lo : Z) (unspent : list SafeUtxo.t) : bool :=
  match unspent with
  | [] => true
  | u :: rest =>
      (lo <=? SafeUtxo.Sequence u) && (SafeUtxo.Sequence u <? 2 ^ 64 - 1)
      && ascending (SafeUtxo.Sequence u + 1) rest
  end.

(** The outputs of [utxos] by asset, each asset's in the order of [utxos]:
    what the page loop builds when it is given all of them at once. *)
Definition groupByAsset (utxos : list SafeUtxo.t) : gmap string (list SafeUtxo.t) :=
  (collectPage utxos (initialOption, ∅)).2.

(** The cursor of a request stands just past the outputs [done] already
    met: at zero when there are none, else one past the sequence of the
    last. *)
Definition cursorAt (done : list SafeUtxo.t) (opt : SafeListUtxoOption.t) : Prop :=
  match last done with
  | None => SafeListUtxoOption.Offset opt = 0
  | Some x => SafeListUtxoOption.Offset opt = SafeUtxo.Sequence x + 1
  end.

(** What an enumeration of the outputs [rest] answered page by page leaves:
    the requests made, the pages they were answered, and the map built. *)
Definition enumerated (unspent rest : list SafeUtxo.t) (pageSize : Z)
    (ext : list Event) : Prop :=
  ext = map EvSafeListUtxos (pageRequests ext)
  /\ len (pageRequests ext) = ceilDiv (len rest) pageSize + 1
  /\ concat (map (listPage unspent) (pageRequests ext)) = rest
  /\ exists opts final,
       pageRequests ext = opts ++ [final]
       /\ listPage unspent final = []
       /\ Forall (fun opt => listPage unspent opt <> []) opts.


(** ** A concrete environment

    A small world to run the program in: a ledger that holds fixed legacy
    balances and fixed unspent outputs and accepts every request, a JSON
    codec for keystore records, an operating system that decides by the
    owner's permission bits, and a lookup that answers a fixed user. *)
Module Fixture.

Definition dquote : ascii := ascii_of_nat 34.
Definition backslash : ascii := ascii_of_nat 92.
Definition newline : ascii := ascii_of_nat 10.

(** A JSON string literal: the quote and the backslash are escaped. *)
Fixpoint escape (s : string) : string :=
  match s with
  | EmptyString => EmptyString
  | String c rest =>
      if (Ascii.eqb c dquote || Ascii.eqb c backslash)%bool
      then String backslash (String c (escape rest))
      else String c (escape rest)
  end.

Definition quoted (s : string) : string :=
  String dquote (escape s) +:+ String dquote EmptyString.

Definition member (name value : string) : string :=
  String newline "  " +:+ quoted name +:+ ": " +:+ quoted value.

(** The encoder's text for a record: an indented object followed by a
    newline; an empty spend key is left out. *)
Definition encodeKeystore (k : Keystore.t) : string :=
  "{" +:+ member "client_id" (mixin.ClientID (Keystore.base k))
  +:+ "," +:+ member "session_id" (mixin.SessionID (Keystore.base k))
  +:+ "," +:+ member "private_key" (mixin.PrivateKey (Keystore.base k))
  +:+ "," +:+ member "pin_token" (mixin.PinToken (Keystore.base k))
  +:+ "," +:+ member "scope" (mixin.Scope (Keystore.base k))
  +:+ "," +:+ member "pin" (Keystore.Pin k)
  +:+ (if String.eqb (Keystore.SpendKey k) "" then ""
       else "," +:+ member "spend_key" (Keystore.SpendKey k))
  +:+ String newline ("}" +:+ String newline EmptyString).

(** Where the decoder is in an object whose members are strings. *)
Inductive state : Type :=
| BeforeObject
| BeforeKey
| InKey (acc : string) (escaped : bool)
| AfterKey (name : string)
| BeforeValue (name : string)
| InValue (name acc : string) (escaped : bool)
| AfterValue.

Definition isSpace (c : ascii) : bool :=
  (Ascii.eqb c " " || Ascii.eqb c newline || Ascii.eqb c (ascii_of_nat 9)
   || Ascii.eqb c (ascii_of_nat 13))%bool.

Definition snoc (s : string) (c : ascii) : string := s +:+ String c EmptyString.

Definition setField (k : Keystore.t) (name value : string) : Keystore.t :=
  let b := Keystore.base k in
  if String.eqb name "client_id" then
    Keystore.mk (mixin.mkKeystore value (mixin.SessionID b) (mixin.PrivateKey b)
                   (mixin.PinToken b) (mixin.Scope b)) (Keystore.Pin k) (Keystore.SpendKey k)
  else if String.eqb name "session_id" then
    Keystore.mk (mixin.mkKeystore (mixin.ClientID b) value (mixin.PrivateKey b)
                   (mixin.PinToken b) (mixin.Scope b)) (Keystore.Pin k) (Keystore.SpendKey k)
  else if String.eqb name "private_key" then
    Keystore.mk (mixin.mkKeystore (mixin.ClientID b) (mixin.SessionID b) value
                   (mixin.PinToken b) (mixin.Scope b)) (Keystore.Pin k) (Keystore.SpendKey k)
  else if String.eqb name "pin_token" then
    Keystore.mk (mixin.mkKeystore (mixin.ClientID b) (mixin.SessionID b) (mixin.PrivateKey b)
                   value (mixin.Scope b)) (Keystore.Pin k) (Keystore.SpendKey k)
  else if String.eqb name "scope" then
    Keystore.mk (mixin.mkKeystore (mixin.ClientID b) (mixin.SessionID b) (mixin.PrivateKey b)
                   (mixin.PinToken b) value) (Keystore.Pin k) (Keystore.SpendKey k)
  else if String.eqb name "pin" then Keystore.setPin k value
  else if String.eqb name "spend_key" then Keystore.setSpendKey k value
  else k.

(** The decoder reads the first object of the input into the record and
    looks no further: what follows the closing brace is not read. *)
Fixpoint decodeFrom (st : state) (k : Keystore.t) (input : string) : result Keystore.t :=
  match input with
  | EmptyString => Err "unexpected end of JSON input"
  | String c rest =>
      match st with
      | BeforeObject =>
          if isSpace c then decodeFrom BeforeObject k rest
          else if Ascii.eqb c "{" then decodeFrom BeforeKey k rest
          else Err "invalid character looking for beginning of value"
      | BeforeKey =>
          if isSpace c then decodeFrom BeforeKey k rest
          else if Ascii.eqb c dquote then decodeFrom (InKey "" false) k rest
          else if Ascii.eqb c "}" then Ok k
          else Err "invalid character looking for beginning of object key string"
      | InKey acc true => decodeFrom (InKey (snoc acc c) false) k rest
      | InKey acc false =>
          if Ascii.eqb c backslash then decodeFrom (InKey acc true) k rest
          else if Ascii.eqb c dquote then decodeFrom (AfterKey acc) k rest
          else decodeFrom (InKey (snoc acc c) false) k rest
      | AfterKey name =>
          if isSpace c then decodeFrom (AfterKey name) k rest
          else if Ascii.eqb c ":" then decodeFrom (BeforeValue name) k rest
          else Err "invalid character after object key"
      | BeforeValue name =>
          if isSpace c then decodeFrom (BeforeValue name) k rest
          else if Ascii.eqb c dquote then decodeFrom (InValue name "" false) k rest
          else Err "cannot unmarshal into Go struct field of type string"
      | InValue name acc true => decodeFrom (InValue name (snoc acc c) false) k rest
      | InValue name acc false =>
          if Ascii.eqb c backslash then decodeFrom (InValue name acc true) k rest
          else if Ascii.eqb c dquote then decodeFrom AfterValue (setField k name acc) rest
          else decodeFrom (InValue name (snoc acc c) false) k rest
      | AfterValue =>
          if isSpace c then decodeFrom AfterValue k rest
          else if Ascii.eqb c "," then decodeFrom BeforeKey k rest
          else if Ascii.eqb c "}" then Ok k
          else Err "invalid character after object key:value pair"
      end
  end.

Definition decodeKeystore (input : string) : result Keystore.t :=
  decodeFrom BeforeObject Keystore.zero input.

(** Decimal digits as a number; anything else converts to zero. *)
Fixpoint digits (acc : Z) (s : string) : option Z :=
  match s with
  | EmptyString => Some acc
  | String c rest =>
      let n := Z.of_N (N_of_ascii c) in
      if (48 <=? n) && (n <=? 57) then digits (10 * acc + (n - 48)) rest else None
  end.

Definition toInt64 (s : string) : Z :=
  match s with
  | EmptyString => 0
  | _ => default 0 (digits 0 s)
  end.

Definition ownerPermits (flag : OpenFlag) (perm : N) : bool :=
  match flag with
  | O_RDONLY => N.testbit perm 8
  | O_WRONLY => N.testbit perm 7
  end.

Definition sampleKey : mixinnet.Key :=
  mixinnet.mkKey (replicate 32 (ascii_of_nat 171)) eq_refl.

(** The environment: [legacy] are the balances the ledger lists,
    [unspent] its unspent outputs, [user] the user the lookup answers and
    [answer] what is typed at the prompt. *)
Definition env (legacy : list Asset.t) (unspent : list SafeUtxo.t) (user : User.t)
    (answer : string) : Env unit unit :=
  {| permits := ownerPermits;
     fileWrite := fun _ _ l => (None, l);
     jsonEncodeKeystore := encodeKeystore;
     jsonDecodeKeystore := decodeKeystore;
     jsonDecodeUser := fun _ => Ok user;
     httpGet := fun _ l => (Ok "{}", l);
     promptRun := fun l => (Ok answer, l);
     ToInt64 := toInt64;
     decimalString := fun _ => "?";
     NewFromKeystore := fun ks => Ok (Client.mk (mixin.ClientID ks));
     RandomTraceID := fun l => ("trace", l);
     GenerateKey := fun l => (sampleKey, l);
     Public := fun k => k;
     keyFromSeed := fun _ => sampleKey;
     newHint := fun _ l => ("hint", l);
     Dump := fun _ => Ok "raw";
     SafeSignTransaction := fun tx _ _ _ => Ok tx;
     ReadAssets := fun l => (Ok legacy, l);
     Transfer := fun _ _ l => (Ok (Snapshot.mk "snapshot"), l);
     ModifyPin := fun _ _ l => (Ok tt, l);
     SafeMigrate := fun _ _ l => (Ok tt, l);
     SafeListUtxos := fun opt l => (Ok (listPage unspent opt), l);
     SafeReadAsset := fun _ l => (Ok (SafeAsset.mk "SYM"), l);
     MakeTransaction := fun _ _ l => (Ok tt, l);
     SafeCreateTransactionRequest :=
       fun input l =>
         (Ok (SafeTransactionRequest.mk (SafeTransactionRequestInput.RequestID input) []), l);
     SafeSubmitTransactionRequest :=
       fun input l =>
         (Ok (SafeTransactionRequest.mk (SafeTransactionRequestInput.RequestID input) []), l);
     rangeOrder := map_to_list |}.

(** A legacy keystore before any rotation, and the same after both. *)
Definition legacyKeystore : Keystore.t :=
  Keystore.mk (mixin.mkKeystore "client-1" "session-1" "private" "token" "FULL") "123456" "".

Definition rotatedKeystore : Keystore.t :=
  Keystore.mk (mixin.mkKeystore "client-1" "session-1" "private" "token" "FULL")
    (mixinnet.KeyString sampleKey) (mixinnet.KeyString sampleKey).

Definition keystorePath : string := "keystore.json".

(** The world at start: the keystore file holds [k] followed by [tail],
    left over from a longer text written there before. *)
Definition world (k : Keystore.t) (tail : string) : World unit :=
  mkWorld tt {[ keystorePath := mkFile 384 (encodeKeystore k +:+ tail) ]} k [].

Definition theRunner : runner := mkRunner (Client.mk "client-1") keystorePath "receiver-1".

Definition utxo (n : nat) : SafeUtxo.t :=
  SafeUtxo.mk "output" "asset-1" (decimal.mkDecimal 1 (-8)) (Z.of_nat n).

Definition utxos (n : nat) : list SafeUtxo.t := map utxo (seq 1 n).

Definition receiverUser : User.t := User.mk "receiver-1" "7000" "Receiver".
Definition strangerUser : User.t := User.mk "receiver-2" "0" "Not a messenger user".

(** Legacy balances: nothing of asset A, 12.5 of asset B. *)
Definition assetA : Asset.t := Asset.mk "asset-a" "A" (decimal.mkDecimal 0 0).
Definition assetB : Asset.t := Asset.mk "asset-b" "B" (decimal.mkDecimal 125 (-1)).
Definition balances : list Asset.t := [assetA; assetB].

(** A ledger with the balances above and [n] unspent outputs. *)
Definition ledger (n : nat) : Env unit unit := env balances (utxos n) receiverUser "y".

(** A world in which the record in memory is the legacy keystore and the
    file at the output path still holds the longer text of another record. *)
Definition staleWorld : World unit :=
  mkWorld tt {[ keystorePath := mkFile 384 (encodeKeystore rotatedKeystore) ]}
    legacyKeystore [].

(** The enumeration of a ledger with one unspent output, at the program's
    page size. *)
Definition enumerateOne : outcome (gmap string (list SafeUtxo.t)) * World unit :=
  listLoop (ledger 1) 3 initialOption ∅ (world legacyKeystore "").

End Fixture.

(** *** Relations between the world found and the world left *)

(** [keeps R m]: whatever [m] does, the world it leaves is related by [R]
    to the world it found. *)
Definition keeps {L A} (R : World L -> World L -> Prop) (m : M L A) : Prop :=
  forall w, R w (m w).2.

(** Neither the files nor the keystore record have changed. *)
Definition untouched {L} (w w' : World L) : Prop :=
  files w' = files w /\ key w' = key w.

(** No file but the one at [path] has changed, and no file was made,
    removed or given other permission bits. *)
Definition onlyContentAt {L} (path : string) (w w' : World L) : Prop :=
  (forall p, p <> path -> files w' !! p = files w !! p)
  /\ (forall p, perm <$> files w' !! p = perm <$> files w !! p).

(** [never c m]: [m] returns no error whose message begins with [c]. *)
Definition never {L A} (c : ascii) (m : M L A) : Prop :=
  forall w, notStarting c (m w).1.

(** The PINs the legacy transfers were authorised with, in order. *)
Fixpoint transferPins (t : list Event) : list string :=
  match t with
  | [] => []
  | EvTransfer _ pin :: t' => pin :: transferPins t'
  | _ :: t' => transferPins t'
  end.

(** The four calls that settle one spend group, in the order made. *)
Definition settlement (b : TransactionBuilder.t) (output : TransactionOutput.t)
    (raw : string) (req : SafeTransactionRequest.t) (signedRaw : string) : list Event :=
  [EvNewBuilder (TransactionBuilder.Inputs b);
   EvMakeTransaction b [output];
   EvSafeCreateTransactionRequest
     (SafeTransactionRequestInput.mk (TransactionBuilder.Hint b) raw);
   EvSafeSubmitTransactionRequest
     (SafeTransactionRequestInput.mk (SafeTransactionRequest.RequestID req) signedRaw)].

(** A listing request, as an event. *)
Definition isListing (ev : Event) : Prop := exists opt, ev = EvSafeListUtxos opt.

(** ** Further cases to evaluate *)

Module Cases.

(** A ledger like [e] that refuses every transfer, every change of PIN
    and every activation of safe custody. *)
Definition refusing (e : Env unit unit) : Env unit unit :=
  {| permits := permits e;
     fileWrite := fileWrite e;
     jsonEncodeKeystore := jsonEncodeKeystore e;
     jsonDecodeKeystore := jsonDecodeKeystore e;
     jsonDecodeUser := jsonDecodeUser e;
     httpGet := httpGet e;
     promptRun := promptRun e;
     ToInt64 := ToInt64 e;
     decimalString := decimalString e;
     NewFromKeystore := NewFromKeystore e;
     RandomTraceID := RandomTraceID e;
     GenerateKey := GenerateKey e;
     Public := Public e;
     keyFromSeed := keyFromSeed e;
     newHint := newHint e;
     Dump := Dump e;
     SafeSignTransaction := SafeSignTransaction e;
     ReadAssets := ReadAssets e;
     Transfer := fun _ _ l => (Err "insufficient balance", l);
     ModifyPin := fun _ _ l => (Err "pin incorrect", l);
     SafeMigrate := fun _ _ l => (Err "forbidden", l);
     SafeListUtxos := SafeListUtxos e;
     SafeReadAsset := SafeReadAsset e;
     MakeTransaction := MakeTransaction e;
     SafeCreateTransactionRequest := SafeCreateTransactionRequest e;
     SafeSubmitTransactionRequest := SafeSubmitTransactionRequest e;
     rangeOrder := rangeOrder e |}.

(** The ledger of a wallet whose migration is complete: the one balance
    listed is zero and no output is unspent. *)
Definition settled : Env unit unit :=
  Fixture.env [Fixture.assetA] [] Fixture.receiverUser "y".

(** A world without any file. *)
Definition noFiles : World unit := mkWorld tt ∅ Keystore.zero [].


(** A system whose writes fail after [n] bytes, its disk being full. *)
Definition diskFull (n : nat) (e : Env unit unit) : Env unit unit :=
  {| permits := permits e;
     fileWrite := fun path _ l =>
       (Some (n, "write " +:+ path +:+ ": no space left on device"), l);
     jsonEncodeKeystore := jsonEncodeKeystore e;
     jsonDecodeKeystore := jsonDecodeKeystore e;
     jsonDecodeUser := jsonDecodeUser e;
     httpGet := httpGet e;
     promptRun := promptRun e;
     ToInt64 := ToInt64 e;
     decimalString := decimalString e;
     NewFromKeystore := NewFromKeystore e;
     RandomTraceID := RandomTraceID e;
     GenerateKey := GenerateKey e;
     Public := Public e;
     keyFromSeed := keyFromSeed e;
     newHint := newHint e;
     Dump := Dump e;
     SafeSignTransaction := SafeSignTransaction e;
     ReadAssets := ReadAssets e;
     Transfer := Transfer e;
     ModifyPin := ModifyPin e;
     SafeMigrate := SafeMigrate e;
     SafeListUtxos := SafeListUtxos e;
     SafeReadAsset := SafeReadAsset e;
     MakeTransaction := MakeTransaction e;
     SafeCreateTransactionRequest := SafeCreateTransactionRequest e;
     SafeSubmitTransactionRequest := SafeSubmitTransactionRequest e;
     rangeOrder := rangeOrder e |}.

(** An output of 2000 units, written [2e3]. *)
Definition coarse : SafeUtxo.t :=
  SafeUtxo.mk "output-coarse" "asset-1" (decimal.mkDecimal 2 3) 9.

End Cases.

(* ===================================================================== *)
(** * Properties *)
(* ===================================================================== *)

(** ** Batching one asset's outputs into spend groups *)

Section Batching.

Context {A : Type}.
Implicit Types (utxos : list A) (groups : list (list A)).

Lemma len_nonneg utxos : 0 <= len utxos.
Proof. unfold len. lia. Qed.

Lemma slice_length utxos lo hi :
  0 <= lo -> lo <= hi -> hi <= len utxos ->
  len (slice utxos lo hi) = hi - lo.
Proof.
  intros Hlo Hhi Hlen. unfold slice, len in *.
  rewrite length_take, length_drop. lia.
Qed.

Lemma slice_drop utxos lo hi :
  0 <= lo -> lo <= hi ->
  slice utxos lo hi ++ drop (Z.to_nat hi) utxos = drop (Z.to_nat lo) utxos.
Proof.
  intros Hlo Hhi. unfold slice.
  replace (Z.to_nat hi) with (Z.to_nat lo + Z.to_nat (hi - lo))%nat by lia.
  rewrite <- drop_drop. apply take_drop.
Qed.

Lemma ceilDiv_step r d :
  0 < d -> 0 < r -> ceilDiv r d = 1 + ceilDiv (Z.max 0 (r - d)) d.
Proof.
  intros Hd Hr. unfold ceilDiv.
  destruct (Z.le_gt_cases r d) as [Hle | Hgt].
  - rewrite Z.max_l by lia.
    replace (0 + d - 1) with (d - 1) by lia.
    rewrite (Z.div_small (d - 1) d) by lia.
    replace (r + d - 1) with ((r - 1) + 1 * d) by lia.
    rewrite Z.div_add by lia. rewrite Z.div_small by lia. lia.
  - rewrite Z.max_r by lia.
    replace (r + d - 1) with ((r - d + d - 1) + 1 * d) by lia.
    rewrite Z.div_add by lia. lia.
Qed.

Lemma ceilDiv_zero d : 0 < d -> ceilDiv 0 d = 0.
Proof. intros Hd. unfold ceilDiv. apply Z.div_small. lia. Qed.

(** The loop, started at [idx] with enough fuel, ends; its slices put
    together are the outputs from [idx] on, and slice [i] has
    [min(limit, N - idx - i * limit)] elements. *)
Lemma spendGroups_from limit utxos fuel idx :
  0 < limit -> 0 <= idx -> Z.max 0 (len utxos - idx) < Z.of_nat fuel ->
  exists groups,
    spendGroups fuel limit utxos idx = Some groups
    /\ concat groups = drop (Z.to_nat idx) utxos
    /\ len groups = ceilDiv (Z.max 0 (len utxos - idx)) limit
    /\ (forall i g, groups !! i = Some g ->
          len g = Z.min limit (len utxos - idx - Z.of_nat i * limit)).
Proof.
  intros Hlimit. revert idx.
  induction fuel as [| fuel IH]; intros idx Hidx Hfuel.
  - lia.
  - cbn [spendGroups]. destruct (Z.ltb_spec idx (len utxos)) as [Hlt | Hge].
    + destruct (IH (idx + limit)) as (groups & Hrun & Hcat & Hlen & Hsz); [lia | lia |].
      rewrite Hrun. eexists. split; [reflexivity |].
      assert (Hslice : len (slice utxos idx (Z.min (len utxos) (idx + limit)))
                       = Z.min limit (len utxos - idx)).
      { rewrite slice_length; lia. }
      split; [| split].
      * cbn [concat]. rewrite Hcat.
        destruct (Z.le_gt_cases (len utxos) (idx + limit)) as [Hle | Hgt].
        -- rewrite Z.min_l by lia. rewrite <- (slice_drop utxos idx (len utxos)) by lia.
           f_equal. unfold len. rewrite Nat2Z.id.
           rewrite !drop_ge; [reflexivity | lia | unfold len in *; lia].
        -- rewrite Z.min_r by lia. apply slice_drop; lia.
      * unfold len in *. cbn [length]. rewrite Nat2Z.inj_succ, Hlen.
        rewrite (ceilDiv_step (Z.max 0 (Z.of_nat (length utxos) - idx)) limit) by lia.
        replace (Z.max 0 (Z.max 0 (Z.of_nat (length utxos) - idx) - limit))
          with (Z.max 0 (Z.of_nat (length utxos) - (idx + limit))) by lia.
        lia.
      * intros [| i] g Hg; cbn in Hg.
        -- injection Hg as <-. rewrite Hslice. lia.
        -- rewrite (Hsz i g Hg). lia.
    + exists []. split; [reflexivity |]. split; [| split].
      * cbn. rewrite drop_ge; [reflexivity | unfold len in *; lia].
      * rewrite Z.max_l by lia. rewrite ceilDiv_zero by lia. reflexivity.
      * intros i g Hg. rewrite lookup_nil in Hg. discriminate.
Qed.

(** Slices of a positive step, once the loop has ended, put together are
    the outputs from the index on. *)
Lemma spendGroups_concat limit utxos fuel idx groups :
  0 < limit -> 0 <= idx ->
  spendGroups fuel limit utxos idx = Some groups ->
  concat groups = drop (Z.to_nat idx) utxos.
Proof.
  intros Hlimit. revert idx groups.
  induction fuel as [| fuel IH]; intros idx groups Hidx Hrun; [discriminate |].
  cbn [spendGroups] in Hrun. destruct (Z.ltb_spec idx (len utxos)) as [Hlt | Hge].
  - destruct (spendGroups fuel limit utxos (idx + limit)) as [rest |] eqn:Hrest;
      [| discriminate]. injection Hrun as <-.
    cbn [concat]. rewrite (IH (idx + limit) rest) by (lia || assumption).
    destruct (Z.le_gt_cases (len utxos) (idx + limit)) as [Hle | Hgt].
    + rewrite Z.min_l by lia. rewrite <- (slice_drop utxos idx (len utxos)) by lia.
      f_equal. unfold len. rewrite Nat2Z.id.
      rewrite !drop_ge; [reflexivity | lia | unfold len in *; lia].
    + rewrite Z.min_r by lia. apply slice_drop; lia.
  - injection Hrun as <-. cbn. rewrite drop_ge; [reflexivity | unfold len in *; lia].
Qed.

End Batching.

(** ** Reading traces piecewise *)

Lemma builtGroups_app t1 t2 : builtGroups (t1 ++ t2) = builtGroups t1 ++ builtGroups t2.
Proof.
  induction t1 as [| ev t1 IH]; [reflexivity |].
  destruct ev; cbn; rewrite ?IH; reflexivity.
Qed.

Lemma madeTransactions_app t1 t2 :
  madeTransactions (t1 ++ t2) = madeTransactions t1 ++ madeTransactions t2.
Proof.
  induction t1 as [| ev t1 IH]; [reflexivity |].
  destruct ev; cbn; rewrite ?IH; reflexivity.
Qed.

Lemma transfers_app t1 t2 : transfers (t1 ++ t2) = transfers t1 ++ transfers t2.
Proof.
  induction t1 as [| ev t1 IH]; [reflexivity |].
  destruct ev; cbn; rewrite ?IH; reflexivity.
Qed.

Lemma pageRequests_app t1 t2 : pageRequests (t1 ++ t2) = pageRequests t1 ++ pageRequests t2.
Proof.
  induction t1 as [| ev t1 IH]; [reflexivity |].
  destruct ev; cbn; rewrite ?IH; reflexivity.
Qed.

(** Stepping through a straight-line piece of the program by cases on what
    the environment answers. *)
Ltac unfold_go :=
  unfold bind, wrap, call, draw, lift, ret, fail, spin, getKey, putKey,
    openFile, writeFile in *.

Ltac is_atom x :=
  lazymatch x with
  | context [let '(_, _) := _ in _] => fail
  | context [match _ with Ok _ => _ | Err _ => _ end] => fail
  | context [match _ with Some _ => _ | None => _ end] => fail
  | context [match _ with Done _ => _ | Fail _ => _ | Spin => _ end] => fail
  | context [if _ then _ else _] => fail
  | _ => idtac
  end.

Ltac case_env :=
  repeat (cbn [fst snd trace files key outside] in *;
    match goal with
    | |- context [let '(_, _) := ?x in _] => is_atom x; destruct x eqn:?
    | |- context [match ?x with Ok _ => _ | Err _ => _ end] => is_atom x; destruct x eqn:?
    | |- context [match ?x with Some _ => _ | None => _ end] => is_atom x; destruct x eqn:?
    | |- context [match ?x with Done _ => _ | Fail _ => _ | Spin => _ end] =>
        is_atom x; destruct x eqn:?
    | |- context [if ?b then _ else _] => is_atom b; destruct b eqn:?
    end); cbn [fst snd trace files key outside] in *.

Ltac trace_ext :=
  eexists; split; [rewrite <- ?app_assoc; cbn [app]; reflexivity |].

Section SpendLoop.

Context {L Tx : Type} (env : Env L Tx).

(** Settling a group hands exactly that group to a builder. *)
Lemma settle_built r spendKey spends w :
  exists ext, trace (settle env r spendKey spends w).2 = trace w ++ ext
              /\ builtGroups ext = [spends].
Proof.
  unfold settle. unfold NewSafeTransactionBuilder. unfold_go. case_env; trace_ext; reflexivity.
Qed.

(** A spend loop that returns has handed the slices of [spendGroups] to
    builders, one after the other. *)
Lemma spendLoop_built r limit spendKey utxos fuel idx w w' :
  spendLoop env fuel r limit spendKey utxos idx w = (Done tt, w') ->
  exists groups,
    spendGroups fuel limit utxos idx = Some groups
    /\ builtGroups (trace w') = builtGroups (trace w) ++ groups.
Proof.
  revert idx w. induction fuel as [| fuel IH]; intros idx w Hrun.
  - discriminate.
  - cbn [spendLoop spendGroups] in *. destruct (idx <? len utxos).
    + unfold bind in Hrun.
      destruct (settle_built r spendKey
                  (slice utxos idx (Z.min (len utxos) (idx + limit))) w)
        as (ext & Ht & Hb).
      destruct (settle env r spendKey _ w) as [[[] | e |] w1]; try discriminate.
      apply IH in Hrun as (groups & -> & Hg). cbn in Ht.
      eexists. split; [reflexivity |].
      rewrite Hg, Ht, builtGroups_app, Hb, <- app_assoc. reflexivity.
    + injection Hrun as <-. exists []. rewrite app_nil_r. auto.
Qed.

Lemma settle_ends r spendKey spends w : (settle env r spendKey spends w).1 <> Spin.
Proof.
  unfold settle. unfold NewSafeTransactionBuilder. unfold_go. case_env; discriminate.
Qed.

(** With a positive step and more fuel than outputs left, the spend loop
    returns or fails; it does not spin. *)
Lemma spendLoop_ends r limit spendKey utxos fuel idx w :
  0 < limit -> Z.max 0 (len utxos - idx) < Z.of_nat fuel ->
  (spendLoop env fuel r limit spendKey utxos idx w).1 <> Spin.
Proof.
  intros Hlimit. revert idx w. induction fuel as [| fuel IH]; intros idx w Hfuel; [lia |].
  cbn [spendLoop]. destruct (Z.ltb_spec idx (len utxos)); [| discriminate].
  unfold bind.
  pose proof (settle_ends r spendKey
                (slice utxos idx (Z.min (len utxos) (idx + limit))) w) as Hs.
  destruct (settle env r spendKey _ w) as [[[] | e |] w1]; cbn [fst] in *;
    [apply IH; lia | discriminate | congruence].
Qed.

(** Whatever the ledger answers, the groups the spend loop hands to builders
    are the first [n] slices of [spendGroups]: all of them when it returns,
    at least one when it fails. *)
Lemma spendLoop_prefix r limit spendKey utxos fuel idx w groups :
  spendGroups fuel limit utxos idx = Some groups ->
  exists n,
    builtGroups (trace (spendLoop env fuel r limit spendKey utxos idx w).2)
    = builtGroups (trace w) ++ take n groups
    /\ (n <= length groups)%nat
    /\ ((spendLoop env fuel r limit spendKey utxos idx w).1 = Done tt -> n = length groups)
    /\ (forall e, (spendLoop env fuel r limit spendKey utxos idx w).1 = Fail e ->
                  (1 <= n)%nat)
    /\ (spendLoop env fuel r limit spendKey utxos idx w).1 <> Spin.
Proof.
  revert idx w groups. induction fuel as [| fuel IH]; intros idx w groups Hg; [discriminate |].
  cbn [spendGroups spendLoop] in *. destruct (idx <? len utxos).
  - destruct (spendGroups fuel limit utxos (idx + limit)) as [rest |] eqn:Hrest;
      [| discriminate]. injection Hg as <-.
    unfold bind.
    destruct (settle_built r spendKey
                (slice utxos idx (Z.min (len utxos) (idx + limit))) w) as (ext & Ht & Hb).
    pose proof (settle_ends r spendKey
                  (slice utxos idx (Z.min (len utxos) (idx + limit))) w) as Hends.
    destruct (settle env r spendKey _ w) as [[[] | e |] w1]; cbn [fst snd] in *.
    + destruct (IH (idx + limit) w1 rest Hrest) as (n & Hn & Hle & Hdone & Hfail & Hspin).
      exists (S n). rewrite Hn, Ht, builtGroups_app, Hb, <- app_assoc. cbn [take app length].
      split; [reflexivity |]. split; [lia |]. split; [intros H; f_equal; auto |].
      split; [intros; lia | exact Hspin].
    + exists 1%nat. rewrite Ht, builtGroups_app, Hb. cbn [take length]. rewrite take_0.
      split; [reflexivity |]. split; [lia |]. split; [discriminate |].
      split; [intros; lia | discriminate].
    + congruence.
  - injection Hg as <-. exists 0%nat. cbn. rewrite app_nil_r.
    split; [reflexivity |]. split; [lia |]. split; [reflexivity |].
    split; [discriminate | discriminate].
Qed.

End SpendLoop.

(** ** C1: the spend groups of one asset *)

(** C1.  For a group limit between 1 and 256 and any sequence of [N]
    outputs of one asset, the spend loop ends and takes exactly
    [ceil(N / limit)] groups (none when [N = 0]); every group is non-empty
    and has at most [limit] outputs; every group but the last has exactly
    [limit] outputs and the last holds the remainder; the groups put
    together in the order produced are the original sequence.  These are
    the groups of the program's loop: a spend loop that returns has handed
    exactly these groups, in this order, to the transaction builder; and
    whatever the ledger answers, the spend loop given one unit of fuel more
    than there are outputs returns or fails, and the groups it has handed
    to the builder are the first [n] of these groups in this order, all of
    them when it returns success and at least one when it fails. *)
Theorem C1_spend_groups (utxos : list SafeUtxo.t) (limit : Z) :
  1 <= limit <= 256 ->
  exists groups,
    spendGroups (S (length utxos)) limit utxos 0 = Some groups
    /\ len groups = ceilDiv (len utxos) limit
    /\ (utxos = [] -> groups = [])
    /\ Forall (fun g => 1 <= len g <= limit) groups
    /\ (forall i g, groups !! i = Some g ->
          len g = if Z.of_nat i + 1 <? len groups then limit
                  else len utxos - (len groups - 1) * limit)
    /\ concat groups = utxos
    /\ (forall L Tx (env : Env L Tx) fuel r spendKey w w',
          spendLoop env fuel r limit spendKey utxos 0 w = (Done tt, w') ->
          builtGroups (trace w') = builtGroups (trace w) ++ groups)
    /\ (forall L Tx (env : Env L Tx) r spendKey w,
          exists n,
            builtGroups
              (trace (spendLoop env (S (length utxos)) r limit spendKey utxos 0 w).2)
            = builtGroups (trace w) ++ take n groups
            /\ (n <= length groups)%nat
            /\ ((spendLoop env (S (length utxos)) r limit spendKey utxos 0 w).1 = Done tt ->
                n = length groups)
            /\ (forall e,
                  (spendLoop env (S (length utxos)) r limit spendKey utxos 0 w).1 = Fail e ->
                  (1 <= n)%nat)
            /\ (spendLoop env (S (length utxos)) r limit spendKey utxos 0 w).1 <> Spin).
Proof.
  intros [Hlo Hhi].
  pose proof (len_nonneg utxos) as HN.
  destruct (spendGroups_from limit utxos (S (length utxos)) 0)
    as (groups & Hrun & Hcat & Hlen & Hsz); [lia | lia | unfold len; lia |].
  rewrite Z.max_r in Hlen by lia. rewrite Z.sub_0_r in Hlen.
  assert (Hk : limit * len groups <= len utxos + limit - 1
               /\ len utxos + limit - 1 < limit * len groups + limit).
  { rewrite Hlen. unfold ceilDiv.
    pose proof (Z.div_mod (len utxos + limit - 1) limit ltac:(lia)).
    pose proof (Z.mod_pos_bound (len utxos + limit - 1) limit ltac:(lia)). lia. }
  assert (Hidx : forall i g, groups !! i = Some g -> Z.of_nat i + 1 <= len groups).
  { intros i g Hg. apply lookup_lt_Some in Hg. unfold len. lia. }
  exists groups.
  split; [exact Hrun |]. split; [exact Hlen |].
  split; [| split; [| split; [| split; [| split]]]].
  - intros ->. destruct groups as [| g groups']; [reflexivity |].
    unfold len in Hlen. cbn in Hlen. rewrite ceilDiv_zero in Hlen; lia.
  - rewrite Forall_lookup. intros i g Hg.
    pose proof (Hidx i g Hg). rewrite (Hsz i g Hg). nia.
  - intros i g Hg. pose proof (Hidx i g Hg). rewrite (Hsz i g Hg).
    destruct (Z.ltb_spec (Z.of_nat i + 1) (len groups)); nia.
  - rewrite Hcat. reflexivity.
  - intros L Tx env fuel r spendKey w w' Hloop.
    destruct (spendLoop_built env r limit spendKey utxos fuel 0 w w' Hloop)
      as (groups' & Hrun' & Hbuilt).
    assert (groups' = groups) as ->; [| assumption].
    clear - Hrun Hrun'. revert Hrun Hrun'. generalize 0 at 1 2.
    generalize (S (length utxos)) as fuel'.
    revert groups groups'.
    induction fuel as [| fuel IH]; intros groups groups' fuel' idx H1 H2; [discriminate |].
    destruct fuel' as [| fuel']; [discriminate |].
    cbn [spendGroups] in *. destruct (idx <? len utxos).
    + destruct (spendGroups fuel' limit utxos (idx + limit)) as [g1 |] eqn:E1; [| discriminate].
      destruct (spendGroups fuel limit utxos (idx + limit)) as [g2 |] eqn:E2; [| discriminate].
      injection H1 as <-. injection H2 as <-. f_equal. eapply IH; eauto.
    + congruence.
  - intros L Tx env r spendKey w.
    apply (spendLoop_prefix env r limit spendKey utxos (S (length utxos)) 0 w groups Hrun).
Qed.

(** ** Decimal sums are exact *)

Section DecimalSum.

Import decimal.
Local Open Scope Q_scope.

Lemma scale_up v de e :
  (0 <= de)%Z -> inject_Z (v * 10 ^ de) * 10 ^ e == inject_Z v * 10 ^ (de + e).
Proof.
  intros Hde. rewrite inject_Z_mult, Zpower_Qpower by lia.
  rewrite (Qpower_plus 10 de e) by discriminate.
  change (inject_Z 10) with 10. ring.
Qed.

(** Going down to a smaller exponent keeps the number. *)
Lemma toQ_rescale_down d e : (e <= exp d)%Z -> toQ (rescale d e) == toQ d.
Proof.
  intros He. unfold rescale. destruct (Z.eqb_spec (exp d) e) as [_ | Hne]; [reflexivity |].
  destruct (Z.ltb_spec (exp d) e) as [Hlt | _]; [lia |].
  unfold toQ. cbn [value exp].
  rewrite Z.abs_neq by lia.
  rewrite scale_up by lia.
  replace (- (e - exp d) + e)%Z with (exp d) by lia. reflexivity.
Qed.

Lemma rescale_exp d e : exp (rescale d e) = e.
Proof.
  unfold rescale. destruct (Z.eqb_spec (exp d) e); [assumption |].
  destruct (exp d <? e)%Z; reflexivity.
Qed.

Lemma toQ_Add d d2 : toQ (Add d d2) == toQ d + toQ d2.
Proof.
  unfold Add, RescalePair.
  destruct (Z.eqb_spec (exp d) (exp d2)) as [Heq | Hne].
  - unfold toQ. cbn [value exp]. rewrite <- Heq, inject_Z_plus. ring.
  - destruct (Z.eqb_spec (Z.min (exp d) (exp d2)) (exp d)) as [Hmin | Hmin]; cbn [negb].
    + rewrite <- (toQ_rescale_down d2 (Z.min (exp d) (exp d2))) by lia.
      unfold toQ at 1 2 3. cbn [value exp]. rewrite rescale_exp, Hmin.
      rewrite inject_Z_plus. ring.
    + rewrite <- (toQ_rescale_down d (Z.min (exp d) (exp d2))) by lia.
      unfold toQ at 1 2 3. cbn [value exp]. rewrite rescale_exp.
      replace (Z.min (exp d) (exp d2)) with (exp d2) by lia.
      rewrite inject_Z_plus. ring.
Qed.

Lemma toQ_Zero : toQ Zero == 0.
Proof. reflexivity. Qed.

Lemma sumUtxos_from (utxos : list SafeUtxo.t) (acc : Decimal) :
  toQ (fold_left (fun sum utxo => Add sum (SafeUtxo.Amount utxo)) utxos acc)
  == toQ acc + sumQ (map SafeUtxo.Amount utxos).
Proof.
  revert acc. induction utxos as [| u utxos IH]; intros acc; cbn [fold_left map].
  - unfold sumQ. cbn [fold_right]. ring.
  - rewrite IH, toQ_Add. unfold sumQ. cbn [fold_right]. ring.
Qed.

(** [sumUtxos] is the exact sum of the amounts. *)
Lemma sumUtxos_exact (utxos : list SafeUtxo.t) :
  toQ (sumUtxos utxos) == sumQ (map SafeUtxo.Amount utxos).
Proof.
  unfold sumUtxos. rewrite sumUtxos_from, toQ_Zero. ring.
Qed.

End DecimalSum.

(** ** Properties of the events a computation appends

    For a [Q] that holds of no events and of two runs of events put
    together, [emits Q] goes through sequencing. *)

Section Emits.

Context {L : Type} (Q : list Event -> Prop).
Hypothesis Q_nil : Q [].
Hypothesis Q_app : forall e1 e2, Q e1 -> Q e2 -> Q (e1 ++ e2).

Lemma emits_nothing {A} (m : M L A) :
  (forall w, trace (m w).2 = trace w) -> emits Q m.
Proof. intros Hm w. exists []. rewrite app_nil_r. auto. Qed.

Lemma emits_ret {A} (a : A) : emits (L := L) Q (ret a).
Proof. apply emits_nothing. reflexivity. Qed.

Lemma emits_fail {A} e : emits (L := L) (A := A) Q (fail e).
Proof. apply emits_nothing. reflexivity. Qed.

Lemma emits_spin {A} : emits (L := L) (A := A) Q spin.
Proof. apply emits_nothing. reflexivity. Qed.

Lemma emits_lift {A} (r : result A) : emits (L := L) Q (lift r).
Proof. apply emits_nothing. reflexivity. Qed.

Lemma emits_getKey : emits (L := L) Q getKey.
Proof. apply emits_nothing. reflexivity. Qed.

Lemma emits_putKey k : emits (L := L) Q (putKey k).
Proof. apply emits_nothing. reflexivity. Qed.

Lemma emits_call {A} ev (op : L -> result A * L) : Q [ev] -> emits Q (call ev op).
Proof.
  intros Hev w. exists [ev]. unfold call. destruct (op (outside w)). auto.
Qed.

Lemma emits_draw {A} (ev : A -> Event) (op : L -> A * L) :
  (forall a, Q [ev a]) -> emits Q (draw ev op).
Proof.
  intros Hev w. unfold draw. destruct (op (outside w)) as [a l']. exists [ev a]. auto.
Qed.

Lemma emits_bind {A B} (m : M L A) (k : A -> M L B) :
  emits Q m -> (forall a, emits Q (k a)) -> emits Q (bind m k).
Proof.
  intros Hm Hk w. unfold bind. destruct (Hm w) as (e1 & Ht1 & Hq1).
  destruct (m w) as [[a | e |] w1]; cbn in *; [| exists e1; auto ..].
  destruct (Hk a w1) as (e2 & Ht2 & Hq2). exists (e1 ++ e2).
  rewrite Ht2, Ht1, app_assoc. auto.
Qed.

Lemma emits_wrap {A} ctx (m : M L A) : emits Q m -> emits Q (wrap ctx m).
Proof.
  intros Hm w. unfold wrap. destruct (Hm w) as (ext & Ht & Hq).
  destruct (m w) as [[a | e |] w1]; cbn in *; exists ext; auto.
Qed.

Lemma emits_openFile {Tx} (env : Env L Tx) path flag :
  Q [EvOpenFile path flag] -> emits Q (openFile env path flag).
Proof.
  intros Hev w. exists [EvOpenFile path flag]. unfold openFile.
  destruct (files w !! path) as [f |]; [destruct (permits env flag (perm f)) |]; auto.
Qed.

Lemma emits_writeFile {Tx} (env : Env L Tx) path data :
  Q [EvWriteFile path data] -> emits Q (writeFile env path data).
Proof.
  intros Hev w. exists [EvWriteFile path data]. unfold writeFile.
  destruct (fileWrite env path data (outside w)) as [[[n e] |] l']; auto.
Qed.

End Emits.

(** ** C6: the single output of every transaction built *)

Section Outputs.

Context {L Tx : Type} (env : Env L Tx) (r : runner).

Lemma paysInFull_nil : paysInFull r [].
Proof. split; [reflexivity | constructor]. Qed.

Lemma paysInFull_app e1 e2 : paysInFull r e1 -> paysInFull r e2 -> paysInFull r (e1 ++ e2).
Proof.
  intros [H1 G1] [H2 G2]. unfold paysInFull.
  rewrite madeTransactions_app, builtGroups_app, map_app, H1, H2.
  split; [reflexivity | apply Forall_app; auto].
Qed.

Lemma paysInFull_other ev :
  match ev with EvMakeTransaction _ _ | EvNewBuilder _ => False | _ => True end ->
  paysInFull r [ev].
Proof.
  intros Hev. destruct ev; try contradiction; (split; [reflexivity | constructor]).
Qed.

Lemma settle_paysInFull spendKey spends : emits (paysInFull r) (settle env r spendKey spends).
Proof.
  intros w. unfold settle. unfold NewSafeTransactionBuilder. unfold_go.
  case_env; trace_ext; (split; [reflexivity | repeat constructor]).
Qed.

Lemma spendLoop_paysInFull limit spendKey utxos fuel idx :
  emits (paysInFull r) (spendLoop env fuel r limit spendKey utxos idx).
Proof.
  revert idx. induction fuel as [| fuel IH]; intros idx; cbn [spendLoop].
  - apply emits_spin, paysInFull_nil.
  - destruct (idx <? len utxos).
    + apply emits_bind; auto using paysInFull_app, settle_paysInFull.
    + apply emits_ret, paysInFull_nil.
Qed.

Lemma assetLoop_paysInFull limit spendKey fuel entries :
  emits (paysInFull r) (assetLoop env fuel r limit spendKey entries).
Proof.
  induction entries as [| [assetId utxos] entries IH]; cbn [assetLoop].
  - apply emits_ret, paysInFull_nil.
  - apply emits_bind; [exact paysInFull_app | |].
    + apply emits_wrap, emits_call. apply paysInFull_other. exact I.
    + intros _. apply emits_bind; auto using paysInFull_app, spendLoop_paysInFull.
Qed.

Lemma listLoop_paysInFull fuel opt assets :
  emits (paysInFull r) (listLoop env fuel opt assets).
Proof.
  revert opt assets. induction fuel as [| fuel IH]; intros opt assets; cbn [listLoop].
  - apply emits_spin, paysInFull_nil.
  - apply emits_bind; [exact paysInFull_app | |].
    + apply emits_wrap, emits_call. apply paysInFull_other. exact I.
    + intros utxos. destruct (len utxos =? 0); [apply emits_ret, paysInFull_nil |].
      destruct (collectPage utxos (opt, assets)). apply IH.
Qed.

Lemma migrateSafeAssets_paysInFull fuel limit :
  emits (paysInFull r) (migrateSafeAssets env fuel r limit).
Proof.
  unfold migrateSafeAssets.
  apply emits_bind; [exact paysInFull_app | apply listLoop_paysInFull |].
  intros assets. destruct (Z.of_nat (size assets) =? 0); [apply emits_ret, paysInFull_nil |].
  apply emits_bind; [exact paysInFull_app | apply emits_getKey, paysInFull_nil |].
  intros k. apply emits_bind; [exact paysInFull_app | |].
  - apply emits_wrap, emits_lift, paysInFull_nil.
  - intros spendKey. apply assetLoop_paysInFull.
Qed.


Lemma submitted_app t1 t2 : submitted (t1 ++ t2) = submitted t1 ++ submitted t2.
Proof.
  induction t1 as [| ev t1 IH]; [reflexivity |].
  destruct ev; cbn; rewrite ?IH; reflexivity.
Qed.

(** The calls of one settlement, in order, up to the first that fails. *)
Lemma settle_steps (spendKey : mixinnet.Key) (spends : list SafeUtxo.t) (w : World L) :
  exists hint raw req signedRaw n,
    let b := TransactionBuilder.mk spends memo hint in
    let output := TransactionOutput.mk (MixAddress.mk [receiver r] 1) (sumUtxos spends) in
    trace (settle env r spendKey spends w).2
    = trace w ++ take n (settlement b output raw req signedRaw)
    /\ (2 <= n <= 4)%nat
    /\ ((settle env r spendKey spends w).1 = Done tt -> n = 4%nat)
    /\ (n = 4%nat ->
        exists tx tx' l2 l3 l4 l5,
          MakeTransaction env b [output] l2 = (Ok tx, l3)
          /\ Dump env tx = Ok raw
          /\ SafeCreateTransactionRequest env
               (SafeTransactionRequestInput.mk hint raw) l4 = (Ok req, l5)
          /\ SafeSignTransaction env tx spendKey (SafeTransactionRequest.Views req) 0
             = Ok tx'
          /\ Dump env tx' = Ok signedRaw).
Proof.
  destruct (settle env r spendKey spends w) as [o w'] eqn:Hrun.
  unfold settle in Hrun. unfold NewSafeTransactionBuilder in Hrun.
  unfold bind, draw, ret, wrap, call, lift in Hrun.
  destruct (newHint env spends (outside w)) as [hint l1].
  cbn [outside files key trace TransactionBuilder.Inputs TransactionBuilder.Hint] in Hrun.
  exists hint.
  set (dummy := SafeTransactionRequest.mk EmptyString []).
  destruct (MakeTransaction env _ _ l1) as [[tx | e] l2] eqn:Hmake.
  2: { injection Hrun as <- <-. exists EmptyString, dummy, EmptyString, 2%nat.
       cbn [fst snd trace take settlement]. rewrite <- app_assoc.
       repeat split; try lia; try discriminate; reflexivity. }
  destruct (Dump env tx) as [raw | e] eqn:Hraw.
  2: { injection Hrun as <- <-. exists EmptyString, dummy, EmptyString, 2%nat.
       cbn [fst snd trace take settlement]. rewrite <- app_assoc.
       repeat split; try lia; try discriminate; reflexivity. }
  cbn [outside files key trace] in Hrun. exists raw.
  destruct (SafeCreateTransactionRequest env _ l2) as [[req | e] l3] eqn:Hreq.
  2: { injection Hrun as <- <-. exists dummy, EmptyString, 3%nat.
       cbn [fst snd trace take settlement]. rewrite <- !app_assoc.
       repeat split; try lia; try discriminate; reflexivity. }
  exists req.
  destruct (SafeSignTransaction env tx spendKey (SafeTransactionRequest.Views req) 0)
    as [tx' | e] eqn:Hsign.
  2: { injection Hrun as <- <-. exists EmptyString, 3%nat.
       cbn [fst snd trace take settlement]. rewrite <- !app_assoc.
       repeat split; try lia; try discriminate; reflexivity. }
  destruct (Dump env tx') as [signedRaw | e] eqn:Hsigned.
  2: { injection Hrun as <- <-. exists EmptyString, 3%nat.
       cbn [fst snd trace take settlement]. rewrite <- !app_assoc.
       repeat split; try lia; try discriminate; reflexivity. }
  cbn [outside files key trace] in Hrun. exists signedRaw, 4%nat.
  assert (Htrace : trace w' = trace w ++ take 4 (settlement
                     (TransactionBuilder.mk spends memo hint)
                     (TransactionOutput.mk (MixAddress.mk [receiver r] 1) (sumUtxos spends))
                     raw req signedRaw)).
  { destruct (SafeSubmitTransactionRequest env _ l3) as [[res | e] l4];
      injection Hrun as <- <-; cbn [snd trace take settlement];
      rewrite <- !app_assoc; reflexivity. }
  cbn zeta. cbn [fst snd]. split; [exact Htrace |]. split; [lia |]. split; [reflexivity |].
  intros _. exists tx, tx', l1, l2, l2, l3. auto.
Qed.

(** A settlement that returns success has handed its group to a builder
    and submitted one transaction. *)
Lemma settle_done spendKey spends w w' :
  settle env r spendKey spends w = (Done tt, w') ->
  exists ext,
    trace w' = trace w ++ ext
    /\ builtGroups ext = [spends]
    /\ length (submitted ext) = 1%nat.
Proof.
  intros Hrun.
  destruct (settle_steps spendKey spends w)
    as (hint & raw & req & signedRaw & n & Htrace & _ & Hdone & _).
  cbn zeta in *. rewrite Hrun in Htrace, Hdone. cbn [fst snd] in *.
  rewrite (Hdone eq_refl) in Htrace. eexists. split; [exact Htrace |].
  split; reflexivity.
Qed.

Lemma spendLoop_done limit spendKey utxos fuel idx w w' :
  spendLoop env fuel r limit spendKey utxos idx w = (Done tt, w') ->
  exists groups ext,
    spendGroups fuel limit utxos idx = Some groups
    /\ trace w' = trace w ++ ext
    /\ builtGroups ext = groups
    /\ length (submitted ext) = length groups.
Proof.
  revert idx w. induction fuel as [| fuel IH]; intros idx w Hrun; [discriminate |].
  cbn [spendLoop spendGroups] in *. destruct (idx <? len utxos).
  - unfold bind in Hrun.
    destruct (settle env r spendKey (slice utxos idx (Z.min (len utxos) (idx + limit))) w)
      as [[[] | e |] w1] eqn:Hsettle; try discriminate.
    apply settle_done in Hsettle as (ext1 & Ht1 & Hb1 & Hs1).
    apply IH in Hrun as (groups & ext2 & -> & Ht2 & Hb2 & Hs2).
    exists (slice utxos idx (Z.min (len utxos) (idx + limit)) :: groups), (ext1 ++ ext2).
    split; [reflexivity |]. rewrite Ht2, Ht1, <- app_assoc.
    split; [reflexivity |]. rewrite builtGroups_app, submitted_app, length_app, Hb1, Hb2, Hs1, Hs2.
    split; reflexivity.
  - injection Hrun as <-. exists [], []. rewrite app_nil_r. auto.
Qed.

(** An asset loop that returns success has settled, for each entry in
    turn, every spend group of that entry's outputs. *)
Lemma assetLoop_done limit spendKey fuel entries w w' :
  assetLoop env fuel r limit spendKey entries w = (Done tt, w') ->
  exists groupss ext,
    Forall2 (fun entry groups => spendGroups fuel limit entry.2 0 = Some groups)
      entries groupss
    /\ trace w' = trace w ++ ext
    /\ builtGroups ext = concat groupss
    /\ length (submitted ext) = length (concat groupss).
Proof.
  revert w. induction entries as [| [assetId utxos] entries IH]; intros w Hrun;
    cbn [assetLoop] in Hrun.
  - injection Hrun as <-. exists [], []. rewrite app_nil_r. repeat split. constructor.
  - unfold bind at 1 in Hrun. unfold wrap, call in Hrun.
    destruct (SafeReadAsset env assetId (outside w)) as [[asset | e] l1]; [| discriminate].
    unfold bind in Hrun.
    match type of Hrun with context [spendLoop env fuel r limit spendKey utxos 0 ?w1] =>
      destruct (spendLoop env fuel r limit spendKey utxos 0 w1) as [[[] | e |] w2] eqn:Hloop
    end; try discriminate.
    apply spendLoop_done in Hloop as (groups & ext1 & Hg & Ht1 & Hb1 & Hs1).
    apply IH in Hrun as (groupss & ext2 & Hall & Ht2 & Hb2 & Hs2).
    exists (groups :: groupss), (EvSafeReadAsset assetId :: ext1 ++ ext2).
    split; [constructor; assumption |].
    cbn [trace] in Ht1. rewrite Ht2, Ht1, <- !app_assoc. split; [reflexivity |].
    cbn [builtGroups submitted concat].
    rewrite builtGroups_app, submitted_app, !length_app, Hb1, Hb2, Hs1, Hs2.
    split; reflexivity.
Qed.

(** A drain that returns success has enumerated the outputs and settled
    every spend group of every asset it then walked. *)
Lemma migrateSafeAssets_done fuel limit w :
  (migrateSafeAssets env fuel r limit w).1 = Done tt ->
  exists assets w1 groupss ext,
    listLoop env fuel initialOption ∅ w = (Done assets, w1)
    /\ Forall2 (fun entry groups => spendGroups fuel limit entry.2 0 = Some groups)
         (drainEntries env assets) groupss
    /\ trace (migrateSafeAssets env fuel r limit w).2 = trace w1 ++ ext
    /\ builtGroups ext = concat groupss
    /\ length (submitted ext) = length (concat groupss)
    /\ paysInFull r ext.
Proof.
  destruct (migrateSafeAssets env fuel r limit w) as [o w'] eqn:Hrun. cbn [fst snd].
  intros ->. unfold migrateSafeAssets in Hrun. unfold bind at 1 in Hrun.
  unfold drainEntries.
  destruct (listLoop env fuel initialOption ∅ w) as [[assets | e |] w1]; try discriminate.
  exists assets, w1.
  destruct (Z.of_nat (size assets) =? 0).
  - injection Hrun as <-. exists [], []. rewrite app_nil_r.
    repeat split; try constructor.
  - unfold bind at 1 in Hrun. unfold getKey at 1 in Hrun. unfold bind at 1 in Hrun.
    unfold wrap, lift in Hrun.
    destruct (mixinnet.KeyFromString (keyFromSeed env) (Keystore.SpendKey (key w1)))
      as [spendKey | e]; [| discriminate].
    destruct (assetLoop_paysInFull limit spendKey fuel (rangeOrder env assets) w1)
      as (ext' & Ht' & Hpays).
    rewrite Hrun in Ht'. cbn [snd] in Ht'.
    apply assetLoop_done in Hrun as (groupss & ext & Hall & Ht & Hb & Hs).
    assert (ext' = ext) as -> by (apply (app_inv_head (trace w1)); congruence).
    exists groupss, ext. split; [reflexivity |].
    repeat (split; [assumption |]). assumption.
Qed.

End Outputs.

(** C6.  Whatever the ledger answers, every transaction the safe-asset
    phase builds takes as inputs exactly the spend group handed to its
    builder and has exactly one output: it is addressed to the receiver
    alone, with threshold one, and its amount is the exact decimal sum of
    the amounts of the group's inputs, nothing deducted.  Every settlement
    of a group asks for such a transaction right after making the builder:
    its calls are the builder, the transaction with that one output, the
    request and the submission, up to the first that fails, and all four
    when it returns success.  And a drain that returns success has
    enumerated the outputs and, for every asset it walked, built and
    submitted one such transaction for each spend group of that asset's
    outputs, in order; for a group count of at least one their inputs
    together are exactly the outputs of the assets walked. *)
Theorem C6_single_output_pays_sum {L Tx} (env : Env L Tx) (fuel : nat) (r : runner)
    (spendGroupCount : Z) (w : World L) :
  (exists ext,
      trace (migrateSafeAssets env fuel r spendGroupCount w).2 = trace w ++ ext
      /\ map (fun tx => TransactionBuilder.Inputs tx.1) (madeTransactions ext)
         = builtGroups ext
      /\ Forall
           (fun tx =>
              exists amount,
                tx.2 = [TransactionOutput.mk (MixAddress.mk [receiver r] 1) amount]
                /\ (decimal.toQ amount
                    == sumQ (map SafeUtxo.Amount (TransactionBuilder.Inputs tx.1)))%Q)
           (madeTransactions ext))
  /\ (forall spendKey spends w0,
        exists hint raw req signedRaw n,
          let b := TransactionBuilder.mk spends memo hint in
          let output :=
            TransactionOutput.mk (MixAddress.mk [receiver r] 1) (sumUtxos spends) in
          trace (settle env r spendKey spends w0).2
          = trace w0 ++ take n (settlement b output raw req signedRaw)
          /\ (2 <= n <= 4)%nat
          /\ ((settle env r spendKey spends w0).1 = Done tt -> n = 4%nat)
          /\ (decimal.toQ (sumUtxos spends) == sumQ (map SafeUtxo.Amount spends))%Q)
  /\ ((migrateSafeAssets env fuel r spendGroupCount w).1 = Done tt ->
      exists assets w1 groupss ext,
        listLoop env fuel initialOption ∅ w = (Done assets, w1)
        /\ Forall2
             (fun entry groups => spendGroups fuel spendGroupCount entry.2 0 = Some groups)
             (drainEntries env assets) groupss
        /\ trace (migrateSafeAssets env fuel r spendGroupCount w).2 = trace w1 ++ ext
        /\ map (fun tx => TransactionBuilder.Inputs tx.1) (madeTransactions ext)
           = concat groupss
        /\ Forall
             (fun tx =>
                exists amount,
                  tx.2 = [TransactionOutput.mk (MixAddress.mk [receiver r] 1) amount]
                  /\ (decimal.toQ amount
                      == sumQ (map SafeUtxo.Amount (TransactionBuilder.Inputs tx.1)))%Q)
             (madeTransactions ext)
        /\ length (submitted ext) = length (concat groupss)
        /\ (1 <= spendGroupCount ->
            concat (concat groupss) = concat (map snd (drainEntries env assets)))).
Proof.
  assert (Hexact : forall ext, paysInFull r ext ->
            Forall
              (fun tx =>
                 exists amount,
                   tx.2 = [TransactionOutput.mk (MixAddress.mk [receiver r] 1) amount]
                   /\ (decimal.toQ amount
                       == sumQ (map SafeUtxo.Amount (TransactionBuilder.Inputs tx.1)))%Q)
              (madeTransactions ext)).
  { intros ext [_ Hall]. eapply Forall_impl; [exact Hall |].
    intros [b outputs] Hout. cbn in *. eexists. split; [exact Hout |].
    apply sumUtxos_exact. }
  split; [| split].
  - destruct (migrateSafeAssets_paysInFull env r fuel spendGroupCount w) as (ext & Ht & Hpays).
    exists ext. split; [exact Ht |]. split; [apply Hpays | apply Hexact, Hpays].
  - intros spendKey spends w0.
    destruct (settle_steps env r spendKey spends w0)
      as (hint & raw & req & signedRaw & n & Htrace & Hn & Hdone & _).
    exists hint, raw, req, signedRaw, n. cbn zeta in *.
    split; [exact Htrace |]. split; [exact Hn |]. split; [exact Hdone |].
    apply sumUtxos_exact.
  - intros Hdone.
    destruct (migrateSafeAssets_done env r fuel spendGroupCount w Hdone)
      as (assets & w1 & groupss & ext & Hlist & Hall & Ht & Hb & Hs & Hpays).
    exists assets, w1, groupss, ext.
    split; [exact Hlist |]. split; [exact Hall |]. split; [exact Ht |].
    split; [rewrite <- Hb; apply Hpays |]. split; [apply Hexact, Hpays |].
    split; [exact Hs |]. intros Hlimit. clear - Hall Hlimit.
    induction Hall as [| [assetId utxos] groups entries groupss Hg _ IH]; [reflexivity |].
    cbn [concat map snd]. rewrite concat_app, IH. f_equal.
    apply (spendGroups_concat spendGroupCount utxos fuel 0 groups); [lia | lia | exact Hg].
Qed.


(** ** The legacy balances *)

(** The in-place loop keeps, in front of the write position, the non-zero
    balances met so far, and leaves the positions still to visit as they
    were. *)
Lemma compactLoop_filter (orig : list Asset.t) n i assets idx :
  (i + n = length orig)%nat -> length assets = length orig -> (idx <= i)%nat ->
  take idx assets = List.filter nonZero (take i orig) ->
  drop i assets = drop i orig ->
  take (compactLoop n i assets idx).2 (compactLoop n i assets idx).1
  = List.filter nonZero orig.
Proof.
  revert i assets idx. induction n as [| n IH]; intros i assets idx Hin Hlen Hidx Htake Hdrop.
  - cbn. rewrite Htake. rewrite take_ge by lia. reflexivity.
  - cbn [compactLoop].
    assert (Hi : (i < length orig)%nat) by lia.
    destruct (lookup_lt_is_Some_2 orig i Hi) as [asset Hasset].
    assert (Hcur : assets !! i = Some asset).
    { rewrite <- (Nat.add_0_r i), <- lookup_drop, Hdrop, lookup_drop, Nat.add_0_r. exact Hasset. }
    rewrite Hcur.
    assert (Hnext : drop (S i) assets = drop (S i) orig).
    { rewrite (drop_S _ _ _ Hcur), (drop_S _ _ _ Hasset) in Hdrop. congruence. }
    destruct (decimal.IsZero (Asset.Balance asset)) eqn:Hz.
    + apply IH; try lia; [| exact Hnext].
      rewrite (take_S_r _ _ _ Hasset), List.filter_app, Htake. cbn.
      unfold nonZero. rewrite Hz. cbn. rewrite app_nil_r. reflexivity.
    + apply IH; try lia.
      * rewrite length_insert. exact Hlen.
      * rewrite (take_S_r _ _ _ Hasset), List.filter_app. cbn.
        unfold nonZero at 2. rewrite Hz. cbn. rewrite <- Htake.
        rewrite (take_S_r _ idx asset).
        -- rewrite take_insert_ge by lia. reflexivity.
        -- apply list_lookup_insert_eq. lia.
      * rewrite drop_insert_lt by lia. exact Hnext.
Qed.

(** The first loop of the phase and the slicing after it keep exactly the
    assets whose balance is not zero, in their order. *)
Lemma compact_filter (assets : list Asset.t) : compact assets = List.filter nonZero assets.
Proof.
  unfold compact.
  pose proof (compactLoop_filter assets (length assets) 0 assets 0) as H.
  destruct (compactLoop (length assets) 0 assets 0) as [assets' idx]. cbn in H.
  apply H; auto.
Qed.

Section Legacy.

Context {L Tx : Type} (env : Env L Tx) (r : runner).


End Legacy.



(** ** Keys and their hexadecimal text *)

Lemma hex_decode_byte (b : ascii) (rest : string) :
  hex.DecodeString
    (String (hex.hextable (N.shiftr (N_of_ascii b) 4))
       (String (hex.hextable (N.land (N_of_ascii b) 15)) rest))
  = match hex.DecodeString rest with
    | Ok bs => Ok (b :: bs)
    | Err e => Err e
    end.
Proof.
  destruct b as [[] [] [] [] [] [] [] []]; reflexivity.
Qed.

Lemma hex_decode_encode (src : list ascii) :
  hex.DecodeString (hex.EncodeToString src) = Ok src.
Proof.
  induction src as [| b src IH]; [reflexivity |].
  cbn [hex.EncodeToString]. rewrite hex_decode_byte, IH. reflexivity.
Qed.

(** The text of a key parses as a key with the same bytes. *)
Lemma KeyFromString_KeyString (fromSeed : list ascii -> mixinnet.Key) (k : mixinnet.Key) :
  exists k', mixinnet.KeyFromString fromSeed (mixinnet.KeyString k) = Ok k'
             /\ mixinnet.bytes k' = mixinnet.bytes k.
Proof.
  unfold mixinnet.KeyFromString, mixinnet.KeyString. rewrite hex_decode_encode.
  destruct (decide (length (mixinnet.bytes k) = 32%nat)) as [H | H].
  - eexists. split; reflexivity.
  - destruct H. apply mixinnet.size.
Qed.

Lemma KeyString_parses (fromSeed : list ascii -> mixinnet.Key) (k : mixinnet.Key) :
  isOk (mixinnet.KeyFromString fromSeed (mixinnet.KeyString k)) = true.
Proof.
  destruct (KeyFromString_KeyString fromSeed k) as (k' & -> & _). reflexivity.
Qed.


(** ** Saving the keystore *)

Section Save.

Context {L Tx : Type} (env : Env L Tx) (r : runner).

Lemma saveKeystore_eq w :
  saveKeystore env r w
  = let w1 := mkWorld (outside w) (files w) (key w)
                (trace w ++ [EvOpenFile (output r) O_WRONLY]) in
    let data := jsonEncodeKeystore env (key w) in
    match files w !! output r with
    | None =>
        (Fail ("open keystore failed: " +:+ "open " +:+ output r
                 +:+ ": no such file or directory"), w1)
    | Some f =>
        if permits env O_WRONLY (perm f) then
          match fileWrite env (output r) data (outside w) with
          | (None, l') =>
              (Done tt,
               mkWorld l'
                 (<[output r := mkFile (perm f) (writeAt0 data (content f))]> (files w))
                 (key w)
                 (trace w ++ [EvOpenFile (output r) O_WRONLY; EvWriteFile (output r) data]))
          | (Some (n, e), l') =>
              (Fail ("save keystore failed: " +:+ e),
               mkWorld l'
                 (<[output r := mkFile (perm f)
                                  (writeAt0 (String.substring 0 n data) (content f))]>
                    (files w))
                 (key w)
                 (trace w ++ [EvOpenFile (output r) O_WRONLY; EvWriteFile (output r) data]))
          end
        else
          (Fail ("open keystore failed: " +:+ "open " +:+ output r
                   +:+ ": permission denied"), w1)
    end.
Proof.
  unfold saveKeystore. unfold_go. cbn [files key outside trace].
  destruct (files w !! output r) as [f |] eqn:Hf; [| reflexivity].
  destruct (permits env O_WRONLY (perm f)); [| reflexivity].
  cbn [files key outside trace].
  destruct (fileWrite env (output r) (jsonEncodeKeystore env (key w)) (outside w))
    as [[[n e] |] l']; cbn [files key outside trace]; rewrite Hf, <- app_assoc; reflexivity.
Qed.

(** Saving never spins and never touches the record in memory.  On success
    the file at the output path begins with the text of the record.  It
    fails either at the open, and then nothing is written, or at the write,
    and then the file holds the bytes of the text taken before the error
    over what it held. *)
Lemma saveKeystore_writes w :
  key (saveKeystore env r w).2 = key w
  /\ match (saveKeystore env r w).1 with
     | Done _ =>
         persisted env (output r) (key w) (files (saveKeystore env r w).2)
         /\ trace (saveKeystore env r w).2
            = trace w ++ [EvOpenFile (output r) O_WRONLY;
                          EvWriteFile (output r) (jsonEncodeKeystore env (key w))]
     | Fail e =>
         (files (saveKeystore env r w).2 = files w
          /\ trace (saveKeystore env r w).2 = trace w ++ [EvOpenFile (output r) O_WRONLY]
          /\ exists e', e = "open keystore failed: " +:+ e')
         \/ (exists f n e',
               files w !! output r = Some f
               /\ e = "save keystore failed: " +:+ e'
               /\ files (saveKeystore env r w).2
                  = <[output r :=
                        mkFile (perm f)
                          (writeAt0 (String.substring 0 n (jsonEncodeKeystore env (key w)))
                             (content f))]> (files w)
               /\ trace (saveKeystore env r w).2
                  = trace w ++ [EvOpenFile (output r) O_WRONLY;
                                EvWriteFile (output r) (jsonEncodeKeystore env (key w))])
     | Spin => False
     end.
Proof.
  rewrite saveKeystore_eq. cbn zeta.
  destruct (files w !! output r) as [f |] eqn:Hf.
  - destruct (permits env O_WRONLY (perm f)); cbn [fst snd key outside files trace].
    + destruct (fileWrite env (output r) (jsonEncodeKeystore env (key w)) (outside w))
        as [[[n e] |] l']; cbn [fst snd key outside files trace].
      * split; [reflexivity |]. right. exists f, n, e. auto.
      * repeat split.
        exists (mkFile (perm f) (writeAt0 (jsonEncodeKeystore env (key w)) (content f))).
        eexists. split; [apply lookup_insert_eq | reflexivity].
    + split; [reflexivity |]. left. repeat split. eexists. reflexivity.
  - cbn [fst snd key outside files trace]. split; [reflexivity |]. left.
    repeat split. eexists. reflexivity.
Qed.

End Save.

(** ** C4: a phase whose secret is already a key does nothing *)

Lemma rotation_noop {L Tx} (env : Env L Tx) (r : runner) (w : World L) :
  (isOk (mixinnet.KeyFromString (keyFromSeed env) (Keystore.Pin (key w))) = true ->
   updateTipPin env r w = (Done tt, w))
  /\ (isOk (mixinnet.KeyFromString (keyFromSeed env) (Keystore.SpendKey (key w))) = true ->
      migrateToSafe env r w = (Done tt, w)).
Proof.
  split; intros Hkey.
  - unfold updateTipPin, bind, getKey. rewrite Hkey. reflexivity.
  - unfold migrateToSafe, bind, getKey. rewrite Hkey. reflexivity.
Qed.

(** C4.  When the authorization PIN of the record already parses as a
    private key, the rotation phase returns success and leaves the world as
    it found it; when the spend-key secret already parses as a private key,
    so does the safe-activation phase.  The world left is the world found:
    no key was generated, no call reached the ledger, the record is the
    same and no file was opened or written. *)
Theorem C4_rotation_noop {L Tx} (env : Env L Tx) (r : runner) (w : World L) :
  (isOk (mixinnet.KeyFromString (keyFromSeed env) (Keystore.Pin (key w))) = true ->
   updateTipPin env r w = (Done tt, w))
  /\ (isOk (mixinnet.KeyFromString (keyFromSeed env) (Keystore.SpendKey (key w))) = true ->
      migrateToSafe env r w = (Done tt, w)).
Proof. apply rotation_noop. Qed.


(** ** The rotation phases *)

Section Rotation.

Context {L Tx : Type} (env : Env L Tx) (r : runner).

(** Once the ledger has accepted the new PIN, the phase is the save of the
    record with the new PIN. *)
Lemma updateTipPin_accepted w k l1 l2 :
  isOk (mixinnet.KeyFromString (keyFromSeed env) (Keystore.Pin (key w))) = false ->
  GenerateKey env (outside w) = (k, l1) ->
  ModifyPin env (Keystore.Pin (key w)) (mixinnet.KeyString (Public env k)) l1 = (Ok tt, l2) ->
  updateTipPin env r w
  = saveKeystore env r
      (mkWorld l2 (files w) (Keystore.setPin (key w) (mixinnet.KeyString k))
         (trace w ++ [EvGenerateKey k;
                      EvModifyPin (Keystore.Pin (key w)) (mixinnet.KeyString (Public env k))])).
Proof.
  intros Hpin Hgen Hmod. unfold updateTipPin. unfold bind at 1. unfold getKey at 1.
  rewrite Hpin. unfold bind at 1. unfold draw. rewrite Hgen.
  unfold bind at 1. unfold getKey at 1. unfold bind at 1. unfold wrap, call.
  cbn [outside key files trace]. rewrite Hmod.
  unfold bind at 1. unfold getKey at 1. unfold bind at 1. unfold putKey.
  cbn [outside key files trace]. rewrite <- app_assoc. reflexivity.
Qed.

Lemma migrateToSafe_accepted w k l1 l2 :
  isOk (mixinnet.KeyFromString (keyFromSeed env) (Keystore.SpendKey (key w))) = false ->
  GenerateKey env (outside w) = (k, l1) ->
  SafeMigrate env (mixinnet.KeyString k) (Keystore.Pin (key w)) l1 = (Ok tt, l2) ->
  migrateToSafe env r w
  = saveKeystore env r
      (mkWorld l2 (files w) (Keystore.setSpendKey (key w) (mixinnet.KeyString k))
         (trace w ++ [EvGenerateKey k;
                      EvSafeMigrate (mixinnet.KeyString k) (Keystore.Pin (key w))])).
Proof.
  intros Hkey Hgen Hmig. unfold migrateToSafe. unfold bind at 1. unfold getKey at 1.
  rewrite Hkey. unfold bind at 1. unfold draw. rewrite Hgen.
  unfold bind at 1. unfold getKey at 1. unfold bind at 1. unfold wrap, call.
  cbn [outside key files trace]. rewrite Hmig.
  unfold bind at 1. unfold getKey at 1. unfold bind at 1. unfold putKey.
  cbn [outside key files trace]. rewrite <- app_assoc. reflexivity.
Qed.

(** The save that ends a rotation leaves what [writeAfterMutate] says. *)
Lemma save_writeAfterMutate w0 w :
  files w = files w0 ->
  writeAfterMutate env r w0 (key w) (saveKeystore env r w).
Proof.
  intros Hfiles. destruct (saveKeystore_writes env r w) as (Hkey & Hres).
  split; [exact Hkey |].
  destruct (saveKeystore env r w).1 as [[] | e |].
  - destruct Hres as [Hp Ht]. split; [exact Hp |]. exists (trace w). exact Ht.
  - destruct Hres as [(Hf & _ & He) | (f & n & e' & Hf & He & Hfs & _)].
    + left. split; [congruence | exact He].
    + right. exists f, n, e'. rewrite <- Hfiles. auto.
  - exact Hres.
Qed.

(** The three phases before the safe drain have no loop that can spin. *)
Lemma transferLoop_ends assets w : (transferLoop env r assets w).1 <> Spin.
Proof.
  revert w. induction assets as [| asset assets IH]; intros w; [discriminate |].
  cbn [transferLoop]. unfold bind, draw, getKey, wrap, call.
  destruct (RandomTraceID env (outside w)) as [traceID l1]. cbn [outside key].
  destruct (Transfer env _ _ l1) as [[snapshot | e] l2]; [apply IH | discriminate].
Qed.

Lemma migrateLegacyAssets_ends w : (migrateLegacyAssets env r w).1 <> Spin.
Proof.
  unfold migrateLegacyAssets, bind, wrap, call.
  destruct (ReadAssets env (outside w)) as [[assets | e] l1]; [| discriminate].
  destruct (len (compact assets) =? 0); [discriminate | apply transferLoop_ends].
Qed.

Lemma saveKeystore_ends w : (saveKeystore env r w).1 <> Spin.
Proof.
  rewrite saveKeystore_eq. cbn zeta.
  destruct (files w !! output r) as [f |]; [| discriminate].
  destruct (permits env O_WRONLY (perm f)); [| discriminate].
  destruct (fileWrite env _ _ (outside w)) as [[[n e] |] l']; discriminate.
Qed.

Lemma updateTipPin_ends w : (updateTipPin env r w).1 <> Spin.
Proof.
  unfold updateTipPin. unfold bind at 1. unfold getKey at 1.
  destruct (isOk _); [discriminate |].
  unfold bind at 1. unfold draw. destruct (GenerateKey env (outside w)) as [k l1].
  unfold bind at 1. unfold getKey at 1. unfold bind at 1. unfold wrap, call.
  cbn [outside key]. destruct (ModifyPin env _ _ l1) as [[[] | e] l2]; [| discriminate].
  unfold bind at 1. unfold getKey at 1. unfold bind at 1. unfold putKey.
  apply saveKeystore_ends.
Qed.

Lemma migrateToSafe_ends w : (migrateToSafe env r w).1 <> Spin.
Proof.
  unfold migrateToSafe. unfold bind at 1. unfold getKey at 1.
  destruct (isOk _); [discriminate |].
  unfold bind at 1. unfold draw. destruct (GenerateKey env (outside w)) as [k l1].
  unfold bind at 1. unfold getKey at 1. unfold bind at 1. unfold wrap, call.
  cbn [outside key]. destruct (SafeMigrate env _ _ l1) as [[[] | e] l2]; [| discriminate].
  unfold bind at 1. unfold getKey at 1. unfold bind at 1. unfold putKey.
  apply saveKeystore_ends.
Qed.

(** A safe activation that returns success leaves a spend key that parses. *)
Lemma migrateToSafe_spendKey w :
  (migrateToSafe env r w).1 = Done tt ->
  isOk (mixinnet.KeyFromString (keyFromSeed env) (Keystore.SpendKey (key (migrateToSafe env r w).2))) = true.
Proof.
  destruct (isOk (mixinnet.KeyFromString (keyFromSeed env) (Keystore.SpendKey (key w)))) eqn:Hkey.
  - destruct (rotation_noop env r w) as [_ Hnoop]. rewrite (Hnoop Hkey). intros _. exact Hkey.
  - destruct (GenerateKey env (outside w)) as [k l1] eqn:Hgen.
    destruct (SafeMigrate env (mixinnet.KeyString k) (Keystore.Pin (key w)) l1)
      as [[[] | e] l2] eqn:Hmig.
    + rewrite (migrateToSafe_accepted w k l1 l2 Hkey Hgen Hmig). intros _.
      destruct (saveKeystore_writes env r
                  (mkWorld l2 (files w) (Keystore.setSpendKey (key w) (mixinnet.KeyString k))
                     (trace w ++ [EvGenerateKey k;
                                  EvSafeMigrate (mixinnet.KeyString k) (Keystore.Pin (key w))])))
        as (-> & _). cbn. apply KeyString_parses.
    + unfold migrateToSafe. unfold bind at 1. unfold getKey at 1. rewrite Hkey.
      unfold bind at 1. unfold draw. rewrite Hgen.
      unfold bind at 1. unfold getKey at 1. unfold bind at 1. unfold wrap, call.
      cbn [outside key]. rewrite Hmig. discriminate.
Qed.

End Rotation.


(** ** C8: the phases in order, failing fast *)

Lemma runPhases_failFast {L Tx} (env : Env L Tx) (fuel : nat) (r : runner)
    (spendGroupCount : Z) (w : World L) :
  runPhases env fuel r spendGroupCount w = failFast env fuel r spendGroupCount phaseOrder w.
Proof.
  unfold runPhases, phaseOrder, bind, wrap. cbn [failFast runPhase phaseContext].
  destruct (migrateLegacyAssets env r w) as [[[] | e |] w1]; try reflexivity.
  destruct (updateTipPin env r w1) as [[[] | e |] w2]; try reflexivity.
  destruct (migrateToSafe env r w2) as [[[] | e |] w3]; try reflexivity.
  destruct (migrateSafeAssets env fuel r spendGroupCount w3) as [[[] | e |] w4]; reflexivity.
Qed.

(** C8.  The phases of a run are the four phases in the order drain legacy
    balances, rotate the PIN, activate safe custody, drain safe outputs,
    run as a fail-fast state machine: each phase starts in the world the
    one before it left and only after that one returned success; the first
    phase to fail ends the run with its own context before the error, in
    the world exactly as that phase left it, so that no later phase runs,
    nothing is undone and nothing is tried again.  The four contexts are
    pairwise different, and the first three phases always end. *)
Theorem C8_phases_in_order_fail_fast {L Tx} (env : Env L Tx) (fuel : nat) (r : runner)
    (spendGroupCount : Z) (w : World L) :
  runPhases env fuel r spendGroupCount w = failFast env fuel r spendGroupCount phaseOrder w
  /\ phaseOrder = [DrainLegacy; RotatePin; ActivateSafe; DrainSafe]
  /\ (forall p q, phaseContext p = phaseContext q -> p = q)
  /\ (forall p w', p <> DrainSafe -> (runPhase env fuel r spendGroupCount p w').1 <> Spin).
Proof.
  split; [apply runPhases_failFast |]. split; [reflexivity |]. split.
  - intros [] []; cbn; intros H; try reflexivity; discriminate H.
  - intros [] w' Hp; cbn [runPhase].
    + apply migrateLegacyAssets_ends.
    + apply updateTipPin_ends.
    + apply migrateToSafe_ends.
    + contradiction.
Qed.

(** ** The safe drain and the spend key *)

Section SpendKey.

Context {L Tx : Type} (env : Env L Tx) (r : runner).

Ltac not_i := cbn; first [exact I | discriminate].

Lemma settle_notStarting spendKey spends w :
  notStarting "i" (settle env r spendKey spends w).1.
Proof.
  unfold settle. unfold NewSafeTransactionBuilder. unfold_go. case_env; not_i.
Qed.

Lemma spendLoop_notStarting limit spendKey utxos fuel idx w :
  notStarting "i" (spendLoop env fuel r limit spendKey utxos idx w).1.
Proof.
  revert idx w. induction fuel as [| fuel IH]; intros idx w; cbn [spendLoop]; [exact I |].
  destruct (idx <? len utxos); [| exact I]. unfold bind.
  pose proof (settle_notStarting spendKey
                (slice utxos idx (Z.min (len utxos) (idx + limit))) w) as Hs.
  destruct (settle env r spendKey _ w) as [[[] | e |] w1]; [apply IH | exact Hs | exact I].
Qed.

Lemma assetLoop_notStarting limit spendKey fuel entries w :
  notStarting "i" (assetLoop env fuel r limit spendKey entries w).1.
Proof.
  revert w. induction entries as [| [assetId utxos] entries IH]; intros w;
    cbn [assetLoop]; [exact I |].
  unfold bind at 1. unfold wrap, call.
  destruct (SafeReadAsset env assetId (outside w)) as [[asset | e] l1]; [| not_i].
  unfold bind.
  match goal with |- context [spendLoop env fuel r limit spendKey utxos 0 ?w1] =>
    pose proof (spendLoop_notStarting limit spendKey utxos fuel 0 w1) as Hs;
    destruct (spendLoop env fuel r limit spendKey utxos 0 w1) as [[[] | e |] w2] end;
    [apply IH | exact Hs | exact I].
Qed.

(** Listing the outputs touches neither the record nor the files, and
    fails only as a listing failure. *)
Lemma listLoop_frame fuel opt assets w :
  key (listLoop env fuel opt assets w).2 = key w
  /\ files (listLoop env fuel opt assets w).2 = files w
  /\ notStarting "i" (listLoop env fuel opt assets w).1.
Proof.
  revert opt assets w. induction fuel as [| fuel IH]; intros opt assets w;
    cbn [listLoop]; [repeat split |].
  unfold bind, wrap, call.
  destruct (SafeListUtxos env opt (outside w)) as [[utxos | e] l1]; [| repeat split; not_i].
  destruct (len utxos =? 0); [repeat split |].
  destruct (collectPage utxos (opt, assets)) as [opt' assets'].
  match goal with |- context [listLoop env fuel opt' assets' ?w1] =>
    destruct (IH opt' assets' w1) as (Hk & Hf & Hn) end.
  rewrite Hk, Hf. auto.
Qed.

(** With a spend key that parses, the drain never reports an invalid one. *)
Lemma migrateSafeAssets_notStarting fuel limit w :
  isOk (mixinnet.KeyFromString (keyFromSeed env) (Keystore.SpendKey (key w))) = true ->
  notStarting "i" (migrateSafeAssets env fuel r limit w).1.
Proof.
  intros Hkey. unfold migrateSafeAssets. unfold bind at 1.
  destruct (listLoop_frame fuel initialOption ∅ w) as (Hk & _ & Hn).
  destruct (listLoop env fuel initialOption ∅ w) as [[assets | e |] w1];
    cbn [fst snd] in *; [| exact Hn | exact I].
  destruct (Z.of_nat (size assets) =? 0); [exact I |].
  unfold bind at 1. unfold getKey at 1. unfold bind at 1. unfold wrap, lift.
  rewrite Hk. destruct (mixinnet.KeyFromString (keyFromSeed env) (Keystore.SpendKey (key w))) as [spendKey | e];
    [| discriminate].
  apply assetLoop_notStarting.
Qed.

End SpendKey.

Lemma append_inj_l (p a b : string) : p +:+ a = p +:+ b -> a = b.
Proof.
  induction p as [| c p IH]; cbn; [auto |]. intros H. injection H as H. auto.
Qed.

(** No run of the phases ends in the drain's invalid-spend-key error. *)
Lemma runPhases_spend_key_valid {L Tx} (env : Env L Tx) (r : runner) (w : World L)
    (fuel : nat) (spendGroupCount : Z) (e : string) :
  (runPhases env fuel r spendGroupCount w).1
  <> Fail ("migrate safe assets failed: " +:+ "invalid spend key: " +:+ e).
Proof.
  rewrite runPhases_failFast. unfold phaseOrder. cbn [failFast runPhase phaseContext].
  destruct (migrateLegacyAssets env r w) as [[[] | e1 |] w1]; [| discriminate ..].
  destruct (updateTipPin env r w1) as [[[] | e2 |] w2]; [| discriminate ..].
  pose proof (migrateToSafe_spendKey env r w2) as Hkey.
  destruct (migrateToSafe env r w2) as [[[] | e3 |] w3]; [| discriminate ..].
  cbn [fst snd] in Hkey. specialize (Hkey eq_refl).
  pose proof (migrateSafeAssets_notStarting env r fuel spendGroupCount w3 Hkey) as Hn.
  destruct (migrateSafeAssets env fuel r spendGroupCount w3) as [[[] | e4 |] w4];
    [discriminate | | discriminate].
  cbn [fst]. intros H. injection H as H. apply append_inj_l in H. subst e4.
  cbn in Hn. congruence.
Qed.

(** C10.  When the safe-activation phase has returned success, the
    spend-key secret of the record it leaves parses as a private key, and
    the safe drain started in that world returns no "invalid spend key"
    error, whatever the ledger answers; hence no run of the four phases
    ends in that error. *)
Theorem C10_spend_key_valid_at_drain {L Tx} (env : Env L Tx) (r : runner) (w : World L)
    (fuel : nat) (spendGroupCount : Z) :
  (migrateToSafe env r w).1 = Done tt ->
  isOk (mixinnet.KeyFromString (keyFromSeed env)
          (Keystore.SpendKey (key (migrateToSafe env r w).2))) = true
  /\ (forall e,
        (migrateSafeAssets env fuel r spendGroupCount (migrateToSafe env r w).2).1
        <> Fail ("invalid spend key: " +:+ e))
  /\ (forall w0 e,
        (runPhases env fuel r spendGroupCount w0).1
        <> Fail ("migrate safe assets failed: " +:+ "invalid spend key: " +:+ e)).
Proof.
  intros Hdone. pose proof (migrateToSafe_spendKey env r w Hdone) as Hkey.
  split; [exact Hkey |]. split.
  - intros e Hfail.
    pose proof (migrateSafeAssets_notStarting env r fuel spendGroupCount _ Hkey) as Hn.
    rewrite Hfail in Hn. cbn in Hn. congruence.
  - intros w0 e. apply runPhases_spend_key_valid.
Qed.

(** ** C5: write after mutate *)

(** In a run, a phase starts in the world the phase before it left. *)
Lemma runPhases_from_pin {L Tx} (env : Env L Tx) (fuel : nat) (r : runner)
    (spendGroupCount : Z) (w0 w : World L) :
  migrateLegacyAssets env r w0 = (Done tt, w) ->
  runPhases env fuel r spendGroupCount w0
  = match (updateTipPin env r w).1 with
    | Fail e => (Fail ("update tip pin failed: " +:+ e), (updateTipPin env r w).2)
    | _ => failFast env fuel r spendGroupCount [ActivateSafe; DrainSafe]
             (updateTipPin env r w).2
    end.
Proof.
  intros H1. rewrite runPhases_failFast. unfold phaseOrder.
  cbn [failFast runPhase phaseContext]. rewrite H1.
  pose proof (updateTipPin_ends env r w) as Hends.
  destruct (updateTipPin env r w) as [[[] | e |] w2]; cbn [fst snd] in *;
    [reflexivity | reflexivity | congruence].
Qed.

Lemma runPhases_from_safe {L Tx} (env : Env L Tx) (fuel : nat) (r : runner)
    (spendGroupCount : Z) (w0 w1 w : World L) :
  migrateLegacyAssets env r w0 = (Done tt, w1) ->
  updateTipPin env r w1 = (Done tt, w) ->
  runPhases env fuel r spendGroupCount w0
  = match (migrateToSafe env r w).1 with
    | Fail e => (Fail ("migrate safe failed: " +:+ e), (migrateToSafe env r w).2)
    | _ => failFast env fuel r spendGroupCount [DrainSafe] (migrateToSafe env r w).2
    end.
Proof.
  intros H1 H2. rewrite runPhases_failFast. unfold phaseOrder.
  cbn [failFast runPhase phaseContext]. rewrite H1, H2.
  pose proof (migrateToSafe_ends env r w) as Hends.
  destruct (migrateToSafe env r w) as [[[] | e |] w3]; cbn [fst snd] in *;
    [reflexivity | reflexivity | congruence].
Qed.

(** C5.  Let the key drawn in a rotation phase be [k].  When the ledger
    accepts the PIN modification, the rotation phase leaves the shared
    record with the new PIN; if it returns success the record with the new
    PIN is in the file at the output path, written by the last two calls of
    the phase, and the later phases of the run start in the world so left.
    If the save fails the phase returns the save's error: that of the
    open, with the files as they were, or that of the write, with the file
    at the output path holding the bytes of the new text the system took
    before the error over what it held; and the run ends there with no
    later phase run.  The same holds of the safe-activation phase and the
    spend key. *)
Theorem C5_write_after_mutate {L Tx} (env : Env L Tx) (r : runner) (w : World L)
    (k : mixinnet.Key) (l1 l2 : L) :
  GenerateKey env (outside w) = (k, l1) ->
  (isOk (mixinnet.KeyFromString (keyFromSeed env) (Keystore.Pin (key w))) = false ->
   ModifyPin env (Keystore.Pin (key w)) (mixinnet.KeyString (Public env k)) l1 = (Ok tt, l2) ->
   writeAfterMutate env r w (Keystore.setPin (key w) (mixinnet.KeyString k))
     (updateTipPin env r w)
   /\ forall fuel spendGroupCount w0,
        migrateLegacyAssets env r w0 = (Done tt, w) ->
        runPhases env fuel r spendGroupCount w0
        = match (updateTipPin env r w).1 with
          | Fail e => (Fail ("update tip pin failed: " +:+ e), (updateTipPin env r w).2)
          | _ => failFast env fuel r spendGroupCount [ActivateSafe; DrainSafe]
                   (updateTipPin env r w).2
          end)
  /\ (isOk (mixinnet.KeyFromString (keyFromSeed env) (Keystore.SpendKey (key w))) = false ->
      SafeMigrate env (mixinnet.KeyString k) (Keystore.Pin (key w)) l1 = (Ok tt, l2) ->
      writeAfterMutate env r w (Keystore.setSpendKey (key w) (mixinnet.KeyString k))
        (migrateToSafe env r w)
      /\ forall fuel spendGroupCount w0 w1,
           migrateLegacyAssets env r w0 = (Done tt, w1) ->
           updateTipPin env r w1 = (Done tt, w) ->
           runPhases env fuel r spendGroupCount w0
           = match (migrateToSafe env r w).1 with
             | Fail e => (Fail ("migrate safe failed: " +:+ e), (migrateToSafe env r w).2)
             | _ => failFast env fuel r spendGroupCount [DrainSafe] (migrateToSafe env r w).2
             end).
Proof.
  intros Hgen. split.
  - intros Hpin Hmod. split.
    + rewrite (updateTipPin_accepted env r w k l1 l2 Hpin Hgen Hmod).
      match goal with |- writeAfterMutate _ _ _ _ (saveKeystore _ _ ?w1) =>
        apply (save_writeAfterMutate env r w w1) end. reflexivity.
    + intros fuel spendGroupCount w0. apply runPhases_from_pin.
  - intros Hkey Hmig. split.
    + rewrite (migrateToSafe_accepted env r w k l1 l2 Hkey Hgen Hmig).
      match goal with |- writeAfterMutate _ _ _ _ (saveKeystore _ _ ?w1) =>
        apply (save_writeAfterMutate env r w w1) end. reflexivity.
    + intros fuel spendGroupCount w0 w1. apply runPhases_from_safe.
Qed.

(** ** C9: the receiver is validated before anything changes *)

(** [main] up to the validation of the receiver, when the command line is
    well-formed, the keystore loads, the client is made and the lookup
    answers. *)
Lemma main_validates {L Tx} (env : Env L Tx) (fuel : nat) (arg0 : string) (args : list string)
    (keystorePath : string) (spendGroupCount : Z) (w : World L)
    (f : File) (k : Keystore.t) (client : Client.t) (body : string) (l1 : L)
    (receiver : User.t) :
  1 <= spendGroupCount <= 256 ->
  files w !! keystorePath = Some f ->
  permits env O_RDONLY (perm f) = true ->
  jsonDecodeKeystore env (content f) = Ok k ->
  NewFromKeystore env (Keystore.base k) = Ok client ->
  httpGet env ("https://echo.yiplee.com/users/" +:+ arg0) (outside w) = (Ok body, l1) ->
  jsonDecodeUser env body = Ok receiver ->
  main env fuel (arg0 :: args) keystorePath spendGroupCount w
  = let w1 := mkWorld l1 (files w) k
                (trace w ++ [EvOpenFile keystorePath O_RDONLY;
                             EvHttpGet ("https://echo.yiplee.com/users/" +:+ arg0)]) in
    if ToInt64 env (User.IdentityNumber receiver) =? 0
    then (Fail "receiver is not a mixin messenger user", w1)
    else if String.eqb (User.UserID receiver) (Client.ClientID client)
    then (Fail "receiver is self", w1)
    else bind (conformContinue env)
           (fun continue =>
              if negb continue then ret tt
              else runPhases env fuel (mkRunner client keystorePath (User.UserID receiver))
                     spendGroupCount) w1.
Proof.
  intros Hgroup Hfile Hperm Hkey Hclient Hget Huser. unfold main.
  destruct (Z.leb_spec spendGroupCount 0); [lia |].
  destruct (Z.ltb_spec 256 spendGroupCount); [lia |]. cbn [orb].
  unfold bind at 1. unfold wrap at 1. unfold loadKeystore, bind at 1, openFile.
  rewrite Hfile, Hperm. unfold lift at 1. rewrite Hkey.
  unfold bind at 1. unfold putKey. unfold bind at 1. unfold wrap at 1, lift at 1.
  rewrite Hclient. unfold bind at 1. unfold wrap at 1.
  unfold fetchUserInfo, bind at 1, call. cbn [outside files key trace].
  rewrite Hget. unfold lift. rewrite Huser. rewrite <- app_assoc. cbn [app].
  destruct (ToInt64 env (User.IdentityNumber receiver) =? 0); [reflexivity |].
  destruct (String.eqb (User.UserID receiver) (Client.ClientID client)); reflexivity.
Qed.

(** C9.  Let the run have loaded the keystore, made the client and looked
    the receiver up.  If the receiver's identity number converts to 0 the
    run ends in the error saying that the receiver is not a messenger
    user; if the receiver's wallet identity is the client's own, the run
    ends in a validation error too, the one saying that the receiver is
    self unless the identity number is 0 as well.  The two errors differ.
    In both cases the run has only opened the keystore for reading and
    looked the receiver up: the files are as they were and no call that
    changes anything was made. *)
Theorem C9_receiver_validated_first {L Tx} (env : Env L Tx) (fuel : nat)
    (arg0 : string) (args : list string) (keystorePath : string) (spendGroupCount : Z)
    (w : World L) (f : File) (k : Keystore.t) (client : Client.t) (body : string) (l1 : L)
    (receiver : User.t) :
  1 <= spendGroupCount <= 256 ->
  files w !! keystorePath = Some f ->
  permits env O_RDONLY (perm f) = true ->
  jsonDecodeKeystore env (content f) = Ok k ->
  NewFromKeystore env (Keystore.base k) = Ok client ->
  httpGet env ("https://echo.yiplee.com/users/" +:+ arg0) (outside w) = (Ok body, l1) ->
  jsonDecodeUser env body = Ok receiver ->
  ToInt64 env (User.IdentityNumber receiver) = 0
  \/ User.UserID receiver = Client.ClientID client ->
  exists msg ext,
    main env fuel (arg0 :: args) keystorePath spendGroupCount w
    = (Fail msg, mkWorld l1 (files w) k (trace w ++ ext))
    /\ msg = (if ToInt64 env (User.IdentityNumber receiver) =? 0
              then "receiver is not a mixin messenger user"
              else "receiver is self")
    /\ "receiver is not a mixin messenger user" <> "receiver is self"
    /\ Forall (fun ev => mutating ev = false) ext.
Proof.
  intros Hgroup Hfile Hperm Hkey Hclient Hget Huser Hbad.
  rewrite (main_validates env fuel arg0 args keystorePath spendGroupCount w f k client
             body l1 receiver) by assumption.
  cbn zeta. eexists _, _. split; [| split; [reflexivity | split; [discriminate |]]].
  - destruct (Z.eqb_spec (ToInt64 env (User.IdentityNumber receiver)) 0) as [Hz | Hnz];
      [reflexivity |].
    destruct Hbad as [Hz | Hself]; [contradiction |].
    apply String.eqb_eq in Hself. rewrite Hself. reflexivity.
  - repeat constructor.
Qed.


(** ** C2: enumerating the unspent outputs page by page *)

Section Pagination.

Implicit Types (unspent done rest page : list SafeUtxo.t).

Lemma ascending_lower lo lo' unspent :
  lo' <= lo -> ascending lo unspent = true -> ascending lo' unspent = true.
Proof.
  destruct unspent as [| u rest]; [reflexivity |]. cbn. intros Hlo H.
  apply andb_true_iff in H as [H Hrest]. apply andb_true_iff in H as [H1 H2].
  apply Z.leb_le in H1. rewrite Hrest, H2, andb_true_r.
  apply andb_true_iff. split; [apply Z.leb_le; lia | reflexivity].
Qed.

Lemma ascending_all_from lo unspent :
  ascending lo unspent = true ->
  List.filter (fun u => lo <=? SafeUtxo.Sequence u) unspent = unspent.
Proof.
  revert lo. induction unspent as [| u rest IH]; intros lo H; [reflexivity |].
  cbn in *. apply andb_true_iff in H as [H Hrest]. apply andb_true_iff in H as [H1 H2].
  rewrite H1. f_equal. apply IH. eapply ascending_lower; [| exact Hrest].
  apply Z.leb_le in H1. lia.
Qed.

(** Past an output [x] of an ascending ledger lie exactly the outputs that
    follow it. *)
Lemma ascending_after lo done x rest :
  ascending lo (done ++ x :: rest) = true ->
  List.filter (fun u => SafeUtxo.Sequence x + 1 <=? SafeUtxo.Sequence u) (done ++ x :: rest)
  = rest
  /\ lo <= SafeUtxo.Sequence x /\ SafeUtxo.Sequence x < 2 ^ 64 - 1.
Proof.
  revert lo. induction done as [| y done IH]; intros lo H; cbn in H |- *;
    apply andb_true_iff in H as [H Hrest]; apply andb_true_iff in H as [H1 H2];
    apply Z.leb_le in H1; apply Z.ltb_lt in H2.
  - destruct (Z.leb_spec (SafeUtxo.Sequence x + 1) (SafeUtxo.Sequence x)); [lia |].
    split; [apply ascending_all_from; exact Hrest | lia].
  - destruct (IH _ Hrest) as (Hf & Hx & Hb).
    destruct (Z.leb_spec (SafeUtxo.Sequence x + 1) (SafeUtxo.Sequence y)); [lia |].
    split; [exact Hf | lia].
Qed.

Lemma ascending_nonneg unspent x :
  ascending 0 unspent = true -> In x unspent -> 0 <= SafeUtxo.Sequence x < 2 ^ 64 - 1.
Proof.
  intros Hasc Hin. apply in_split in Hin as (done & rest & ->).
  destruct (ascending_after 0 done x rest Hasc) as (_ & H1 & H2). lia.
Qed.

Lemma collectPage_app page1 page2 st :
  collectPage (page1 ++ page2) st = collectPage page2 (collectPage page1 st).
Proof. unfold collectPage. apply fold_left_app. Qed.

(** After a page that is not empty, the cursor is one past the sequence
    of its last output, and the rest of the request is as it was. *)
Lemma collectPage_cursor page x opt assets :
  (collectPage (page ++ [x]) (opt, assets)).1
  = SafeListUtxoOption.mk (uint64 (SafeUtxo.Sequence x + 1))
      (SafeListUtxoOption.Limit opt) (SafeListUtxoOption.Order opt)
      (SafeListUtxoOption.State opt).
Proof.
  rewrite collectPage_app.
  assert (Hkeep : forall p st,
            SafeListUtxoOption.Limit (collectPage p st).1 = SafeListUtxoOption.Limit st.1
            /\ SafeListUtxoOption.Order (collectPage p st).1 = SafeListUtxoOption.Order st.1
            /\ SafeListUtxoOption.State (collectPage p st).1 = SafeListUtxoOption.State st.1).
  { induction p as [| u p IH]; intros [o a]; [auto |].
    cbn [collectPage fold_left]. fold (collectPage p).
    destruct (IH (SafeListUtxoOption.mk (uint64 (SafeUtxo.Sequence u + 1))
                    (SafeListUtxoOption.Limit o) (SafeListUtxoOption.Order o)
                    (SafeListUtxoOption.State o),
                  <[SafeUtxo.AssetID u := default [] (a !! SafeUtxo.AssetID u) ++ [u]]> a))
      as (H1 & H2 & H3). auto. }
  destruct (Hkeep page (opt, assets)) as (H1 & H2 & H3).
  destruct (collectPage page (opt, assets)) as [o a]. cbn in *. congruence.
Qed.

(** The map the page loop builds does not depend on the request it
    carries along. *)
Lemma collectPage_assets page opt opt' assets :
  (collectPage page (opt, assets)).2 = (collectPage page (opt', assets)).2.
Proof.
  revert opt opt' assets. induction page as [| u page IH]; intros opt opt' assets;
    [reflexivity |].
  cbn [collectPage fold_left]. fold (collectPage page). apply IH.
Qed.

(** Under an asset identifier the map holds that asset's outputs, in the
    order in which they were met, each once. *)
Lemma collectPage_lookup page opt assets id :
  default [] ((collectPage page (opt, assets)).2 !! id)
  = default [] (assets !! id)
    ++ List.filter (fun u => String.eqb (SafeUtxo.AssetID u) id) page.
Proof.
  revert opt assets. induction page as [| u page IH]; intros opt assets.
  - cbn. rewrite app_nil_r. reflexivity.
  - cbn [collectPage fold_left]. fold (collectPage page). rewrite IH. cbn [List.filter].
    destruct (String.eqb_spec (SafeUtxo.AssetID u) id) as [-> | Hne].
    + rewrite lookup_insert_eq. cbn. rewrite <- app_assoc. reflexivity.
    + rewrite lookup_insert_ne by exact Hne. reflexivity.
Qed.

Lemma ceilDiv_nonneg n d : 0 <= n -> 0 < d -> 0 <= ceilDiv n d.
Proof. intros Hn Hd. unfold ceilDiv. apply Z.div_pos; lia. Qed.

Lemma listPage_at done rest opt :
  ascending 0 (done ++ rest) = true -> cursorAt done opt ->
  listPage (done ++ rest) opt = take (Z.to_nat (SafeListUtxoOption.Limit opt)) rest.
Proof.
  intros Hasc Hcur. unfold listPage, cursorAt in *. f_equal.
  destruct done as [| y done'] using rev_ind.
  - cbn in Hcur. rewrite Hcur. apply ascending_all_from. exact Hasc.
  - rewrite last_snoc in Hcur. rewrite Hcur. rewrite <- app_assoc in *. cbn [app] in *.
    apply (ascending_after 0 done' y rest Hasc).
Qed.

Section Loop.

Context {L Tx : Type} (env : Env L Tx) (unspent : list SafeUtxo.t) (pageSize : Z).
Hypothesis ledger_lists :
  forall opt l, (SafeListUtxos env opt l).1 = Ok (listPage unspent opt).
Hypothesis ledger_ascending : ascending 0 unspent = true.
Hypothesis pageSize_positive : 1 <= pageSize.

Lemma listLoop_enumerates fuel done rest opt assets w :
  unspent = done ++ rest -> cursorAt done opt ->
  SafeListUtxoOption.Limit opt = pageSize ->
  ceilDiv (len rest) pageSize + 1 <= Z.of_nat fuel ->
  exists ext,
    (listLoop env fuel opt assets w).1 = Done (collectPage rest (opt, assets)).2
    /\ trace (listLoop env fuel opt assets w).2 = trace w ++ ext
    /\ enumerated unspent rest pageSize ext.
Proof.
  revert done rest opt assets w.
  induction fuel as [| fuel IH]; intros done rest opt assets w Hsplit Hcur Hlimit Hfuel.
  - pose proof (ceilDiv_nonneg (len rest) pageSize (len_nonneg rest)). lia.
  - cbn [listLoop]. unfold bind, wrap, call.
    pose proof (ledger_lists opt (outside w)) as Hpage.
    destruct (SafeListUtxos env opt (outside w)) as [res l1]. cbn [fst] in Hpage. subst res.
    assert (Hp : listPage unspent opt = take (Z.to_nat pageSize) rest).
    { rewrite Hsplit, <- Hlimit. apply listPage_at; [rewrite <- Hsplit |]; assumption. }
    rewrite Hp.
    destruct rest as [| u rest0].
    + rewrite take_nil. cbn [len length Z.of_nat Z.eqb fst snd trace collectPage fold_left].
      exists [EvSafeListUtxos opt]. split; [reflexivity |]. split; [reflexivity |].
      unfold enumerated. cbn [pageRequests map concat len length].
      rewrite Hp, take_nil. cbn [app]. split; [reflexivity |]. split.
      * change (Z.of_nat 0) with 0. rewrite ceilDiv_zero by lia. reflexivity.
      * split; [reflexivity |]. exists [], opt. rewrite Hp, take_nil. auto.
    + set (rest := u :: rest0) in *.
      set (page := take (Z.to_nat pageSize) rest) in *.
      assert (Hlen : len page = Z.min pageSize (len rest)).
      { unfold page, len. rewrite length_take. lia. }
      assert (Hrest : 0 < len rest) by (unfold rest, len; cbn [length]; lia).
      destruct (Z.eqb_spec (len page) 0) as [Hz | _]; [lia |].
      destruct (collectPage page (opt, assets)) as [opt' assets'] eqn:Hcollect.
      assert (Hlast : exists page' x, page = page' ++ [x]).
      { destruct page as [| p0 page0] using rev_ind; [unfold len in *; cbn in *; lia |].
        eauto. }
      destruct Hlast as (page' & x & Hpage').
      assert (Hx : 0 <= SafeUtxo.Sequence x < 2 ^ 64 - 1).
      { apply (ascending_nonneg unspent x ledger_ascending).
        rewrite Hsplit, <- (take_drop (Z.to_nat pageSize) rest). fold page. rewrite Hpage'.
        apply in_or_app. right. apply in_or_app. left. apply in_or_app. right. left.
        reflexivity. }
      assert (Hopt' : opt' = SafeListUtxoOption.mk (SafeUtxo.Sequence x + 1)
                               (SafeListUtxoOption.Limit opt) (SafeListUtxoOption.Order opt)
                               (SafeListUtxoOption.State opt)).
      { pose proof (collectPage_cursor page' x opt assets) as Hc.
        rewrite <- Hpage', Hcollect in Hc. cbn [fst] in Hc. rewrite Hc.
        unfold uint64. rewrite Z.mod_small by lia. reflexivity. }
      destruct (IH (done ++ page) (drop (Z.to_nat pageSize) rest) opt' assets'
                  (mkWorld l1 (files w) (key w) (trace w ++ [EvSafeListUtxos opt])))
        as (ext & Hdone & Htrace & Hself & Hcount & Hcat & opts & final & Hreq & Hfinal & Hopts).
      * rewrite <- app_assoc. unfold page. rewrite take_drop. exact Hsplit.
      * unfold cursorAt. rewrite Hpage', app_assoc, last_snoc, Hopt'. reflexivity.
      * rewrite Hopt'. exact Hlimit.
      * rewrite (ceilDiv_step (len rest) pageSize) in Hfuel by lia.
        replace (len (drop (Z.to_nat pageSize) rest)) with (Z.max 0 (len rest - pageSize));
          [lia |]. unfold len. rewrite length_drop. lia.
      * exists (EvSafeListUtxos opt :: ext). split; [| split].
        -- rewrite Hdone. f_equal.
           rewrite <- (take_drop (Z.to_nat pageSize) rest) at 2. fold page.
           rewrite collectPage_app, Hcollect. reflexivity.
        -- rewrite Htrace. cbn [trace]. rewrite <- app_assoc. reflexivity.
        -- unfold enumerated. cbn [pageRequests map concat]. rewrite Hp. fold page.
           split; [f_equal; exact Hself |]. split; [| split].
           ++ unfold len in *. cbn [length]. rewrite Nat2Z.inj_succ, Hcount.
              rewrite (ceilDiv_step (Z.of_nat (length rest)) pageSize) by lia.
              rewrite length_drop.
              replace (Z.of_nat (length rest - Z.to_nat pageSize))
                with (Z.max 0 (Z.of_nat (length rest) - pageSize)) by lia.
              lia.
           ++ rewrite Hcat. unfold page. apply take_drop.
           ++ exists (opt :: opts), final. rewrite Hreq. split; [reflexivity |].
              split; [exact Hfinal |]. constructor; [| exact Hopts].
              rewrite Hp. fold page. rewrite Hpage'. intros Hnil.
              apply app_eq_nil in Hnil as [_ Hnil]. discriminate.
Qed.

End Loop.

End Pagination.

(** C2 (amended).  Let the ledger hold the [M] unspent outputs [unspent],
    in ascending order of sequences that are never reused and lie below
    [2^64 - 1], and let it answer every listing request with the page of
    [listPage].  For every page size [P >= 1] the enumeration loop, started
    at offset zero, ends after exactly [ceil(M / P) + 1] requests: the
    pages answered to all but the last are not empty, the last page is
    empty and ends the loop (one request, answered empty, when [M = 0]).
    The pages answered, put together in order, are the ledger's outputs, so
    that every output is met exactly once, and the map built holds under
    each asset exactly that asset's outputs, in order. *)
Theorem C2_enumeration_requests {L Tx} (env : Env L Tx) (unspent : list SafeUtxo.t)
    (pageSize : Z) (fuel : nat) (w : World L) :
  (forall opt l, (SafeListUtxos env opt l).1 = Ok (listPage unspent opt)) ->
  ascending 0 unspent = true ->
  1 <= pageSize ->
  ceilDiv (len unspent) pageSize + 1 <= Z.of_nat fuel ->
  let opt := SafeListUtxoOption.mk 0 pageSize "ASC" mixin.SafeUtxoStateUnspent in
  exists ext,
    (listLoop env fuel opt ∅ w).1 = Done (groupByAsset unspent)
    /\ trace (listLoop env fuel opt ∅ w).2 = trace w ++ ext
    /\ enumerated unspent unspent pageSize ext
    /\ len (pageRequests ext) = ceilDiv (len unspent) pageSize + 1
    /\ (unspent = [] -> len (pageRequests ext) = 1)
    /\ (forall id,
          default [] (groupByAsset unspent !! id)
          = List.filter (fun u => String.eqb (SafeUtxo.AssetID u) id) unspent).
Proof.
  intros Hlists Hasc Hsize Hfuel opt.
  destruct (listLoop_enumerates env unspent pageSize Hlists Hasc Hsize fuel [] unspent
              opt ∅ w) as (ext & Hdone & Htrace & Henum); try reflexivity; [assumption |].
  exists ext. split; [| split; [exact Htrace | split; [exact Henum | split; [| split]]]].
  - rewrite Hdone. f_equal. apply collectPage_assets.
  - apply Henum.
  - intros ->. destruct Henum as (_ & Hcount & _). rewrite Hcount.
    change (len []) with 0. rewrite ceilDiv_zero by lia. reflexivity.
  - intros id. unfold groupByAsset. rewrite collectPage_lookup, lookup_empty. reflexivity.
Qed.

(** ** The JSON codec of the concrete environment

    The decoder reads back every record from any text that begins with the
    encoder's text for it, whatever follows. *)

Section FixtureCodec.

Import Fixture.

Lemma append_cons (x : ascii) (a b : string) : String x a +:+ b = String x (a +:+ b).
Proof. reflexivity. Qed.

Lemma append_assoc (a b c : string) : (a +:+ b) +:+ c = a +:+ (b +:+ c).
Proof.
  induction a as [| x a IH]; [reflexivity |]. rewrite !append_cons, IH. reflexivity.
Qed.

Lemma append_nil_r (a : string) : a +:+ EmptyString = a.
Proof.
  induction a as [| x a IH]; [reflexivity |]. rewrite append_cons, IH. reflexivity.
Qed.

Lemma snoc_append acc c s : snoc acc c +:+ s = acc +:+ String c s.
Proof. unfold snoc. rewrite append_assoc. reflexivity. Qed.

Lemma eqb_backslash : Ascii.eqb backslash backslash = true.
Proof. reflexivity. Qed.

Lemma decode_value_body s : forall acc name k rest,
  decodeFrom (InValue name acc false) k (escape s +:+ String dquote rest)
  = decodeFrom AfterValue (setField k name (acc +:+ s)) rest.
Proof.
  induction s as [| c s IH]; intros acc name k rest.
  - cbn [escape]. change (EmptyString +:+ String dquote rest) with (String dquote rest).
    cbn [decodeFrom]. change (Ascii.eqb dquote backslash) with false.
    change (Ascii.eqb dquote dquote) with true. cbn iota.
    rewrite append_nil_r. reflexivity.
  - cbn [escape]. destruct (Ascii.eqb c dquote || Ascii.eqb c backslash)%bool eqn:Hc.
    + rewrite !append_cons. cbn [decodeFrom]. rewrite eqb_backslash.
      rewrite IH, snoc_append. reflexivity.
    + apply orb_false_iff in Hc as [Hq Hb].
      rewrite !append_cons. cbn [decodeFrom]. rewrite Hb, Hq. rewrite IH, snoc_append.
      reflexivity.
Qed.

Lemma decode_key_body s : forall acc k rest,
  decodeFrom (InKey acc false) k (escape s +:+ String dquote rest)
  = decodeFrom (AfterKey (acc +:+ s)) k rest.
Proof.
  induction s as [| c s IH]; intros acc k rest.
  - cbn [escape]. change (EmptyString +:+ String dquote rest) with (String dquote rest).
    cbn [decodeFrom]. change (Ascii.eqb dquote backslash) with false.
    change (Ascii.eqb dquote dquote) with true. cbn iota.
    rewrite append_nil_r. reflexivity.
  - cbn [escape]. destruct (Ascii.eqb c dquote || Ascii.eqb c backslash)%bool eqn:Hc.
    + rewrite !append_cons. cbn [decodeFrom]. rewrite eqb_backslash.
      rewrite IH, snoc_append. reflexivity.
    + apply orb_false_iff in Hc as [Hq Hb].
      rewrite !append_cons. cbn [decodeFrom]. rewrite Hb, Hq. rewrite IH, snoc_append.
      reflexivity.
Qed.

Lemma append_nil_l (a : string) : EmptyString +:+ a = a.
Proof. reflexivity. Qed.

Ltac flatten :=
  repeat first [rewrite append_assoc | rewrite append_cons | rewrite append_nil_l].

Lemma decode_member name value k rest :
  decodeFrom BeforeKey k (member name value +:+ rest)
  = decodeFrom AfterValue (setField k name value) rest.
Proof.
  unfold member, quoted. flatten. cbn [decodeFrom].
  change (isSpace newline) with true. change (isSpace " ") with true. cbn iota.
  change (isSpace dquote) with false. change (Ascii.eqb dquote dquote) with true. cbn iota.
  rewrite decode_key_body. cbn [decodeFrom].
  change (isSpace ":") with false. change (Ascii.eqb ":" ":") with true.
  change (isSpace " ") with true. cbn iota.
  change (isSpace dquote) with false. change (Ascii.eqb dquote dquote) with true. cbn iota.
  rewrite decode_value_body. reflexivity.
Qed.

Lemma decode_separator k name value rest :
  decodeFrom AfterValue k (String "," (member name value +:+ rest))
  = decodeFrom AfterValue (setField k name value) rest.
Proof.
  cbn [decodeFrom]. change (isSpace ",") with false. change (Ascii.eqb "," ",") with true.
  cbn iota. apply decode_member.
Qed.

Lemma decode_close k rest :
  decodeFrom AfterValue k (String newline (String "}" rest)) = Ok k.
Proof. reflexivity. Qed.

Lemma decode_encode k rest : decodeKeystore (encodeKeystore k +:+ rest) = Ok k.
Proof.
  unfold decodeKeystore, encodeKeystore.
  destruct (String.eqb_spec (Keystore.SpendKey k) "") as [Hs | Hs].
  - flatten.
    cbn [decodeFrom]. change (isSpace "{") with false. change (Ascii.eqb "{" "{") with true.
    cbn iota. rewrite decode_member. rewrite !decode_separator. rewrite decode_close.
    destruct k as [[c1 c2 c3 c4 c5] pin sk]. cbn in *. subst sk. reflexivity.
  - flatten.
    cbn [decodeFrom]. change (isSpace "{") with false. change (Ascii.eqb "{" "{") with true.
    cbn iota. rewrite decode_member. rewrite !decode_separator. rewrite decode_close.
    destruct k as [[c1 c2 c3 c4 c5] pin sk]. reflexivity.
Qed.

End FixtureCodec.

(** ** C3: saving over an existing keystore file *)

Lemma saveKeystore_then_load {L Tx} (env : Env L Tx) (r : runner) (w : World L) (f : File) :
  files w !! output r = Some f ->
  permits env O_RDONLY (perm f) = true ->
  (forall rest,
      jsonDecodeKeystore env (jsonEncodeKeystore env (key w) +:+ rest) = Ok (key w)) ->
  (exists f', files (saveKeystore env r w).2 !! output r = Some f' /\ perm f' = perm f)
  /\ (forall path, path <> output r ->
        files (saveKeystore env r w).2 !! path = files w !! path)
  /\ ((saveKeystore env r w).1 = Done tt
      <-> permits env O_WRONLY (perm f) = true
          /\ (fileWrite env (output r) (jsonEncodeKeystore env (key w)) (outside w)).1 = None)
  /\ ((saveKeystore env r w).1 = Done tt ->
      (exists f',
          files (saveKeystore env r w).2 !! output r = Some f'
          /\ content f' = writeAt0 (jsonEncodeKeystore env (key w)) (content f))
      /\ forall w',
           files w' = files (saveKeystore env r w).2 ->
           loadKeystore env (output r) w'
           = (Done (key w),
              mkWorld (outside w') (files w') (key w')
                (trace w' ++ [EvOpenFile (output r) O_RDONLY]))).
Proof.
  intros Hfile Hread Hcodec. rewrite saveKeystore_eq. cbn zeta. rewrite Hfile.
  destruct (permits env O_WRONLY (perm f)) eqn:Hwrite.
  - destruct (fileWrite env (output r) (jsonEncodeKeystore env (key w)) (outside w))
      as [[[n e] |] l']; cbn [fst snd files].
    + split; [eexists; split; [apply lookup_insert_eq | reflexivity] |].
      split; [intros path Hne; apply lookup_insert_ne; congruence |].
      split; [split; [discriminate | intros [_ H]; discriminate H] | discriminate].
    + split; [eexists; split; [apply lookup_insert_eq | reflexivity] |].
      split; [intros path Hne; apply lookup_insert_ne; congruence |].
      split; [split; auto |]. intros _.
      split; [eexists; split; [apply lookup_insert_eq | reflexivity] |].
      intros w' Hfiles. unfold loadKeystore, bind, openFile, lift.
      rewrite Hfiles, lookup_insert_eq. cbn [perm content]. rewrite Hread.
      cbn [content]. unfold writeAt0.
      match goal with |- context [jsonDecodeKeystore env (_ +:+ ?rest)] =>
        pose proof (Hcodec rest) as Hback end.
      rewrite Hback. reflexivity.
  - cbn [fst snd files]. split; [exists f; auto |]. split; [reflexivity |].
    split; [split; [discriminate | intros [H _]; discriminate H] | discriminate].
Qed.

(** C3.  Let a file exist at the output path, whatever its length and
    contents, which the system lets the process open for reading, and let
    the JSON decoder read the record back from any text that begins with
    the encoder's text for it.  Whatever the save returns, the file is
    still there with the permission bits it had, and no other file has
    changed.  The save returns success exactly when the system lets the
    process open the file for writing and takes the whole text; then the
    file holds the record's text followed by what the old contents had
    beyond it, and loading the output path in any world with these files,
    whatever record that world has in memory, opens the file for reading
    and returns exactly the saved record. *)
Theorem C3_save_then_load {L Tx} (env : Env L Tx) (r : runner) (w : World L) (f : File) :
  files w !! output r = Some f ->
  permits env O_RDONLY (perm f) = true ->
  (forall rest,
      jsonDecodeKeystore env (jsonEncodeKeystore env (key w) +:+ rest) = Ok (key w)) ->
  (exists f', files (saveKeystore env r w).2 !! output r = Some f' /\ perm f' = perm f)
  /\ (forall path, path <> output r ->
        files (saveKeystore env r w).2 !! path = files w !! path)
  /\ ((saveKeystore env r w).1 = Done tt
      <-> permits env O_WRONLY (perm f) = true
          /\ (fileWrite env (output r) (jsonEncodeKeystore env (key w)) (outside w)).1 = None)
  /\ ((saveKeystore env r w).1 = Done tt ->
      (exists f',
          files (saveKeystore env r w).2 !! output r = Some f'
          /\ content f' = writeAt0 (jsonEncodeKeystore env (key w)) (content f))
      /\ forall w',
           files w' = files (saveKeystore env r w).2 ->
           loadKeystore env (output r) w'
           = (Done (key w),
              mkWorld (outside w') (files w') (key w')
                (trace w' ++ [EvOpenFile (output r) O_RDONLY]))).
Proof. apply saveKeystore_then_load. Qed.

(** In the concrete environment this holds of every record and of every
    file at the output path that its owner may read and write, whatever
    the file held before. *)
Lemma fixture_save_then_load (legacy : list Asset.t) (unspent : list SafeUtxo.t)
    (user : User.t) (answer : string) (k : Keystore.t) (old : string) (t : list Event) :
  let env := Fixture.env legacy unspent user answer in
  let w := mkWorld tt {[ Fixture.keystorePath := mkFile 384 old ]} k t in
  (saveKeystore env Fixture.theRunner w).1 = Done tt
  /\ (loadKeystore env Fixture.keystorePath (saveKeystore env Fixture.theRunner w).2).1
     = Done k.
Proof.
  intros env w.
  destruct (saveKeystore_then_load env Fixture.theRunner w (mkFile 384 old))
    as (_ & _ & Hiff & Hload).
  - apply lookup_singleton_eq.
  - reflexivity.
  - intros rest. apply decode_encode.
  - assert (Hsave : (saveKeystore env Fixture.theRunner w).1 = Done tt).
    { apply Hiff. split; reflexivity. }
    split; [exact Hsave |].
    destruct (Hload Hsave) as [_ Hback].
    change Fixture.keystorePath with (output Fixture.theRunner) at 1.
    rewrite (Hback _ eq_refl). reflexivity.
Qed.

(** ** The claims at concrete inputs *)

(** The in-place filter on a slice with zero balances in between. *)
Example compact_keeps_order :
  map Asset.AssetID
    (compact [Fixture.assetA; Fixture.assetB; Fixture.assetA;
              Asset.mk "asset-c" "C" (decimal.mkDecimal 3 2)])
  = ["asset-b"; "asset-c"]%string.
Proof. reflexivity. Qed.

(** 1.5 + 0.25 + 2e3 = 2001.75, held as 200175e-2. *)
Example sumUtxos_mixed_exponents :
  sumUtxos [SafeUtxo.mk "o1" "asset-1" (decimal.mkDecimal 15 (-1)) 1;
            SafeUtxo.mk "o2" "asset-1" (decimal.mkDecimal 25 (-2)) 2;
            SafeUtxo.mk "o3" "asset-1" (decimal.mkDecimal 2 3) 3]
  = decimal.mkDecimal 200175 (-2).
Proof. reflexivity. Qed.

(** A six-digit PIN is no key; the text of a key is one, and so is the
    text of the 64 bytes of a private key in its long form, whose key is
    derived from the first 32. *)
Example legacy_pin_is_no_key (fromSeed : list ascii -> mixinnet.Key) :
  mixinnet.KeyFromString fromSeed "123456" = Err "invalid key size 3"
  /\ isOk (mixinnet.KeyFromString fromSeed (mixinnet.KeyString Fixture.sampleKey)) = true
  /\ mixinnet.KeyFromString fromSeed
       (mixinnet.KeyString Fixture.sampleKey +:+ mixinnet.KeyString Fixture.sampleKey)
     = Ok (fromSeed (mixinnet.bytes Fixture.sampleKey)).
Proof. repeat split; reflexivity. Qed.

(** The errors of the parser: an empty text has no bytes, a character that
    is no hexadecimal digit is reported as [%#U] prints it, and an odd
    number of digits is reported after the digits were checked. *)
Example KeyFromString_errors (fromSeed : list ascii -> mixinnet.Key) :
  mixinnet.KeyFromString fromSeed "" = Err "invalid key size 0"
  /\ mixinnet.KeyFromString fromSeed "12z4"
     = Err "encoding/hex: invalid byte: U+007A 'z'"
  /\ mixinnet.KeyFromString fromSeed (String (ascii_of_nat 10) "0")
     = Err "encoding/hex: invalid byte: U+000A"
  /\ mixinnet.KeyFromString fromSeed "123" = Err "encoding/hex: odd length hex string"
  /\ mixinnet.KeyFromString fromSeed "12 " = Err "encoding/hex: invalid byte: U+0020 ' '".
Proof. repeat split; reflexivity. Qed.

(** A whole run over a ledger with the balances of the fixture and five
    unspent outputs, in groups of two: it returns, the keystore file then
    loads as the record with both secrets rotated, one legacy transfer was
    asked for and three transactions were built, of two, two and one
    inputs. *)
Example whole_run :
  let run := main (Fixture.ledger 5) 10 ["7000"%string] Fixture.keystorePath 2
               (Fixture.world Fixture.legacyKeystore "") in
  run.1 = Done tt
  /\ (loadKeystore (Fixture.ledger 5) Fixture.keystorePath run.2).1
     = Done Fixture.rotatedKeystore
  /\ length (transfers (trace run.2)) = 1%nat
  /\ map length (builtGroups (trace run.2)) = [2; 2; 1]%nat
  /\ len (pageRequests (trace run.2)) = 2.
Proof. vm_compute. repeat split; reflexivity. Qed.

(** The scenario of 1001 outputs and a limit of 256: four groups, of 256,
    256, 256 and 233 outputs. *)
Example spend_groups_1001_by_256 :
  option_map (map length) (spendGroups 1002 256 (Fixture.utxos 1001) 0)
  = Some [256; 256; 256; 233]%nat.
Proof. vm_compute. reflexivity. Qed.

(** [C1_spend_groups] at 1001 outputs and the limit 256, and the program's
    loop over them at a ledger that accepts everything. *)
Lemma C1_spend_groups_witness :
  1 <= 256 <= 256
  /\ exists groups,
       spendGroups (S (length (Fixture.utxos 1001))) 256 (Fixture.utxos 1001) 0 = Some groups
       /\ len groups = ceilDiv (len (Fixture.utxos 1001)) 256
       /\ Forall (fun g => 1 <= len g <= 256) groups
       /\ concat groups = Fixture.utxos 1001
       /\ exists n,
            builtGroups
              (trace (spendLoop (Fixture.ledger 1001) (S (length (Fixture.utxos 1001)))
                        Fixture.theRunner 256 Fixture.sampleKey (Fixture.utxos 1001) 0
                        (Fixture.world Fixture.rotatedKeystore "")).2)
            = [] ++ take n groups
            /\ (n <= length groups)%nat.
Proof.
  split; [lia |].
  destruct (C1_spend_groups (Fixture.utxos 1001) 256 ltac:(lia))
    as (groups & Hrun & Hlen & _ & Hsize & _ & Hcat & _ & Hloop).
  exists groups.
  destruct (Hloop unit unit (Fixture.ledger 1001) Fixture.theRunner Fixture.sampleKey
              (Fixture.world Fixture.rotatedKeystore "")) as (n & Hbuilt & Hn & _).
  repeat (split; [assumption |]). exists n. split; assumption.
Defined.

(** C2 as first stated fails: with one unspent output and the program's
    page size of 500 the loop asks for two pages, not for
    [ceil(1 / 500) = 1]. *)
Lemma C2_one_output_two_requests :
  ascending 0 (Fixture.utxos 1) = true
  /\ Fixture.enumerateOne.1 = Done (groupByAsset (Fixture.utxos 1))
  /\ len (pageRequests (trace Fixture.enumerateOne.2)) = 2
  /\ len (pageRequests (trace Fixture.enumerateOne.2))
     <> ceilDiv (len (Fixture.utxos 1)) 500.
Proof.
  split; [reflexivity |].
  split; [vm_compute; reflexivity |]. split; [vm_compute; reflexivity |].
  vm_compute. discriminate.
Qed.

(** [C2_enumeration_requests] at three outputs and pages of two. *)
Lemma C2_enumeration_requests_witness :
  exists ext,
    (listLoop (Fixture.ledger 3) 4
       (SafeListUtxoOption.mk 0 2 "ASC" mixin.SafeUtxoStateUnspent) ∅
       (Fixture.world Fixture.legacyKeystore "")).1
    = Done (groupByAsset (Fixture.utxos 3))
    /\ len (pageRequests ext) = ceilDiv (len (Fixture.utxos 3)) 2 + 1.
Proof.
  destruct (C2_enumeration_requests (Fixture.ledger 3) (Fixture.utxos 3) 2 4
              (Fixture.world Fixture.legacyKeystore ""))
    as (ext & Hdone & _ & _ & Hcount & _).
  - intros opt l. reflexivity.
  - reflexivity.
  - lia.
  - vm_compute. discriminate.
  - exists ext. split; assumption.
Defined.

(** [C3_save_then_load] at a file that holds a longer, older text, loaded
    again by a process that starts with an empty record. *)
Lemma C3_save_then_load_witness :
  (saveKeystore (Fixture.ledger 0) Fixture.theRunner Fixture.staleWorld).1 = Done tt
  /\ loadKeystore (Fixture.ledger 0) Fixture.keystorePath
       (mkWorld tt
          (files (saveKeystore (Fixture.ledger 0) Fixture.theRunner Fixture.staleWorld).2)
          Keystore.zero [])
     = (Done Fixture.legacyKeystore,
        mkWorld tt
          (files (saveKeystore (Fixture.ledger 0) Fixture.theRunner Fixture.staleWorld).2)
          Keystore.zero [EvOpenFile Fixture.keystorePath O_RDONLY]).
Proof.
  destruct (C3_save_then_load (Fixture.ledger 0) Fixture.theRunner Fixture.staleWorld
              (mkFile 384 (Fixture.encodeKeystore Fixture.rotatedKeystore)))
    as (_ & _ & Hsave & Hload).
  - reflexivity.
  - reflexivity.
  - intros rest. reflexivity.
  - assert (Hdone : (saveKeystore (Fixture.ledger 0) Fixture.theRunner
                       Fixture.staleWorld).1 = Done tt).
    { apply Hsave. split; reflexivity. }
    split; [exact Hdone |].
    destruct (Hload Hdone) as [_ Hback].
    exact (Hback (mkWorld tt
                    (files (saveKeystore (Fixture.ledger 0) Fixture.theRunner
                              Fixture.staleWorld).2)
                    Keystore.zero []) eq_refl).
Defined.

(** [C4_rotation_noop] at a keystore with both secrets rotated. *)
Lemma C4_rotation_noop_witness :
  updateTipPin (Fixture.ledger 0) Fixture.theRunner (Fixture.world Fixture.rotatedKeystore "")
  = (Done tt, Fixture.world Fixture.rotatedKeystore "")
  /\ migrateToSafe (Fixture.ledger 0) Fixture.theRunner
       (Fixture.world Fixture.rotatedKeystore "")
     = (Done tt, Fixture.world Fixture.rotatedKeystore "").
Proof.
  destruct (C4_rotation_noop (Fixture.ledger 0) Fixture.theRunner
              (Fixture.world Fixture.rotatedKeystore "")) as [Hpin Hsafe].
  split; [apply Hpin | apply Hsafe]; reflexivity.
Defined.

(** [C5_write_after_mutate] at a legacy keystore and a ledger that accepts. *)
Lemma C5_write_after_mutate_witness :
  writeAfterMutate (Fixture.ledger 0) Fixture.theRunner
    (Fixture.world Fixture.legacyKeystore "")
    (Keystore.setPin Fixture.legacyKeystore (mixinnet.KeyString Fixture.sampleKey))
    (updateTipPin (Fixture.ledger 0) Fixture.theRunner
       (Fixture.world Fixture.legacyKeystore ""))
  /\ writeAfterMutate (Fixture.ledger 0) Fixture.theRunner
       (Fixture.world Fixture.legacyKeystore "")
       (Keystore.setSpendKey Fixture.legacyKeystore (mixinnet.KeyString Fixture.sampleKey))
       (migrateToSafe (Fixture.ledger 0) Fixture.theRunner
          (Fixture.world Fixture.legacyKeystore "")).
Proof.
  destruct (C5_write_after_mutate (Fixture.ledger 0) Fixture.theRunner
              (Fixture.world Fixture.legacyKeystore "") Fixture.sampleKey tt tt eq_refl)
    as [Hpin Hsafe].
  split.
  - apply Hpin; reflexivity.
  - apply Hsafe; reflexivity.
Defined.

(** When the disk is full after 10 bytes, the PIN accepted by the ledger is
    in the record in memory, the phase fails with the error of the write,
    the file begins with the first 10 bytes of the new text, and the run
    ends there. *)
Example write_fails_after_rotation :
  let env := Cases.diskFull 10 (Fixture.ledger 0) in
  let w := Fixture.world Fixture.legacyKeystore "" in
  let res := updateTipPin env Fixture.theRunner w in
  res.1 = Fail "save keystore failed: write keystore.json: no space left on device"
  /\ Keystore.Pin (key res.2) = mixinnet.KeyString Fixture.sampleKey
  /\ (content <$> files res.2 !! Fixture.keystorePath)
     = Some (writeAt0
               (String.substring 0 10
                  (Fixture.encodeKeystore
                     (Keystore.setPin Fixture.legacyKeystore
                        (mixinnet.KeyString Fixture.sampleKey))))
               (Fixture.encodeKeystore Fixture.legacyKeystore))
  /\ (runPhases env 10 Fixture.theRunner 2 w).1
     = Fail ("update tip pin failed: "
               +:+ "save keystore failed: write keystore.json: no space left on device").
Proof. vm_compute. repeat split; reflexivity. Qed.

(** A PIN that is the text of the 64 bytes of a private key in its long
    form parses as a key, so the rotation phase leaves it alone. *)
Example long_form_pin_is_kept :
  let k := Keystore.setPin Fixture.legacyKeystore
             (mixinnet.KeyString Fixture.sampleKey +:+ mixinnet.KeyString Fixture.sampleKey) in
  updateTipPin (Fixture.ledger 0) Fixture.theRunner (Fixture.world k "")
  = (Done tt, Fixture.world k "").
Proof.
  intros k.
  apply (rotation_noop (Fixture.ledger 0) Fixture.theRunner (Fixture.world k "")).
  reflexivity.
Qed.

(** The scenario of the balances [(A, 0); (B, 12.5)]: one transfer, of the
    12.5 of asset B, to the receiver. *)
Example legacy_drain_transfers_only_B :
  map moved
    (transfers (trace (migrateLegacyAssets (Fixture.ledger 0) Fixture.theRunner
                         (Fixture.world Fixture.legacyKeystore "")).2))
  = [("asset-b", decimal.mkDecimal 125 (-1), "receiver-1", memo)].
Proof. vm_compute. reflexivity. Qed.



(** [C9_receiver_validated_first] at a receiver whose identity number is 0. *)
Lemma C9_receiver_validated_first_witness :
  exists ext,
    main (Fixture.env Fixture.balances [] Fixture.strangerUser "y") 0
      ["0"%string] Fixture.keystorePath 256 (Fixture.world Fixture.legacyKeystore "")
    = (Fail "receiver is not a mixin messenger user",
       mkWorld tt (files (Fixture.world Fixture.legacyKeystore "")) Fixture.legacyKeystore
         ([] ++ ext))
    /\ Forall (fun ev => mutating ev = false) ext.
Proof.
  destruct (C9_receiver_validated_first
              (Fixture.env Fixture.balances [] Fixture.strangerUser "y") 0
              "0" [] Fixture.keystorePath 256 (Fixture.world Fixture.legacyKeystore "")
              (mkFile 384 (Fixture.encodeKeystore Fixture.legacyKeystore +:+ ""))
              Fixture.legacyKeystore (Client.mk "client-1") "{}" tt Fixture.strangerUser)
    as (msg & ext & Hmain & Hmsg & _ & Hquiet).
  - lia.
  - reflexivity.
  - reflexivity.
  - reflexivity.
  - reflexivity.
  - reflexivity.
  - reflexivity.
  - left. reflexivity.
  - exists ext. split; [| exact Hquiet]. rewrite Hmain, Hmsg. reflexivity.
Defined.

(** [C10_spend_key_valid_at_drain] at a legacy keystore and five outputs. *)
Lemma C10_spend_key_valid_at_drain_witness :
  isOk (mixinnet.KeyFromString (keyFromSeed (Fixture.ledger 5))
          (Keystore.SpendKey
             (key (migrateToSafe (Fixture.ledger 5) Fixture.theRunner
                     (Fixture.world Fixture.legacyKeystore "")).2))) = true
  /\ forall e,
       (migrateSafeAssets (Fixture.ledger 5) 10 Fixture.theRunner 2
          (migrateToSafe (Fixture.ledger 5) Fixture.theRunner
             (Fixture.world Fixture.legacyKeystore "")).2).1
       <> Fail ("invalid spend key: " +:+ e).
Proof.
  destruct (C10_spend_key_valid_at_drain (Fixture.ledger 5) Fixture.theRunner
              (Fixture.world Fixture.legacyKeystore "") 10 2) as (Hkey & Hdrain & _).
  - reflexivity.
  - split; assumption.
Defined.

(* ===================================================================== *)
(** * Further properties of the code *)
(* ===================================================================== *)

(** ** What a computation keeps *)

Section Keeps.

Context {L : Type} (R : World L -> World L -> Prop).
Hypothesis R_refl : forall w, R w w.
Hypothesis R_trans : forall w1 w2 w3, R w1 w2 -> R w2 w3 -> R w1 w3.
(** [R] looks at the files and the record only. *)
Hypothesis R_outside : forall w l t, R w (mkWorld l (files w) (key w) t).

Lemma keeps_ret {A} (a : A) : keeps (L := L) R (ret a).
Proof. intros w. apply R_refl. Qed.

Lemma keeps_fail {A} e : keeps (L := L) (A := A) R (fail e).
Proof. intros w. apply R_refl. Qed.

Lemma keeps_spin {A} : keeps (L := L) (A := A) R spin.
Proof. intros w. apply R_refl. Qed.

Lemma keeps_lift {A} (r : result A) : keeps (L := L) R (lift r).
Proof. intros w. apply R_refl. Qed.

Lemma keeps_getKey : keeps (L := L) R getKey.
Proof. intros w. apply R_refl. Qed.

Lemma keeps_call {A} ev (op : L -> result A * L) : keeps R (call ev op).
Proof. intros w. unfold call. destruct (op (outside w)). apply R_outside. Qed.

Lemma keeps_draw {A} (ev : A -> Event) (op : L -> A * L) : keeps R (draw ev op).
Proof. intros w. unfold draw. destruct (op (outside w)). apply R_outside. Qed.

Lemma keeps_openFile {Tx} (env : Env L Tx) path flag : keeps R (openFile env path flag).
Proof.
  intros w. unfold openFile.
  destruct (files w !! path) as [f |]; [destruct (permits env flag (perm f)) |];
    apply R_outside.
Qed.

Lemma keeps_bind {A B} (m : M L A) (k : A -> M L B) :
  keeps R m -> (forall a, keeps R (k a)) -> keeps R (bind m k).
Proof.
  intros Hm Hk w. unfold bind. specialize (Hm w).
  destruct (m w) as [[a | e |] w1]; cbn [snd] in *; [| assumption ..].
  eapply R_trans; [exact Hm | apply Hk].
Qed.

Lemma keeps_wrap {A} ctx (m : M L A) : keeps R m -> keeps R (wrap ctx m).
Proof.
  intros Hm w. unfold wrap. specialize (Hm w).
  destruct (m w) as [[a | e |] w1]; assumption.
Qed.

End Keeps.

Lemma untouched_refl {L} (w : World L) : untouched w w.
Proof. split; reflexivity. Qed.

Lemma untouched_trans {L} (w1 w2 w3 : World L) :
  untouched w1 w2 -> untouched w2 w3 -> untouched w1 w3.
Proof. intros [H1 H2] [H3 H4]. split; congruence. Qed.

Lemma untouched_outside {L} (w : World L) l t : untouched w (mkWorld l (files w) (key w) t).
Proof. split; reflexivity. Qed.

Lemma onlyContentAt_refl {L} path (w : World L) : onlyContentAt path w w.
Proof. split; reflexivity. Qed.

Lemma onlyContentAt_trans {L} path (w1 w2 w3 : World L) :
  onlyContentAt path w1 w2 -> onlyContentAt path w2 w3 -> onlyContentAt path w1 w3.
Proof.
  intros [H1 H2] [H3 H4]. split.
  - intros p Hp. rewrite H3, H1 by assumption. reflexivity.
  - intros p. rewrite H4, H2. reflexivity.
Qed.

Lemma onlyContentAt_files {L} path (w w' : World L) :
  files w' = files w -> onlyContentAt path w w'.
Proof. intros H. split; intros; rewrite H; reflexivity. Qed.

Section Frames.

Context {L Tx : Type} (env : Env L Tx) (r : runner).

Ltac frame :=
  repeat first
    [ apply (keeps_bind untouched untouched_trans); [| intros ?]
    | apply keeps_wrap
    | apply (keeps_call untouched untouched_outside)
    | apply (keeps_draw untouched untouched_outside)
    | apply (keeps_getKey untouched untouched_refl)
    | apply (keeps_ret untouched untouched_refl)
    | apply (keeps_spin untouched untouched_refl)
    | apply (keeps_lift untouched untouched_refl)
    | apply (keeps_fail untouched untouched_refl) ].

Lemma transferLoop_untouched assets : keeps untouched (transferLoop env r assets).
Proof.
  induction assets as [| asset assets IH]; cbn [transferLoop]; frame. exact IH.
Qed.

Lemma migrateLegacyAssets_untouched : keeps untouched (migrateLegacyAssets env r).
Proof.
  unfold migrateLegacyAssets. frame.
  match goal with |- context [if ?b then _ else _] => destruct b end;
    [frame | apply transferLoop_untouched].
Qed.

Lemma settle_untouched spendKey spends : keeps untouched (settle env r spendKey spends).
Proof. unfold settle, NewSafeTransactionBuilder. frame. Qed.

Lemma spendLoop_untouched limit spendKey utxos fuel idx :
  keeps untouched (spendLoop env fuel r limit spendKey utxos idx).
Proof.
  revert idx. induction fuel as [| fuel IH]; intros idx; cbn [spendLoop]; [frame |].
  destruct (idx <? len utxos); [| frame].
  apply (keeps_bind untouched untouched_trans).
  - apply settle_untouched.
  - intros _. apply IH.
Qed.

Lemma assetLoop_untouched limit spendKey fuel entries :
  keeps untouched (assetLoop env fuel r limit spendKey entries).
Proof.
  induction entries as [| [assetId utxos] entries IH]; cbn [assetLoop]; [frame |].
  apply (keeps_bind untouched untouched_trans); [frame |].
  intros _. apply (keeps_bind untouched untouched_trans).
  - apply spendLoop_untouched.
  - intros _. exact IH.
Qed.

Lemma listLoop_untouched fuel opt assets : keeps untouched (listLoop env fuel opt assets).
Proof.
  revert opt assets. induction fuel as [| fuel IH]; intros opt assets; cbn [listLoop];
    [frame |].
  apply (keeps_bind untouched untouched_trans); [frame |].
  intros utxos. destruct (len utxos =? 0); [frame |].
  destruct (collectPage utxos (opt, assets)). apply IH.
Qed.

Lemma migrateSafeAssets_untouched fuel limit :
  keeps untouched (migrateSafeAssets env fuel r limit).
Proof.
  unfold migrateSafeAssets.
  apply (keeps_bind untouched untouched_trans); [apply listLoop_untouched |].
  intros assets. destruct (Z.of_nat (size assets) =? 0); [frame |].
  apply (keeps_bind untouched untouched_trans); [frame |].
  intros k. apply (keeps_bind untouched untouched_trans); [frame |].
  intros spendKey. apply assetLoop_untouched.
Qed.

End Frames.

(** ** More on the legacy phase *)

Lemma transferPins_app t1 t2 : transferPins (t1 ++ t2) = transferPins t1 ++ transferPins t2.
Proof.
  induction t1 as [| ev t1 IH]; [reflexivity |].
  destruct ev; cbn; rewrite ?IH; reflexivity.
Qed.

Lemma filter_nonZero_idem (assets : list Asset.t) :
  List.filter nonZero (List.filter nonZero assets) = List.filter nonZero assets.
Proof.
  induction assets as [| asset assets IH]; [reflexivity |].
  cbn. destruct (nonZero asset) eqn:Hnz; [| exact IH].
  cbn. rewrite Hnz, IH. reflexivity.
Qed.

Lemma filter_nonZero_nil (assets : list Asset.t) :
  List.filter nonZero assets = []
  <-> Forall (fun asset => decimal.IsZero (Asset.Balance asset) = true) assets.
Proof.
  induction assets as [| asset assets IH]; [split; [constructor | reflexivity] |].
  cbn. unfold nonZero at 1. destruct (decimal.IsZero (Asset.Balance asset)) eqn:Hz; cbn.
  - rewrite IH. split; [intros H; constructor; assumption | intros H; inversion H; assumption].
  - split; [discriminate | intros H; inversion H; congruence].
Qed.

(** X8.  The first loop of the legacy phase, which moves elements of the slice it
    is ranging over, keeps exactly the assets whose balance is not zero, in
    their order; doing it again changes nothing; the slice never grows; and
    what is kept is empty exactly when every balance is zero. *)
Theorem compact_in_place_filter (assets : list Asset.t) :
  compact assets = List.filter nonZero assets
  /\ compact (compact assets) = compact assets
  /\ (length (compact assets) <= length assets)%nat
  /\ (compact assets = []
      <-> Forall (fun asset => decimal.IsZero (Asset.Balance asset) = true) assets).
Proof.
  rewrite !compact_filter. split; [reflexivity |]. split; [apply filter_nonZero_idem |].
  split; [apply List.filter_length_le | apply filter_nonZero_nil].
Qed.

Section LegacyMore.

Context {L Tx : Type} (env : Env L Tx) (r : runner).

(** X9.  When every listed balance is zero, or none is listed, the legacy phase
    returns success after the listing alone: no trace id is drawn and no
    transfer is asked for. *)
Theorem migrateLegacyAssets_nothing_to_do (w : World L) (assets : list Asset.t) (l' : L) :
  ReadAssets env (outside w) = (Ok assets, l') ->
  Forall (fun asset => decimal.IsZero (Asset.Balance asset) = true) assets ->
  migrateLegacyAssets env r w
  = (Done tt, mkWorld l' (files w) (key w) (trace w ++ [EvReadAssets])).
Proof.
  intros Hread Hzero. unfold migrateLegacyAssets, bind, wrap, call. rewrite Hread.
  rewrite compact_filter. apply filter_nonZero_nil in Hzero. rewrite Hzero. reflexivity.
Qed.

Lemma transferLoop_authorised assets w :
  exists ext,
    trace (transferLoop env r assets w).2 = trace w ++ ext
    /\ Forall (fun pin => pin = Keystore.Pin (key w)) (transferPins ext)
    /\ Forall (fun t => TransferInput.OpponentID t = receiver r
                        /\ TransferInput.Memo t = memo) (transfers ext)
    /\ length (transferPins ext) = length (transfers ext).
Proof.
  revert w. induction assets as [| asset assets IH]; intros w.
  - exists []. cbn. rewrite app_nil_r. repeat split; constructor.
  - destruct (transferLoop env r (asset :: assets) w) as [o w'] eqn:Hrun.
    cbn [transferLoop] in Hrun. unfold bind, draw, getKey, wrap, call in Hrun.
    destruct (RandomTraceID env (outside w)) as [traceID l1].
    cbn [outside key files trace] in Hrun.
    destruct (Transfer env _ (Keystore.Pin (key w)) l1) as [[snapshot | e] l2].
    + match type of Hrun with transferLoop env r assets ?w1 = _ =>
        destruct (IH w1) as (ext & Ht & Hp & Hm & Hl) end.
      rewrite Hrun in Ht. cbn [fst snd trace key] in *.
      eexists. rewrite Ht. split; [rewrite <- !app_assoc; cbn [app]; reflexivity |].
      cbn [transferPins transfers length]. repeat split; try constructor; auto.
    + injection Hrun as <- <-. eexists. cbn [snd trace].
      split; [rewrite <- !app_assoc; cbn [app]; reflexivity |].
      cbn [transferPins transfers length]. repeat split; repeat constructor.
Qed.

(** X10.  The legacy phase leaves the files and the keystore record as they are;
    every transfer it asks for is authorised with the PIN the record held
    when the phase began, goes to the receiver and carries the fixed memo. *)
Theorem migrateLegacyAssets_authorised (w : World L) :
  untouched w (migrateLegacyAssets env r w).2
  /\ exists ext,
       trace (migrateLegacyAssets env r w).2 = trace w ++ ext
       /\ Forall (fun pin => pin = Keystore.Pin (key w)) (transferPins ext)
       /\ Forall (fun t => TransferInput.OpponentID t = receiver r
                           /\ TransferInput.Memo t = memo) (transfers ext)
       /\ length (transferPins ext) = length (transfers ext).
Proof.
  split; [apply migrateLegacyAssets_untouched |].
  destruct (migrateLegacyAssets env r w) as [o w'] eqn:Hrun.
  unfold migrateLegacyAssets, bind, wrap, call in Hrun.
  destruct (ReadAssets env (outside w)) as [[assets | e] l1].
  - destruct (len (compact assets) =? 0).
    + injection Hrun as <- <-. exists [EvReadAssets]. cbn. repeat split; constructor.
    + match type of Hrun with transferLoop env r ?l ?w1 = _ =>
        destruct (transferLoop_authorised l w1) as (ext & Ht & Hp & Hm & Hl) end.
      rewrite Hrun in Ht. cbn [fst snd trace key] in *.
      exists (EvReadAssets :: ext). rewrite Ht.
      split; [rewrite <- app_assoc; reflexivity |]. cbn [transferPins transfers]. auto.
  - injection Hrun as <- <-. exists [EvReadAssets]. cbn. repeat split; constructor.
Qed.


End LegacyMore.

Section LegacyFailure.

Context {L Tx : Type} (env : Env L Tx) (r : runner).


End LegacyFailure.

(** ** More on the rotation phases *)

Section RotationMore.

Context {L Tx : Type} (env : Env L Tx) (r : runner).

Lemma updateTipPin_rejected (w : World L) (k : mixinnet.Key) (l1 l2 : L) (e : string) :
  isOk (mixinnet.KeyFromString (keyFromSeed env) (Keystore.Pin (key w))) = false ->
  GenerateKey env (outside w) = (k, l1) ->
  ModifyPin env (Keystore.Pin (key w)) (mixinnet.KeyString (Public env k)) l1 = (Err e, l2) ->
  updateTipPin env r w
  = (Fail ("modify pin failed: " +:+ e),
     mkWorld l2 (files w) (key w)
       (trace w ++ [EvGenerateKey k;
                    EvModifyPin (Keystore.Pin (key w)) (mixinnet.KeyString (Public env k))])).
Proof.
  intros Hpin Hgen Hmod. unfold updateTipPin. unfold bind at 1. unfold getKey at 1.
  rewrite Hpin. unfold bind at 1. unfold draw. rewrite Hgen.
  unfold bind at 1. unfold getKey at 1. unfold bind at 1. unfold wrap, call.
  cbn [outside key files trace]. rewrite Hmod. rewrite <- app_assoc. reflexivity.
Qed.

(** X12.  When the ledger refuses the new PIN, the rotation phase fails with the
    ledger's error; the ledger was asked with the old PIN and the public
    half of the new key; the new key is dropped: the record and the files
    are as they were and nothing was opened for writing. *)
Theorem updateTipPin_refused (w : World L) (k : mixinnet.Key) (l1 l2 : L) (e : string) :
  isOk (mixinnet.KeyFromString (keyFromSeed env) (Keystore.Pin (key w))) = false ->
  GenerateKey env (outside w) = (k, l1) ->
  ModifyPin env (Keystore.Pin (key w)) (mixinnet.KeyString (Public env k)) l1 = (Err e, l2) ->
  updateTipPin env r w
  = (Fail ("modify pin failed: " +:+ e),
     mkWorld l2 (files w) (key w)
       (trace w ++ [EvGenerateKey k;
                    EvModifyPin (Keystore.Pin (key w)) (mixinnet.KeyString (Public env k))])).
Proof. apply updateTipPin_rejected. Qed.

Lemma migrateToSafe_rejected (w : World L) (k : mixinnet.Key) (l1 l2 : L) (e : string) :
  isOk (mixinnet.KeyFromString (keyFromSeed env) (Keystore.SpendKey (key w))) = false ->
  GenerateKey env (outside w) = (k, l1) ->
  SafeMigrate env (mixinnet.KeyString k) (Keystore.Pin (key w)) l1 = (Err e, l2) ->
  migrateToSafe env r w
  = (Fail ("migrate safe failed: " +:+ e),
     mkWorld l2 (files w) (key w)
       (trace w ++ [EvGenerateKey k;
                    EvSafeMigrate (mixinnet.KeyString k) (Keystore.Pin (key w))])).
Proof.
  intros Hkey Hgen Hmig. unfold migrateToSafe. unfold bind at 1. unfold getKey at 1.
  rewrite Hkey. unfold bind at 1. unfold draw. rewrite Hgen.
  unfold bind at 1. unfold getKey at 1. unfold bind at 1. unfold wrap, call.
  cbn [outside key files trace]. rewrite Hmig. rewrite <- app_assoc. reflexivity.
Qed.

(** X13.  When the ledger refuses the activation of safe custody, the phase
    fails with the ledger's error; the ledger was asked with the new spend
    key and the PIN of the record; the record and the files are as they
    were and nothing was opened for writing. *)
Theorem migrateToSafe_refused (w : World L) (k : mixinnet.Key) (l1 l2 : L) (e : string) :
  isOk (mixinnet.KeyFromString (keyFromSeed env) (Keystore.SpendKey (key w))) = false ->
  GenerateKey env (outside w) = (k, l1) ->
  SafeMigrate env (mixinnet.KeyString k) (Keystore.Pin (key w)) l1 = (Err e, l2) ->
  migrateToSafe env r w
  = (Fail ("migrate safe failed: " +:+ e),
     mkWorld l2 (files w) (key w)
       (trace w ++ [EvGenerateKey k;
                    EvSafeMigrate (mixinnet.KeyString k) (Keystore.Pin (key w))])).
Proof. apply migrateToSafe_rejected. Qed.

(** What a rotation phase leaves in the record, whatever it returns: the
    PIN phase may change the PIN only, the safe phase the spend key only. *)
Lemma updateTipPin_record w :
  Keystore.base (key (updateTipPin env r w).2) = Keystore.base (key w)
  /\ Keystore.SpendKey (key (updateTipPin env r w).2) = Keystore.SpendKey (key w)
  /\ ((updateTipPin env r w).1 = Done tt ->
      isOk (mixinnet.KeyFromString (keyFromSeed env) (Keystore.Pin (key (updateTipPin env r w).2))) = true).
Proof.
  destruct (isOk (mixinnet.KeyFromString (keyFromSeed env) (Keystore.Pin (key w)))) eqn:Hpin.
  - destruct (rotation_noop env r w) as [Hnoop _]. rewrite (Hnoop Hpin). auto.
  - destruct (GenerateKey env (outside w)) as [k l1] eqn:Hgen.
    destruct (ModifyPin env (Keystore.Pin (key w)) (mixinnet.KeyString (Public env k)) l1)
      as [[[] | e] l2] eqn:Hmod.
    + rewrite (updateTipPin_accepted env r w k l1 l2 Hpin Hgen Hmod).
      match goal with |- context [saveKeystore env r ?w1] =>
        destruct (saveKeystore_writes env r w1) as (-> & _) end.
      cbn. repeat split. intros _. apply KeyString_parses.
    + rewrite (updateTipPin_rejected w k l1 l2 e Hpin Hgen Hmod). cbn.
      repeat split. discriminate.
Qed.

Lemma migrateToSafe_record w :
  Keystore.base (key (migrateToSafe env r w).2) = Keystore.base (key w)
  /\ Keystore.Pin (key (migrateToSafe env r w).2) = Keystore.Pin (key w)
  /\ ((migrateToSafe env r w).1 = Done tt ->
      isOk (mixinnet.KeyFromString (keyFromSeed env)
              (Keystore.SpendKey (key (migrateToSafe env r w).2))) = true).
Proof.
  destruct (isOk (mixinnet.KeyFromString (keyFromSeed env) (Keystore.SpendKey (key w)))) eqn:Hkey.
  - destruct (rotation_noop env r w) as [_ Hnoop]. rewrite (Hnoop Hkey). auto.
  - destruct (GenerateKey env (outside w)) as [k l1] eqn:Hgen.
    destruct (SafeMigrate env (mixinnet.KeyString k) (Keystore.Pin (key w)) l1)
      as [[[] | e] l2] eqn:Hmig.
    + rewrite (migrateToSafe_accepted env r w k l1 l2 Hkey Hgen Hmig).
      match goal with |- context [saveKeystore env r ?w1] =>
        destruct (saveKeystore_writes env r w1) as (-> & _) end.
      cbn. repeat split. intros _. apply KeyString_parses.
    + rewrite (migrateToSafe_rejected w k l1 l2 e Hkey Hgen Hmig). cbn.
      repeat split. discriminate.
Qed.

(** X14.  Rotating is idempotent: once the PIN phase and the safe phase have
    returned success one after the other, each of them, run again in the
    world so left, returns success and leaves that world exactly as it is:
    no key is generated, no call is made, nothing is written. *)
Theorem rotation_idempotent (w : World L) :
  (updateTipPin env r w).1 = Done tt ->
  (migrateToSafe env r (updateTipPin env r w).2).1 = Done tt ->
  let w2 := (migrateToSafe env r (updateTipPin env r w).2).2 in
  updateTipPin env r w2 = (Done tt, w2) /\ migrateToSafe env r w2 = (Done tt, w2).
Proof.
  intros Hpin Hsafe w2.
  destruct (updateTipPin_record w) as (_ & _ & Hp). specialize (Hp Hpin).
  destruct (migrateToSafe_record (updateTipPin env r w).2) as (_ & Hsame & Hs).
  specialize (Hs Hsafe).
  destruct (rotation_noop env r w2) as [H1 H2]. split.
  - apply H1. unfold w2. rewrite Hsame. exact Hp.
  - apply H2. exact Hs.
Qed.

End RotationMore.

(** ** More on saving the keystore *)

Lemma string_length_append (a b : string) :
  String.length (a +:+ b) = (String.length a + String.length b)%nat.
Proof.
  induction a as [| c a IH]; [reflexivity |]. rewrite append_cons. cbn [String.length].
  rewrite IH. reflexivity.
Qed.

Lemma substring_whole (s : string) : substring 0 (String.length s) s = s.
Proof. induction s as [| c s IH]; [reflexivity |]. cbn. rewrite IH. reflexivity. Qed.

Lemma substring_past (a t : string) (m : nat) :
  substring (String.length a) m (a +:+ t) = substring 0 m t.
Proof. induction a as [| c a IH]; [reflexivity |]. rewrite append_cons. cbn. exact IH. Qed.

Lemma substring_length (n m : nat) (s : string) :
  String.length (substring n m s) = Nat.min m (String.length s - n).
Proof.
  revert n m. induction s as [| c s IH]; intros n m.
  - destruct n, m; reflexivity.
  - destruct n as [| n].
    + destruct m as [| m]; [reflexivity |]. cbn. rewrite IH. rewrite Nat.sub_0_r. reflexivity.
    + cbn. apply IH.
Qed.

Lemma substring_split (n : nat) (s : string) :
  substring 0 n s +:+ substring n (String.length s - n) s = s.
Proof.
  revert n. induction s as [| c s IH]; intros n.
  - destruct n; reflexivity.
  - destruct n as [| n].
    + cbn [substring]. rewrite append_nil_l. cbn [String.length Nat.sub].
      change (substring 0 (S (String.length s)) (String c s))
        with (String c (substring 0 (String.length s) s)).
      rewrite substring_whole. reflexivity.
    + cbn [substring String.length Nat.sub]. rewrite append_cons, IH. reflexivity.
Qed.

(** Writing at offset zero without truncating: the text written comes
    first, the file is as long as the longer of the two texts, and writing
    the same text again changes nothing. *)
Lemma writeAt0_length (data old : string) :
  String.length (writeAt0 data old) = Nat.max (String.length data) (String.length old).
Proof.
  unfold writeAt0. rewrite string_length_append, substring_length. lia.
Qed.

Lemma writeAt0_prefix (data t : string) : writeAt0 data (data +:+ t) = data +:+ t.
Proof.
  unfold writeAt0. rewrite substring_past, string_length_append.
  replace (String.length data + String.length t - String.length data)%nat
    with (String.length t) by lia.
  rewrite substring_whole. reflexivity.
Qed.

Lemma writeAt0_again (data old : string) :
  writeAt0 data (writeAt0 data old) = writeAt0 data old.
Proof.
  change (writeAt0 data old)
    with (data +:+ substring (String.length data)
                     (String.length old - String.length data) old).
  apply writeAt0_prefix.
Qed.

Lemma writeAt0_tail (data old : string) :
  (String.length data <= String.length old)%nat ->
  exists tail,
    writeAt0 data old = data +:+ tail
    /\ old = substring 0 (String.length data) old +:+ tail.
Proof.
  intros Hlen. eexists. split; [reflexivity |]. symmetry. apply substring_split.
Qed.

Section SaveMore.

Context {L Tx : Type} (env : Env L Tx) (r : runner).

Lemma saveKeystore_onlyContentAt w : onlyContentAt (output r) w (saveKeystore env r w).2.
Proof.
  rewrite saveKeystore_eq. cbn zeta.
  destruct (files w !! output r) as [f |] eqn:Hf;
    [destruct (permits env O_WRONLY (perm f));
       [destruct (fileWrite env _ _ (outside w)) as [[[n e] |] l'] |] |];
    try (apply onlyContentAt_files; reflexivity).
  all: split; cbn [snd files];
    [ intros p Hp; apply lookup_insert_ne; congruence
    | intros p; destruct (decide (p = output r)) as [-> | Hne];
        [ rewrite lookup_insert_eq, Hf; reflexivity
        | rewrite lookup_insert_ne by congruence; reflexivity ] ].
Qed.

(** X6.  Saving never makes a file: it leaves every other file alone, makes and
    removes none, changes no permission bits and leaves the record in
    memory as it is; where no file exists at the output path it fails with
    the system's error and the files are as they were. *)
Theorem saveKeystore_never_creates (w : World L) :
  onlyContentAt (output r) w (saveKeystore env r w).2
  /\ key (saveKeystore env r w).2 = key w
  /\ (files w !! output r = None ->
      (saveKeystore env r w).1
      = Fail ("open keystore failed: " +:+ "open " +:+ output r
                +:+ ": no such file or directory")
      /\ files (saveKeystore env r w).2 = files w).
Proof.
  split; [apply saveKeystore_onlyContentAt |].
  split; [apply saveKeystore_writes |].
  intros Hnone. rewrite saveKeystore_eq. cbn zeta. rewrite Hnone. split; reflexivity.
Qed.

(** X7.  Saving over an existing file never shortens it, whatever the save
    returns.  When the save returns success the file holds the record's
    text followed by the bytes the old contents had beyond it, its length
    is the longer of the two, and a second save of the same record that
    returns success leaves the files as the first save left them. *)
Theorem saveKeystore_keeps_tail (w : World L) (f : File) :
  files w !! output r = Some f ->
  exists f',
    files (saveKeystore env r w).2 !! output r = Some f'
    /\ (String.length (content f) <= String.length (content f'))%nat
    /\ ((saveKeystore env r w).1 = Done tt ->
        String.length (content f')
        = Nat.max (String.length (jsonEncodeKeystore env (key w)))
            (String.length (content f))
        /\ ((String.length (jsonEncodeKeystore env (key w))
             <= String.length (content f))%nat ->
            exists tail,
              content f' = jsonEncodeKeystore env (key w) +:+ tail
              /\ content f
                 = substring 0 (String.length (jsonEncodeKeystore env (key w))) (content f)
                   +:+ tail)
        /\ ((saveKeystore env r (saveKeystore env r w).2).1 = Done tt ->
            files (saveKeystore env r (saveKeystore env r w).2).2
            = files (saveKeystore env r w).2)).
Proof.
  intros Hf. rewrite (saveKeystore_eq env r (saveKeystore env r w).2).
  rewrite (saveKeystore_eq env r w). cbn zeta. rewrite Hf.
  destruct (permits env O_WRONLY (perm f)) eqn:Hperm.
  - destruct (fileWrite env (output r) (jsonEncodeKeystore env (key w)) (outside w))
      as [[[n e] |] l']; cbn [fst snd files key outside].
    + eexists. split; [apply lookup_insert_eq |]. cbn [content].
      split; [rewrite writeAt0_length; lia | discriminate].
    + eexists. split; [apply lookup_insert_eq |]. cbn [content].
      split; [rewrite writeAt0_length; lia |]. intros _.
      split; [apply writeAt0_length |]. split; [apply writeAt0_tail |].
      rewrite lookup_insert_eq. cbn [perm content]. rewrite Hperm.
      destruct (fileWrite env (output r) (jsonEncodeKeystore env (key w)) l')
        as [[[n e] |] l'']; cbn [fst snd files]; [discriminate |]. intros _.
      rewrite writeAt0_again. apply insert_insert_eq.
  - cbn [fst snd files]. exists f. split; [exact Hf |]. split; [lia | discriminate].
Qed.

End SaveMore.

(** ** More on the safe drain *)

Section DrainMore.

Context {L Tx : Type} (env : Env L Tx) (r : runner).

(** X15.  When the first page comes back empty, the safe drain returns success
    after that one request: the spend key is not looked at, no asset is
    read and nothing is built. *)
Theorem migrateSafeAssets_no_outputs (fuel : nat) (spendGroupCount : Z) (w : World L)
    (l1 : L) :
  SafeListUtxos env initialOption (outside w) = (Ok [], l1) ->
  migrateSafeAssets env (S fuel) r spendGroupCount w
  = (Done tt, mkWorld l1 (files w) (key w) (trace w ++ [EvSafeListUtxos initialOption])).
Proof.
  intros Hlist. unfold migrateSafeAssets. cbn [listLoop]. unfold bind, wrap, call.
  rewrite Hlist. change (len (@nil SafeUtxo.t) =? 0) with true. cbn iota. unfold ret.
  rewrite map_size_empty. reflexivity.
Qed.

Lemma listLoop_only_lists fuel opt assets :
  emits (Forall isListing) (listLoop env fuel opt assets).
Proof.
  revert opt assets. induction fuel as [| fuel IH]; intros opt assets; cbn [listLoop].
  - apply emits_spin. constructor.
  - apply emits_bind; [intros e1 e2 H1 H2; apply Forall_app; auto | |].
    + apply emits_wrap, emits_call. repeat constructor. eexists. reflexivity.
    + intros utxos. destruct (len utxos =? 0); [apply emits_ret; constructor |].
      destruct (collectPage utxos (opt, assets)). apply IH.
Qed.

(** X17.  When outputs were listed and the spend key of the record does not
    parse, the safe drain fails with the parser's error right after the
    listing: the world it leaves is the world the listing left, in which
    only listing requests were added to the trace. *)
Theorem migrateSafeAssets_invalid_spend_key (fuel : nat) (spendGroupCount : Z)
    (w w1 : World L) (assets : gmap string (list SafeUtxo.t)) (e : string) :
  listLoop env fuel initialOption ∅ w = (Done assets, w1) ->
  assets <> ∅ ->
  mixinnet.KeyFromString (keyFromSeed env) (Keystore.SpendKey (key w)) = Err e ->
  migrateSafeAssets env fuel r spendGroupCount w = (Fail ("invalid spend key: " +:+ e), w1)
  /\ exists ext, trace w1 = trace w ++ ext /\ Forall isListing ext.
Proof.
  intros Hlist Hne Hkey. split.
  - unfold migrateSafeAssets. unfold bind at 1. rewrite Hlist.
    destruct (Z.eqb_spec (Z.of_nat (size assets)) 0) as [Hz | _].
    + destruct Hne. apply map_size_empty_iff. lia.
    + unfold bind at 1. unfold getKey at 1. unfold bind at 1. unfold wrap, lift.
      destruct (listLoop_untouched env fuel initialOption ∅ w) as [_ Hk].
      rewrite Hlist in Hk. cbn [snd] in Hk. rewrite Hk, Hkey. reflexivity.
  - destruct (listLoop_only_lists fuel initialOption ∅ w) as (ext & Ht & Hall).
    rewrite Hlist in Ht. eauto.
Qed.

(** X18.  The safe drain leaves the files and the keystore record as they are,
    whatever the ledger answers. *)
Theorem migrateSafeAssets_leaves_keystore (fuel : nat) (spendGroupCount : Z) (w : World L) :
  untouched w (migrateSafeAssets env fuel r spendGroupCount w).2.
Proof. apply migrateSafeAssets_untouched. Qed.


End DrainMore.

Section SpendMore.

Context {L Tx : Type} (env : Env L Tx) (r : runner).


(** X21.  With a group count of zero the index never moves: over outputs that
    are not empty the spend loop never returns success.  It ends only in
    the failure of a settlement, and otherwise goes on for as long as it is
    given fuel.  The range check of [main] is what keeps it from that. *)
Theorem spendLoop_zero_never_returns (fuel : nat) (spendKey : mixinnet.Key)
    (utxo : SafeUtxo.t) (utxos : list SafeUtxo.t) (w : World L) :
  (spendLoop env fuel r 0 spendKey (utxo :: utxos) 0 w).1 = Spin
  \/ exists e, (spendLoop env fuel r 0 spendKey (utxo :: utxos) 0 w).1 = Fail e.
Proof.
  revert w. induction fuel as [| fuel IH]; intros w; [left; reflexivity |].
  cbn [spendLoop]. destruct (Z.ltb_spec 0 (len (utxo :: utxos))) as [_ | Hge].
  - unfold bind. destruct (settle env r spendKey _ w) as [[[] | e |] w1];
      [apply IH | right; exists e; reflexivity | left; reflexivity].
  - unfold len in Hge. cbn [length] in Hge. lia.
Qed.

End SpendMore.

(** ** Sums *)

Section SumMore.

Import decimal.
Local Open Scope Q_scope.

Lemma sumQ_app (a b : list Decimal) : sumQ (a ++ b) == sumQ a + sumQ b.
Proof.
  induction a as [| d a IH]; unfold sumQ in *; cbn [app fold_right].
  - ring.
  - rewrite IH. ring.
Qed.

Lemma sumUtxos_app (a b : list SafeUtxo.t) :
  toQ (sumUtxos (a ++ b)) == toQ (sumUtxos a) + toQ (sumUtxos b).
Proof. rewrite !sumUtxos_exact, map_app, sumQ_app. reflexivity. Qed.

Lemma sumUtxos_concat (groups : list (list SafeUtxo.t)) :
  sumQ (map sumUtxos groups) == toQ (sumUtxos (concat groups)).
Proof.
  induction groups as [| g groups IH].
  - reflexivity.
  - cbn [map concat]. rewrite sumUtxos_app, <- IH. unfold sumQ. cbn [fold_right]. reflexivity.
Qed.

(** X22.  Nothing is lost or counted twice by batching: for a limit of at least
    one, the amounts paid by the transactions of one asset's groups add up
    to exactly the sum of all that asset's outputs. *)
Theorem spend_groups_pay_the_total (utxos : list SafeUtxo.t) (limit : Z) :
  (1 <= limit)%Z ->
  exists groups,
    spendGroups (S (length utxos)) limit utxos 0 = Some groups
    /\ sumQ (map sumUtxos groups) == toQ (sumUtxos utxos).
Proof.
  intros Hlimit.
  destruct (spendGroups_from limit utxos (S (length utxos)) 0)
    as (groups & Hrun & Hcat & _); [lia | lia | unfold len; lia |].
  exists groups. split; [exact Hrun |]. rewrite sumUtxos_concat, Hcat. reflexivity.
Qed.

(** X23.  The sum does not depend on the order of the outputs: two sequences of
    the same outputs have sums that stand for the same number; and the
    exponent of a sum is never above zero nor above that of an amount. *)
Theorem sumUtxos_order_irrelevant (utxos utxos' : list SafeUtxo.t) :
  Permutation utxos utxos' ->
  toQ (sumUtxos utxos) == toQ (sumUtxos utxos')
  /\ (exp (sumUtxos utxos) <= 0)%Z
  /\ Forall (fun u => (exp (sumUtxos utxos) <= exp (SafeUtxo.Amount u))%Z) utxos.
Proof.
  intros Hperm. split.
  - rewrite !sumUtxos_exact. induction Hperm; unfold sumQ in *; cbn [map fold_right].
    + reflexivity.
    + rewrite IHHperm. reflexivity.
    + ring.
    + rewrite IHHperm1. exact IHHperm2.
  - assert (Hexp : forall d d2, exp (Add d d2) = Z.min (exp d) (exp d2)).
    { intros d d2. unfold Add, RescalePair.
      destruct (Z.eqb_spec (exp d) (exp d2)); [cbn; lia |].
      destruct (Z.eqb_spec (Z.min (exp d) (exp d2)) (exp d)); cbn [negb exp].
      - lia.
      - rewrite rescale_exp. reflexivity. }
    assert (Hfold : forall l acc,
               (exp (fold_left (fun sum u => Add sum (SafeUtxo.Amount u)) l acc) <= exp acc)%Z
               /\ Forall (fun u => (exp (fold_left (fun sum u => Add sum (SafeUtxo.Amount u))
                                           l acc) <= exp (SafeUtxo.Amount u))%Z) l).
    { induction l as [| u l IH]; intros acc; cbn [fold_left].
      - split; [lia | constructor].
      - destruct (IH (Add acc (SafeUtxo.Amount u))) as [H1 H2]. rewrite Hexp in H1.
        split; [lia |]. constructor; [lia | exact H2]. }
    destruct (Hfold utxos Zero) as [H1 H2]. split; [exact H1 | exact H2].
Qed.

End SumMore.

(** ** Grouping by asset *)

Lemma collectPage_lookup_exact page opt assets id :
  (collectPage page (opt, assets)).2 !! id
  = match List.filter (fun u => String.eqb (SafeUtxo.AssetID u) id) page with
    | [] => assets !! id
    | l => Some (default [] (assets !! id) ++ l)
    end.
Proof.
  revert opt assets. induction page as [| u page IH]; intros opt assets; [reflexivity |].
  cbn [collectPage fold_left]. fold (collectPage page). rewrite IH. cbn [List.filter].
  destruct (String.eqb_spec (SafeUtxo.AssetID u) id) as [-> | Hne].
  - destruct (List.filter _ page) as [| v l]; rewrite !lookup_insert_eq; [reflexivity |].
    cbn [default]. unfold Datatypes.id. rewrite <- app_assoc. reflexivity.
  - rewrite lookup_insert_ne by exact Hne. reflexivity.
Qed.

(** X16.  The map built from the outputs listed holds, under each asset that
    occurs, that asset's outputs in the order listed, and holds no other
    key and no empty entry; it is empty exactly when nothing was listed. *)
Theorem groupByAsset_partition (utxos : list SafeUtxo.t) :
  (forall id,
      groupByAsset utxos !! id
      = match List.filter (fun u => String.eqb (SafeUtxo.AssetID u) id) utxos with
        | [] => None
        | l => Some l
        end)
  /\ (forall id l, groupByAsset utxos !! id = Some l -> l <> [])
  /\ (forall u, In u utxos ->
        exists l, groupByAsset utxos !! SafeUtxo.AssetID u = Some l /\ In u l)
  /\ (size (groupByAsset utxos) = 0%nat <-> utxos = []).
Proof.
  assert (Hlookup : forall id,
             groupByAsset utxos !! id
             = match List.filter (fun u => String.eqb (SafeUtxo.AssetID u) id) utxos with
               | [] => None
               | l => Some l
               end).
  { intros id. unfold groupByAsset. rewrite collectPage_lookup_exact, lookup_empty.
    destruct (List.filter _ utxos); reflexivity. }
  assert (Hin : forall u, In u utxos ->
             exists l, groupByAsset utxos !! SafeUtxo.AssetID u = Some l /\ In u l).
  { intros u Hu. rewrite Hlookup.
    assert (Hf : In u (List.filter
                         (fun v => String.eqb (SafeUtxo.AssetID v) (SafeUtxo.AssetID u)) utxos)).
    { apply filter_In. split; [exact Hu | apply String.eqb_refl]. }
    destruct (List.filter _ utxos) as [| v l]; [destruct Hf |]. eauto. }
  split; [exact Hlookup |]. split; [| split; [exact Hin |]].
  - intros id l. rewrite Hlookup. destruct (List.filter _ utxos); congruence.
  - rewrite map_size_empty_iff. split.
    + intros Hempty. destruct utxos as [| u utxos']; [reflexivity |].
      destruct (Hin u (or_introl eq_refl)) as (l & Hl & _).
      rewrite Hempty, lookup_empty in Hl. discriminate.
    + intros ->. reflexivity.
Qed.

(** ** More on [main] *)

Section Never.

Context {L : Type} (c : ascii).

Lemma never_ret {A} (a : A) : never (L := L) c (ret a).
Proof. intros w. exact I. Qed.

Lemma never_bind {A B} (m : M L A) (k : A -> M L B) :
  never c m -> (forall a, never c (k a)) -> never c (bind m k).
Proof.
  intros Hm Hk w. unfold bind. specialize (Hm w).
  destruct (m w) as [[a | e |] w1]; [apply Hk | exact Hm | exact I].
Qed.

Lemma never_wrap {A} (c' : ascii) (ctx : string) (m : M L A) :
  c' <> c -> never c (wrap (String c' ctx) m).
Proof.
  intros Hc w. unfold wrap. destruct (m w) as [[a | e |] w1]; cbn; auto.
Qed.

Lemma never_fail {A} (c' : ascii) (msg : string) :
  c' <> c -> never (L := L) (A := A) c (fail (String c' msg)).
Proof. intros Hc w. exact Hc. Qed.

End Never.

Section MainMore.

Context {L Tx : Type} (env : Env L Tx).

Lemma conformContinue_never c : never c (conformContinue env).
Proof.
  intros w. unfold conformContinue, call.
  destruct (promptRun env (outside w)) as [[answer | e] l1]; exact I.
Qed.

Lemma runPhases_never_i fuel r spendGroupCount :
  never "i" (runPhases env fuel r spendGroupCount).
Proof.
  unfold runPhases.
  repeat (apply never_bind; [apply never_wrap; discriminate | intros _]).
  apply never_wrap. discriminate.
Qed.

(** X1.  [main] ends in the error about the spend group count exactly when a
    receiver is given and the count lies outside 1..256; it has then done
    nothing at all, not even opened the keystore. *)
Theorem main_rejects_group_count (fuel : nat) (args : list string) (keystorePath : string)
    (spendGroupCount : Z) (w : World L) :
  ((main env fuel args keystorePath spendGroupCount w).1 = Fail "invalid spend group count"
   <-> args <> [] /\ (spendGroupCount <= 0 \/ 256 < spendGroupCount))
  /\ ((main env fuel args keystorePath spendGroupCount w).1 = Fail "invalid spend group count"
      -> (main env fuel args keystorePath spendGroupCount w).2 = w).
Proof.
  unfold main. destruct args as [| arg0 args].
  - split; [split; [discriminate | intros [[] _]; reflexivity] | discriminate].
  - destruct (Z.leb_spec spendGroupCount 0) as [Hle | Hgt]; cbn [orb].
    + split; [split; [intros _; split; [discriminate | lia] | reflexivity] | reflexivity].
    + destruct (Z.ltb_spec 256 spendGroupCount) as [Hlt | Hle].
      * split; [split; [intros _; split; [discriminate | lia] | reflexivity] | reflexivity].
      * match goal with |- context [bind ?m ?k] =>
          assert (Hnever : never "i" (bind m k)) end.
        { apply never_bind; [apply never_wrap; discriminate | intros k].
          apply never_bind; [intros w0; exact I | intros _].
          apply never_bind; [apply never_wrap; discriminate | intros client].
          apply never_bind; [apply never_wrap; discriminate | intros receiver].
          destruct (ToInt64 env (User.IdentityNumber receiver) =? 0);
            [apply never_fail; discriminate |].
          destruct (String.eqb (User.UserID receiver) (Client.ClientID client));
            [apply never_fail; discriminate |].
          apply never_bind; [apply conformContinue_never | intros continue].
          destruct (negb continue); [apply never_ret | apply runPhases_never_i]. }
        specialize (Hnever w).
        match goal with |- context [bind ?m ?k w] =>
          destruct (bind m k w) as [[[] | e |] w1] end; cbn [fst snd] in *.
        -- split; [split; [discriminate | intros [_ ?]; lia] | discriminate].
        -- split; [split; [| intros [_ ?]; lia] |];
             intros H; injection H as ->; cbn in Hnever; congruence.
        -- split; [split; [discriminate | intros [_ ?]; lia] | discriminate].
Qed.

(** X2.  When the keystore cannot be loaded, because it is missing, may not be
    read or does not decode, [main] ends with that error in its context
    after the one attempt to open the file: the network is not reached. *)
Theorem main_keystore_unreadable (fuel : nat) (arg0 : string) (args : list string)
    (keystorePath : string) (spendGroupCount : Z) (w : World L) (e : string) :
  1 <= spendGroupCount <= 256 ->
  (loadKeystore env keystorePath w).1 = Fail e ->
  main env fuel (arg0 :: args) keystorePath spendGroupCount w
  = (Fail ("load keystore failed: " +:+ e),
     mkWorld (outside w) (files w) (key w) (trace w ++ [EvOpenFile keystorePath O_RDONLY])).
Proof.
  intros Hgroup Hload. unfold main.
  destruct (Z.leb_spec spendGroupCount 0); [lia |].
  destruct (Z.ltb_spec 256 spendGroupCount); [lia |]. cbn [orb].
  unfold bind at 1. unfold wrap at 1.
  unfold loadKeystore, bind, openFile, lift in Hload |- *.
  destruct (files w !! keystorePath) as [f |].
  - destruct (permits env O_RDONLY (perm f)).
    + destruct (jsonDecodeKeystore env (content f)) as [k | e'];
        cbn [fst] in Hload; [discriminate |]. injection Hload as ->. reflexivity.
    + cbn [fst] in Hload. injection Hload as <-. reflexivity.
  - cbn [fst] in Hload. injection Hload as <-. reflexivity.
Qed.

End MainMore.

(** ** The whole run and the file system *)

Section RunMore.

Context {L Tx : Type} (env : Env L Tx).

Lemma onlyContentAt_outside path (w : World L) l k t :
  onlyContentAt path w (mkWorld l (files w) k t).
Proof. apply onlyContentAt_files. reflexivity. Qed.

Lemma keeps_onlyContentAt_untouched {A} path (m : M L A) :
  keeps untouched m -> keeps (onlyContentAt path) m.
Proof. intros Hm w. apply onlyContentAt_files. apply (Hm w). Qed.

Ltac frame_at path :=
  repeat first
    [ (intros w0; apply saveKeystore_onlyContentAt)
    | apply (keeps_bind (onlyContentAt path) (onlyContentAt_trans path)); [| intros ?]
    | apply keeps_wrap
    | apply (keeps_call (onlyContentAt path) (fun w l t => onlyContentAt_outside path w l (key w) t))
    | apply (keeps_draw (onlyContentAt path) (fun w l t => onlyContentAt_outside path w l (key w) t))
    | apply (keeps_openFile (onlyContentAt path)
               (fun w l t => onlyContentAt_outside path w l (key w) t))
    | apply (keeps_getKey (onlyContentAt path) (onlyContentAt_refl path))
    | apply (keeps_ret (onlyContentAt path) (onlyContentAt_refl path))
    | apply (keeps_lift (onlyContentAt path) (onlyContentAt_refl path))
    | apply (keeps_fail (onlyContentAt path) (onlyContentAt_refl path))
    | (intros w0; unfold putKey; cbn [snd]; apply onlyContentAt_outside) ].

Lemma updateTipPin_onlyContentAt r : keeps (onlyContentAt (output r)) (updateTipPin env r).
Proof.
  unfold updateTipPin.
  apply (keeps_bind (onlyContentAt (output r)) (onlyContentAt_trans (output r)));
    [frame_at (output r) | intros k].
  destruct (isOk (mixinnet.KeyFromString (keyFromSeed env) (Keystore.Pin k))); frame_at (output r).
Qed.

Lemma migrateToSafe_onlyContentAt r : keeps (onlyContentAt (output r)) (migrateToSafe env r).
Proof.
  unfold migrateToSafe.
  apply (keeps_bind (onlyContentAt (output r)) (onlyContentAt_trans (output r)));
    [frame_at (output r) | intros k].
  destruct (isOk (mixinnet.KeyFromString (keyFromSeed env) (Keystore.SpendKey k))); frame_at (output r).
Qed.

Lemma runPhases_onlyContentAt fuel r spendGroupCount :
  keeps (onlyContentAt (output r)) (runPhases env fuel r spendGroupCount).
Proof.
  unfold runPhases.
  apply (keeps_bind (onlyContentAt (output r)) (onlyContentAt_trans (output r)));
    [apply keeps_wrap, keeps_onlyContentAt_untouched, migrateLegacyAssets_untouched
    | intros _].
  apply (keeps_bind (onlyContentAt (output r)) (onlyContentAt_trans (output r)));
    [apply keeps_wrap, updateTipPin_onlyContentAt | intros _].
  apply (keeps_bind (onlyContentAt (output r)) (onlyContentAt_trans (output r)));
    [apply keeps_wrap, migrateToSafe_onlyContentAt | intros _].
  apply keeps_wrap, keeps_onlyContentAt_untouched, migrateSafeAssets_untouched.
Qed.

Lemma conformContinue_onlyContentAt path : keeps (onlyContentAt path) (conformContinue env).
Proof.
  intros w. unfold conformContinue, call.
  destruct (promptRun env (outside w)) as [[answer | e] l1]; apply onlyContentAt_outside.
Qed.

(** X4.  Whatever the command line, the answers of the network and the fuel, a
    run of [main] makes no file and removes none, changes no permission
    bits, and leaves the content of every file other than the keystore at
    the path of [-key] as it was. *)
Theorem main_touches_only_keystore (fuel : nat) (args : list string) (keystorePath : string)
    (spendGroupCount : Z) (w : World L) :
  onlyContentAt keystorePath w (main env fuel args keystorePath spendGroupCount w).2.
Proof.
  revert w. change (keeps (onlyContentAt keystorePath)
                      (main env fuel args keystorePath spendGroupCount)).
  unfold main. destruct args as [| arg0 args]; [frame_at keystorePath |].
  destruct ((spendGroupCount <=? 0) || (256 <? spendGroupCount)); [frame_at keystorePath |].
  apply (keeps_bind (onlyContentAt keystorePath) (onlyContentAt_trans keystorePath));
    [unfold loadKeystore; frame_at keystorePath | intros k].
  apply (keeps_bind (onlyContentAt keystorePath) (onlyContentAt_trans keystorePath));
    [frame_at keystorePath | intros _].
  apply (keeps_bind (onlyContentAt keystorePath) (onlyContentAt_trans keystorePath));
    [frame_at keystorePath | intros client].
  apply (keeps_bind (onlyContentAt keystorePath) (onlyContentAt_trans keystorePath));
    [unfold fetchUserInfo; frame_at keystorePath | intros receiver].
  destruct (ToInt64 env (User.IdentityNumber receiver) =? 0); [frame_at keystorePath |].
  destruct (String.eqb (User.UserID receiver) (Client.ClientID client));
    [frame_at keystorePath |].
  apply (keeps_bind (onlyContentAt keystorePath) (onlyContentAt_trans keystorePath));
    [apply conformContinue_onlyContentAt | intros continue].
  destruct (negb continue); [frame_at keystorePath |].
  apply (runPhases_onlyContentAt fuel (mkRunner client keystorePath (User.UserID receiver))).
Qed.

Ltac grow :=
  repeat first
    [ assumption
    | apply emits_bind; [exact (fun _ _ _ _ => I) | | intros ?]
    | apply emits_wrap
    | apply emits_call; exact I
    | apply emits_draw; intros; exact I
    | apply emits_openFile; exact I
    | apply emits_writeFile; exact I
    | apply emits_getKey; exact I
    | apply emits_putKey; exact I
    | apply emits_ret; exact I
    | apply emits_spin; exact I
    | apply emits_lift; exact I
    | apply emits_fail; exact I ].

Lemma runPhases_extends fuel r spendGroupCount (w : World L) :
  exists post, trace (runPhases env fuel r spendGroupCount w).2 = trace w ++ post.
Proof.
  assert (Hphase : forall A (m : M L A), emits (fun _ => True) m ->
            forall w0, exists post, trace (m w0).2 = trace w0 ++ post).
  { intros A m Hm w0. destruct (Hm w0) as (post & Hpost & _). eauto. }
  apply Hphase. clear w Hphase.
  assert (Hsave : emits (L := L) (fun _ => True) (saveKeystore env r)).
  { unfold saveKeystore. grow. }
  assert (Htransfer : forall assets, emits (L := L) (fun _ => True) (transferLoop env r assets)).
  { induction assets as [| asset assets IH]; cbn [transferLoop]; grow. }
  assert (Hlist : forall n opt assets, emits (L := L) (fun _ => True) (listLoop env n opt assets)).
  { induction n as [| n IH]; intros opt assets; cbn [listLoop]; grow.
    destruct (len a =? 0); [grow |].
    destruct (collectPage a (opt, assets)). apply IH. }
  assert (Hsettle : forall spendKey spends,
            emits (L := L) (fun _ => True) (settle env r spendKey spends)).
  { intros spendKey spends. unfold settle, NewSafeTransactionBuilder. grow. }
  assert (Hspend : forall limit spendKey utxos n idx,
            emits (L := L) (fun _ => True) (spendLoop env n r limit spendKey utxos idx)).
  { intros limit spendKey utxos. induction n as [| n IH]; intros idx; cbn [spendLoop];
      [grow |].
    destruct (idx <? len utxos); [| grow].
    apply emits_bind; [exact (fun _ _ _ _ => I) | apply Hsettle | intros _; apply IH]. }
  assert (Hasset : forall limit spendKey n entries,
            emits (L := L) (fun _ => True) (assetLoop env n r limit spendKey entries)).
  { intros limit spendKey n. induction entries as [| [assetId utxos] entries IH];
      cbn [assetLoop]; [grow |].
    apply emits_bind; [exact (fun _ _ _ _ => I) | grow | intros _].
    apply emits_bind; [exact (fun _ _ _ _ => I) | apply Hspend | intros _; exact IH]. }
  unfold runPhases.
  apply emits_bind; [exact (fun _ _ _ _ => I) | apply emits_wrap | intros _].
  { unfold migrateLegacyAssets.
    apply emits_bind; [exact (fun _ _ _ _ => I) | grow | intros assets].
    destruct (len (compact assets) =? 0); [grow | apply Htransfer]. }
  apply emits_bind; [exact (fun _ _ _ _ => I) | apply emits_wrap | intros _].
  { unfold updateTipPin.
    apply emits_bind; [exact (fun _ _ _ _ => I) | grow | intros k].
    destruct (isOk (mixinnet.KeyFromString (keyFromSeed env) (Keystore.Pin k))); grow. }
  apply emits_bind; [exact (fun _ _ _ _ => I) | apply emits_wrap | intros _].
  { unfold migrateToSafe.
    apply emits_bind; [exact (fun _ _ _ _ => I) | grow | intros k].
    destruct (isOk (mixinnet.KeyFromString (keyFromSeed env) (Keystore.SpendKey k))); grow. }
  apply emits_wrap. unfold migrateSafeAssets.
  apply emits_bind; [exact (fun _ _ _ _ => I) | apply Hlist | intros assets].
  destruct (Z.of_nat (size assets) =? 0); [grow |].
  apply emits_bind; [exact (fun _ _ _ _ => I) | grow | intros k].
  apply emits_bind; [exact (fun _ _ _ _ => I) | grow | intros spendKey].
  apply Hasset.
Qed.

(** X3.  Nothing is changed before the operator agrees.  Either the run has
    changed no file, made no call that changes the wallet or the ledger,
    and ended; or the keystore was loaded, the client made, the receiver
    looked up, and the prompt, run in the state the lookup left, was
    answered [y] or [Y], and then the run is the four phases started in the
    state that very prompt left, after just these three steps. *)
Theorem main_asks_first (fuel : nat) (args : list string) (keystorePath : string)
    (spendGroupCount : Z) (w : World L) :
  exists ext,
    trace (main env fuel args keystorePath spendGroupCount w).2 = trace w ++ ext
    /\ ((Forall (fun ev => mutating ev = false) ext
         /\ files (main env fuel args keystorePath spendGroupCount w).2 = files w
         /\ (main env fuel args keystorePath spendGroupCount w).1 <> Spin)
        \/ exists arg0 f k client body l1 receiver answer l2,
             hd_error args = Some arg0
             /\ files w !! keystorePath = Some f
             /\ jsonDecodeKeystore env (content f) = Ok k
             /\ NewFromKeystore env (Keystore.base k) = Ok client
             /\ httpGet env ("https://echo.yiplee.com/users/" +:+ arg0) (outside w)
                = (Ok body, l1)
             /\ jsonDecodeUser env body = Ok receiver
             /\ promptRun env l1 = (Ok answer, l2)
             /\ (answer = "y" \/ answer = "Y")
             /\ main env fuel args keystorePath spendGroupCount w
                = runPhases env fuel
                    (mkRunner client keystorePath (User.UserID receiver)) spendGroupCount
                    (mkWorld l2 (files w) k
                       (trace w ++ [EvOpenFile keystorePath O_RDONLY;
                                    EvHttpGet ("https://echo.yiplee.com/users/" +:+ arg0);
                                    EvPrompt]))).
Proof.
  set (res := main env fuel args keystorePath spendGroupCount w).
  assert (Hres : res = main env fuel args keystorePath spendGroupCount w) by reflexivity.
  clearbody res.
  assert (Hquiet : forall (o : outcome unit) (l : L) k ext,
            res = (o, mkWorld l (files w) k (trace w ++ ext)) ->
            o <> Spin -> Forall (fun ev => mutating ev = false) ext ->
            exists ext0,
              trace res.2 = trace w ++ ext0
              /\ ((Forall (fun ev => mutating ev = false) ext0
                   /\ files res.2 = files w /\ res.1 <> Spin)
                  \/ exists arg0 f k client body l1 receiver answer l2,
                       hd_error args = Some arg0
                       /\ files w !! keystorePath = Some f
                       /\ jsonDecodeKeystore env (content f) = Ok k
                       /\ NewFromKeystore env (Keystore.base k) = Ok client
                       /\ httpGet env ("https://echo.yiplee.com/users/" +:+ arg0) (outside w)
                          = (Ok body, l1)
                       /\ jsonDecodeUser env body = Ok receiver
                       /\ promptRun env l1 = (Ok answer, l2)
                       /\ (answer = "y" \/ answer = "Y")
                       /\ res
                          = runPhases env fuel
                              (mkRunner client keystorePath (User.UserID receiver)) spendGroupCount
                              (mkWorld l2 (files w) k
                                 (trace w ++ [EvOpenFile keystorePath O_RDONLY;
                                              EvHttpGet ("https://echo.yiplee.com/users/" +:+ arg0);
                                              EvPrompt])))).
  { intros o l k ext -> Ho Hext. exists ext. split; [reflexivity |]. left. auto. }
  unfold main in Hres. destruct args as [| arg0 args].
  { destruct w as [l fs k t]. unfold fail in Hres. rewrite <- (app_nil_r t) in Hres.
    eapply Hquiet; [exact Hres | discriminate | constructor]. }
  destruct ((spendGroupCount <=? 0) || (256 <? spendGroupCount)).
  { destruct w as [l fs k t]. unfold fail in Hres. rewrite <- (app_nil_r t) in Hres.
    eapply Hquiet; [exact Hres | discriminate | constructor]. }
  unfold bind at 1 in Hres. unfold wrap at 1 in Hres.
  unfold loadKeystore, bind at 1, openFile in Hres.
  destruct (files w !! keystorePath) as [f |] eqn:Hfile;
    [| eapply Hquiet; [exact Hres | discriminate | repeat constructor]].
  destruct (permits env O_RDONLY (perm f));
    [| eapply Hquiet; [exact Hres | discriminate | repeat constructor]].
  unfold lift at 1 in Hres.
  destruct (jsonDecodeKeystore env (content f)) as [k | e] eqn:Hkey;
    [| eapply Hquiet; [exact Hres | discriminate | repeat constructor]].
  unfold bind at 1 in Hres. unfold putKey in Hres. unfold bind at 1 in Hres.
  unfold wrap at 1, lift at 1 in Hres.
  destruct (NewFromKeystore env (Keystore.base k)) as [client | e] eqn:Hclient;
    [| eapply Hquiet; [exact Hres | discriminate | repeat constructor]].
  unfold bind at 1 in Hres. unfold wrap at 1 in Hres.
  unfold fetchUserInfo, bind at 1, call in Hres.
  cbn [outside files key trace] in Hres.
  destruct (httpGet env ("https://echo.yiplee.com/users/" +:+ arg0) (outside w))
    as [[body | e] l1] eqn:Hget; rewrite <- ?app_assoc in Hres; cbn [app] in Hres;
    [| eapply Hquiet; [exact Hres | discriminate | repeat constructor]].
  unfold lift in Hres.
  destruct (jsonDecodeUser env body) as [receiver | e] eqn:Huser;
    [| eapply Hquiet; [exact Hres | discriminate | repeat constructor]].
  destruct (ToInt64 env (User.IdentityNumber receiver) =? 0);
    [eapply Hquiet; [exact Hres | discriminate | repeat constructor] |].
  destruct (String.eqb (User.UserID receiver) (Client.ClientID client));
    [eapply Hquiet; [exact Hres | discriminate | repeat constructor] |].
  unfold bind, conformContinue, call in Hres. cbn [outside files key trace] in Hres.
  destruct (promptRun env l1) as [[answer | e] l2] eqn:Hprompt;
    rewrite <- ?app_assoc in Hres; cbn [app] in Hres;
    [| eapply Hquiet; [exact Hres | discriminate | repeat constructor]].
  destruct (EqualFold_y answer) eqn:Hanswer; cbn [negb] in Hres;
    [| eapply Hquiet; [exact Hres | discriminate | repeat constructor]].
  clear Hquiet.
  match type of Hres with _ = runPhases env fuel ?r0 spendGroupCount ?w1 =>
    destruct (runPhases_extends fuel r0 spendGroupCount w1) as (post & Hpost) end.
  rewrite <- Hres in Hpost. rewrite Hpost. cbn [trace]. rewrite <- app_assoc. cbn [app].
  eexists. split; [reflexivity |]. right.
  exists arg0, f, k, client, body, l1, receiver, answer, l2.
  split; [reflexivity |]. split; [reflexivity |]. split; [exact Hkey |].
  split; [exact Hclient |]. split; [exact Hget |]. split; [exact Huser |].
  split; [exact Hprompt |]. split; [| exact Hres].
  unfold EqualFold_y in Hanswer. apply orb_true_iff in Hanswer.
  destruct Hanswer as [H | H]; apply String.eqb_eq in H; auto.
Qed.

(** X5.  Running the phases again after a completed migration only looks: when
    every legacy balance is zero, both secrets of the record are keys and
    the first page of unspent outputs is empty, the phases end well having
    read the balances and asked for that one page, with the files and the
    record as they were. *)
Theorem runPhases_nothing_left (fuel : nat) (r : runner) (spendGroupCount : Z) (w : World L)
    (assets : list Asset.t) (l1 l2 : L) :
  ReadAssets env (outside w) = (Ok assets, l1) ->
  Forall (fun a => decimal.IsZero (Asset.Balance a) = true) assets ->
  isOk (mixinnet.KeyFromString (keyFromSeed env) (Keystore.Pin (key w))) = true ->
  isOk (mixinnet.KeyFromString (keyFromSeed env) (Keystore.SpendKey (key w))) = true ->
  SafeListUtxos env initialOption l1 = (Ok [], l2) ->
  runPhases env (S fuel) r spendGroupCount w
  = (Done tt, mkWorld l2 (files w) (key w)
                (trace w ++ [EvReadAssets; EvSafeListUtxos initialOption])).
Proof.
  intros Hread Hzero Hpin Hspend Hlist.
  unfold runPhases, bind at 1, wrap at 1.
  unfold migrateLegacyAssets, bind at 1, wrap at 1, call. rewrite Hread.
  rewrite compact_filter, (proj2 (filter_nonZero_nil assets) Hzero).
  change (len (@nil Asset.t) =? 0) with true. cbn iota. unfold ret at 1.
  unfold bind at 1, wrap at 1. unfold updateTipPin, bind at 1, getKey. cbn [key].
  rewrite Hpin. unfold ret at 1.
  unfold bind at 1, wrap at 1. unfold migrateToSafe, bind at 1, getKey. cbn [key].
  rewrite Hspend. unfold ret at 1.
  unfold wrap at 1, migrateSafeAssets, bind at 1. cbn [listLoop].
  unfold bind at 1, wrap at 1, call. cbn [outside]. rewrite Hlist.
  change (len (@nil SafeUtxo.t) =? 0) with true. cbn iota. unfold ret.
  rewrite map_size_empty. cbn [Z.of_nat Z.eqb]. cbn [files key trace].
  rewrite <- app_assoc. reflexivity.
Qed.

End RunMore.

(** ** The further properties, at concrete inputs *)

(** [migrateLegacyAssets_nothing_to_do] at a ledger whose one balance is zero. *)
Lemma migrateLegacyAssets_nothing_to_do_witness :
  migrateLegacyAssets Cases.settled Fixture.theRunner
    (Fixture.world Fixture.rotatedKeystore "")
  = (Done tt,
     mkWorld tt (files (Fixture.world Fixture.rotatedKeystore "")) Fixture.rotatedKeystore
       [EvReadAssets]).
Proof.
  apply (migrateLegacyAssets_nothing_to_do Cases.settled Fixture.theRunner
           (Fixture.world Fixture.rotatedKeystore "") [Fixture.assetA] tt).
  - reflexivity.
  - repeat constructor.
Defined.


(** [updateTipPin_refused] at a legacy keystore and a ledger that refuses. *)
Lemma updateTipPin_refused_witness :
  updateTipPin (Cases.refusing (Fixture.ledger 0)) Fixture.theRunner
    (Fixture.world Fixture.legacyKeystore "")
  = (Fail "modify pin failed: pin incorrect",
     mkWorld tt (files (Fixture.world Fixture.legacyKeystore "")) Fixture.legacyKeystore
       [EvGenerateKey Fixture.sampleKey;
        EvModifyPin "123456" (mixinnet.KeyString Fixture.sampleKey)]).
Proof.
  apply (updateTipPin_refused (Cases.refusing (Fixture.ledger 0)) Fixture.theRunner
           (Fixture.world Fixture.legacyKeystore "") Fixture.sampleKey tt tt "pin incorrect");
    reflexivity.
Defined.

(** [migrateToSafe_refused] at a legacy keystore and a ledger that refuses. *)
Lemma migrateToSafe_refused_witness :
  migrateToSafe (Cases.refusing (Fixture.ledger 0)) Fixture.theRunner
    (Fixture.world Fixture.legacyKeystore "")
  = (Fail "migrate safe failed: forbidden",
     mkWorld tt (files (Fixture.world Fixture.legacyKeystore "")) Fixture.legacyKeystore
       [EvGenerateKey Fixture.sampleKey;
        EvSafeMigrate (mixinnet.KeyString Fixture.sampleKey) "123456"]).
Proof.
  apply (migrateToSafe_refused (Cases.refusing (Fixture.ledger 0)) Fixture.theRunner
           (Fixture.world Fixture.legacyKeystore "") Fixture.sampleKey tt tt "forbidden");
    reflexivity.
Defined.

(** [rotation_idempotent] at a legacy keystore and a ledger that accepts. *)
Lemma rotation_idempotent_witness :
  updateTipPin (Fixture.ledger 0) Fixture.theRunner
    (migrateToSafe (Fixture.ledger 0) Fixture.theRunner
       (updateTipPin (Fixture.ledger 0) Fixture.theRunner
          (Fixture.world Fixture.legacyKeystore "")).2).2
  = (Done tt,
     (migrateToSafe (Fixture.ledger 0) Fixture.theRunner
        (updateTipPin (Fixture.ledger 0) Fixture.theRunner
           (Fixture.world Fixture.legacyKeystore "")).2).2)
  /\ migrateToSafe (Fixture.ledger 0) Fixture.theRunner
       (migrateToSafe (Fixture.ledger 0) Fixture.theRunner
          (updateTipPin (Fixture.ledger 0) Fixture.theRunner
             (Fixture.world Fixture.legacyKeystore "")).2).2
     = (Done tt,
        (migrateToSafe (Fixture.ledger 0) Fixture.theRunner
           (updateTipPin (Fixture.ledger 0) Fixture.theRunner
              (Fixture.world Fixture.legacyKeystore "")).2).2).
Proof.
  apply (rotation_idempotent (Fixture.ledger 0) Fixture.theRunner
           (Fixture.world Fixture.legacyKeystore "")); vm_compute; reflexivity.
Defined.

(** [saveKeystore_keeps_tail] at a file that holds a longer, older text. *)
Lemma saveKeystore_keeps_tail_witness :
  exists f',
    files (saveKeystore (Fixture.ledger 0) Fixture.theRunner Fixture.staleWorld).2
      !! Fixture.keystorePath = Some f'
    /\ String.length (content f')
       = String.length (Fixture.encodeKeystore Fixture.rotatedKeystore)
    /\ (String.length (Fixture.encodeKeystore Fixture.legacyKeystore)
        < String.length (Fixture.encodeKeystore Fixture.rotatedKeystore))%nat.
Proof.
  destruct (saveKeystore_keeps_tail (Fixture.ledger 0) Fixture.theRunner Fixture.staleWorld
              (mkFile 384 (Fixture.encodeKeystore Fixture.rotatedKeystore)))
    as (f' & Hfile & _ & Hdone).
  - reflexivity.
  - exists f'. split; [exact Hfile |].
    destruct Hdone as (Hlength & _); [reflexivity |]. rewrite Hlength.
    split; vm_compute; [reflexivity | lia].
Defined.

(** [migrateSafeAssets_no_outputs] at a ledger without unspent outputs. *)
Lemma migrateSafeAssets_no_outputs_witness :
  migrateSafeAssets (Fixture.ledger 0) 1 Fixture.theRunner 256
    (Fixture.world Fixture.rotatedKeystore "")
  = (Done tt,
     mkWorld tt (files (Fixture.world Fixture.rotatedKeystore "")) Fixture.rotatedKeystore
       [EvSafeListUtxos initialOption]).
Proof.
  apply (migrateSafeAssets_no_outputs (Fixture.ledger 0) Fixture.theRunner 0 256
           (Fixture.world Fixture.rotatedKeystore "") tt).
  reflexivity.
Defined.

(** [migrateSafeAssets_invalid_spend_key] at one unspent output and a
    keystore whose spend key is empty. *)
Lemma migrateSafeAssets_invalid_spend_key_witness :
  (migrateSafeAssets (Fixture.ledger 1) 3 Fixture.theRunner 256
     (Fixture.world Fixture.legacyKeystore "")).1
  = Fail "invalid spend key: invalid key size 0".
Proof.
  destruct (migrateSafeAssets_invalid_spend_key (Fixture.ledger 1) Fixture.theRunner 3 256
              (Fixture.world Fixture.legacyKeystore "") Fixture.enumerateOne.2
              (match Fixture.enumerateOne.1 with Done assets => assets | _ => ∅ end)
              "invalid key size 0")
    as [Hrun _].
  - vm_compute. reflexivity.
  - intros Hempty. apply (f_equal (fun assets => size assets)) in Hempty.
    vm_compute in Hempty. discriminate Hempty.
  - reflexivity.
  - rewrite Hrun. reflexivity.
Defined.


(** [spend_groups_pay_the_total] at three outputs in groups of two. *)
Lemma spend_groups_pay_the_total_witness :
  exists groups,
    spendGroups 4 2 (Fixture.utxos 3) 0 = Some groups
    /\ (sumQ (map sumUtxos groups) == decimal.toQ (sumUtxos (Fixture.utxos 3)))%Q.
Proof.
  apply (spend_groups_pay_the_total (Fixture.utxos 3) 2). lia.
Defined.

(** [sumUtxos_order_irrelevant] at two outputs with different exponents. *)
Lemma sumUtxos_order_irrelevant_witness :
  (decimal.toQ (sumUtxos [Fixture.utxo 1; Cases.coarse])
   == decimal.toQ (sumUtxos [Cases.coarse; Fixture.utxo 1]))%Q
  /\ decimal.exp (sumUtxos [Fixture.utxo 1; Cases.coarse]) <= 0.
Proof.
  destruct (sumUtxos_order_irrelevant [Fixture.utxo 1; Cases.coarse]
              [Cases.coarse; Fixture.utxo 1]) as (Hsum & Hexp & _).
  - apply perm_swap.
  - split; assumption.
Defined.

(** [main_keystore_unreadable] at a world without the keystore file. *)
Lemma main_keystore_unreadable_witness :
  main (Fixture.ledger 0) 0 ["7000"%string] Fixture.keystorePath 256 Cases.noFiles
  = (Fail "load keystore failed: open keystore.json: no such file or directory",
     mkWorld tt ∅ Keystore.zero [EvOpenFile Fixture.keystorePath O_RDONLY]).
Proof.
  apply (main_keystore_unreadable (Fixture.ledger 0) 0 "7000" [] Fixture.keystorePath 256
           Cases.noFiles "open keystore.json: no such file or directory").
  - lia.
  - reflexivity.
Defined.

(** [runPhases_nothing_left] at a wallet whose migration is complete. *)
Lemma runPhases_nothing_left_witness :
  runPhases Cases.settled 1 Fixture.theRunner 256 (Fixture.world Fixture.rotatedKeystore "")
  = (Done tt,
     mkWorld tt (files (Fixture.world Fixture.rotatedKeystore "")) Fixture.rotatedKeystore
       [EvReadAssets; EvSafeListUtxos initialOption]).
Proof.
  apply (runPhases_nothing_left Cases.settled 0 Fixture.theRunner 256
           (Fixture.world Fixture.rotatedKeystore "") [Fixture.assetA] tt tt).
  - reflexivity.
  - repeat constructor.
  - vm_compute. reflexivity.
  - vm_compute. reflexivity.
  - reflexivity.
Defined.
